(** * llms-sitemap-generator: URL discovery, canonicalisation and classification

    A shallow embedding of the core of the generator:
    - [url_utils.py]  : [normalize_url], [should_skip_by_extension], ...
    - [sitemap.py]    : sitemap reading, sitemap-index expansion and the final
                        de-duplication pass of [collect_urls_from_sources]
    - [crawler.py]    : the priority crawler and its fetch-with-retry loop
    - [filters.py]    : [filter_and_group_urls] and the scoring function
    - [generator.py]  : the per-group limits of [_generate_llms_from_urls]

    Python [str] values are Rocq strings; a character is a code point below
    256.  Python [int] values are [Z].  An exception raised by the code is an
    explicit [Raised] outcome. *)

From Stdlib Require Import ZArith Lia Bool Ascii String List.
From Stdlib Require Import Sorting.Sorted Sorting.Permutation.
From Stdlib Require OrderedTypeEx.
From stdpp Require Import base option list gmap sets strings pretty.

Local Open Scope string_scope.
Local Open Scope Z_scope.

(** ** Outcomes of code that may raise *)

Inductive exn : Type :=
| ValueError (msg : string)
| OverflowError (msg : string)
| OSError (msg : string)
| HTTPError (msg : string)
| FetchError (msg : string).

Inductive result (A : Type) : Type :=
| Ok (a : A)
| Raised (e : exn).
Arguments Ok {A} a.
Arguments Raised {A} e.

Global Instance result_ret : MRet result := fun A a => Ok a.
Global Instance result_bind : MBind result := fun A B k r =>
  match r with
  | Ok a => k a
  | Raised e => Raised e
  end.

Definition is_ok {A : Type} (r : result A) : bool :=
  match r with Ok _ => true | Raised _ => false end.

(** The outcome of a loop or recursion run with a bound on its turns or
    nested calls: [None] when the bound was too small. *)
Abbreviation fueled A := (option (result A)).

(** ** Python string primitives *)

Module PyStr.

Definition ord (c : ascii) : N := N_of_ascii c.

Definition in_range (lo hi : N) (c : ascii) : bool :=
  (N.leb lo (ord c) && N.leb (ord c) hi)%bool.

Definition is_ascii_upper (c : ascii) : bool := in_range 65 90 c.
Definition is_ascii_lower (c : ascii) : bool := in_range 97 122 c.
Definition is_ascii_alpha (c : ascii) : bool :=
  (is_ascii_upper c || is_ascii_lower c)%bool.
Definition is_ascii_digit (c : ascii) : bool := in_range 48 57 c.

(** [str.isspace] on one code point below 256: TAB..CR, FS..US, space,
    NEL (0x85) and NBSP (0xA0). *)
Definition is_space (c : ascii) : bool :=
  (in_range 9 13 c || in_range 28 32 c
   || N.eqb (ord c) 133 || N.eqb (ord c) 160)%bool.

(** Upper-case letters below 256: A-Z and the Latin-1 capitals
    U+00C0..U+00DE without the multiplication sign U+00D7. *)
Definition is_upper (c : ascii) : bool :=
  (is_ascii_upper c
   || (in_range 192 222 c && negb (N.eqb (ord c) 215)))%bool.

Definition lower_char (c : ascii) : ascii :=
  if is_upper c then ascii_of_N (ord c + 32) else c.

(** [s.lower()] *)
Fixpoint lower (s : string) : string :=
  match s with
  | EmptyString => EmptyString
  | String c r => String (lower_char c) (lower r)
  end.

Definition is_empty (s : string) : bool :=
  match s with EmptyString => true | _ => false end.

(** [c in s] for a single character [c] *)
Fixpoint has_char (c : ascii) (s : string) : bool :=
  match s with
  | EmptyString => false
  | String a r => (Ascii.eqb a c || has_char c r)%bool
  end.

Fixpoint all_chars (p : ascii -> bool) (s : string) : bool :=
  match s with
  | EmptyString => true
  | String a r => (p a && all_chars p r)%bool
  end.

(** [s.lstrip(chars)], [chars] given as a predicate *)
Fixpoint lstrip_by (p : ascii -> bool) (s : string) : string :=
  match s with
  | EmptyString => EmptyString
  | String a r => if p a then lstrip_by p r else s
  end.

(** [s.rstrip(chars)] *)
Fixpoint rstrip_by (p : ascii -> bool) (s : string) : string :=
  match s with
  | EmptyString => EmptyString
  | String a r =>
      let r' := rstrip_by p r in
      if (is_empty r' && p a)%bool then EmptyString else String a r'
  end.

Definition strip_by (p : ascii -> bool) (s : string) : string :=
  rstrip_by p (lstrip_by p s).

(** [s.strip()] *)
Definition strip (s : string) : string := strip_by is_space s.

(** [s.replace(c, "")] for a single character [c] *)
Fixpoint remove_char (c : ascii) (s : string) : string :=
  match s with
  | EmptyString => EmptyString
  | String a r =>
      if Ascii.eqb a c then remove_char c r else String a (remove_char c r)
  end.

(** [s.partition(c)]: [Some (before, after)] when [c] occurs in [s], split at
    its first occurrence. *)
Fixpoint split_once (c : ascii) (s : string) : option (string * string) :=
  match s with
  | EmptyString => None
  | String a r =>
      if Ascii.eqb a c then Some (EmptyString, r)
      else match split_once c r with
           | Some (h, t) => Some (String a h, t)
           | None => None
           end
  end.

(** [s.rpartition(c)]: split at the last occurrence of [c]. *)
Fixpoint rsplit_once (c : ascii) (s : string) : option (string * string) :=
  match s with
  | EmptyString => None
  | String a r =>
      match rsplit_once c r with
      | Some (h, t) => Some (String a h, t)
      | None => if Ascii.eqb a c then Some (EmptyString, r) else None
      end
  end.

(** The longest prefix of [s] without a character satisfying [p], and the
    rest of [s]. *)
Fixpoint span_until (p : ascii -> bool) (s : string) : string * string :=
  match s with
  | EmptyString => (EmptyString, EmptyString)
  | String a r =>
      if p a then (EmptyString, s)
      else let '(h, t) := span_until p r in (String a h, t)
  end.

(** [s.split(c)] *)
Fixpoint split (c : ascii) (s : string) : list string :=
  match s with
  | EmptyString => [EmptyString]
  | String a r =>
      match split c r with
      | [] => [EmptyString]
      | h :: t => if Ascii.eqb a c then EmptyString :: h :: t
                  else String a h :: t
      end
  end.

(** [sep.join(l)] *)
Fixpoint join (sep : string) (l : list string) : string :=
  match l with
  | [] => EmptyString
  | [x] => x
  | x :: r => x +:+ sep +:+ join sep r
  end.

(** [s.startswith(p)] *)
Definition startswith (p s : string) : bool := String.prefix p s.

(** [s.endswith(p)] *)
Fixpoint endswith (p s : string) : bool :=
  match s with
  | EmptyString => is_empty p
  | String _ r => (String.eqb s p || endswith p r)%bool
  end.

(** [p in s] for strings *)
Fixpoint contains (p s : string) : bool :=
  match s with
  | EmptyString => is_empty p
  | String _ r => (String.prefix p s || contains p r)%bool
  end.

(** [s[:n]] and [s[n:]] for [n >= 0] *)
Fixpoint take (n : nat) (s : string) : string :=
  match n, s with
  | S k, String a r => String a (take k r)
  | _, _ => EmptyString
  end.

Fixpoint drop (n : nat) (s : string) : string :=
  match n, s with
  | S k, String _ r => drop k r
  | _, _ => s
  end.

(** [x in l] for a list of strings *)
Definition mem (x : string) (l : list string) : bool :=
  existsb (String.eqb x) l.

(** Line boundaries of [str.splitlines] below 256: LF, VT, FF, CR, FS, GS,
    RS and NEL. *)
Definition is_line_break (c : ascii) : bool :=
  (in_range 10 13 c || in_range 28 30 c || N.eqb (ord c) 133)%bool.

(** [s.splitlines()]; [cur] is the line being read, and [after_cr] says
    that the line before it ended with CR, which a LF may follow. *)
Fixpoint splitlines_from (after_cr : bool) (cur s : string) : list string :=
  match s with
  | EmptyString => if is_empty cur then [] else [cur]
  | String c r =>
      if (after_cr && Ascii.eqb c "010")%bool then splitlines_from false cur r
      else if is_line_break c
           then cur :: splitlines_from (Ascii.eqb c "013") "" r
           else splitlines_from false (cur +:+ String c "") r
  end.

Definition splitlines (s : string) : list string := splitlines_from false "" s.

(** A string whose first character, if any, does not satisfy [p]. *)
Definition starts_clean (p : ascii -> bool) (s : string) : Prop :=
  lstrip_by p s = s.

(** [s.startswith(prefixes)] for a tuple of prefixes *)
Definition startswith_any (prefixes : list string) (s : string) : bool :=
  existsb (fun p => startswith p s) prefixes.

(** [s.isascii()] *)
Definition isascii (s : string) : bool :=
  all_chars (fun c => N.ltb (ord c) 128) s.

(** The code points of a string. *)
Definition code_points (s : string) : list N :=
  map ord (list_ascii_of_string s).

(** [unicodedata.normalize('NFKC', c)] for one code point below 256: the
    no-break space, the spacing accents, the ordinal indicators, the
    superscript digits, the micro sign and the vulgar fractions have a
    compatibility form, every other code point is its own. *)
Definition nfkc_char (c : ascii) : list N :=
  match ord c with
  | 160 => [32]
  | 168 => [32; 776]
  | 170 => [97]
  | 175 => [32; 772]
  | 178 => [50]
  | 179 => [51]
  | 180 => [32; 769]
  | 181 => [956]
  | 184 => [32; 807]
  | 185 => [49]
  | 186 => [111]
  | 188 => [49; 8260; 52]
  | 189 => [49; 8260; 50]
  | 190 => [51; 8260; 52]
  | n => [n]
  end%N.

(** [unicodedata.normalize('NFKC', s)], as code points.  No code point
    below 256 is a combining mark, and those the compatibility forms bring
    follow a space, so nothing composes across characters: the normal form
    of a string is that of its characters in turn. *)
Definition nfkc (s : string) : list N :=
  flat_map nfkc_char (list_ascii_of_string s).

(** [c.isprintable()] below 256: not a control character, the no-break
    space or the soft hyphen. *)
Definition is_printable (c : ascii) : bool :=
  negb (N.ltb (ord c) 32 || in_range 127 160 c || N.eqb (ord c) 173)%bool.

(** The digit of [n < 16] in lower-case hexadecimal. *)
Definition hex_digit (n : N) : ascii :=
  if N.ltb n 10 then ascii_of_N (48 + n) else ascii_of_N (87 + n).

(** One character of [repr(s)] between the quotes [quote]. *)
Definition repr_char (quote c : ascii) : string :=
  let backslash : ascii := "092"%char in
  if (Ascii.eqb c quote || Ascii.eqb c backslash)%bool
  then String backslash (String c "")
  else if Ascii.eqb c "009" then String backslash "t"
  else if Ascii.eqb c "010" then String backslash "n"
  else if Ascii.eqb c "013" then String backslash "r"
  else if is_printable c then String c ""
  else String backslash
         (String "x" (String (hex_digit (ord c / 16))
                        (String (hex_digit (ord c mod 16)) ""))).

(** [repr(s)]: in double quotes when [s] holds a single quote and no
    double quote, in single quotes otherwise. *)
Definition repr (s : string) : string :=
  let single : ascii := "039"%char in
  let double : ascii := "034"%char in
  let quote :=
    if (has_char single s && negb (has_char double s))%bool then double
    else single in
  String quote
    (String.concat "" (map (repr_char quote) (list_ascii_of_string s))
     +:+ String quote "").

End PyStr.

(** ** [urllib.parse] and [ipaddress] of the Python standard library

    The functions [normalize_url] relies on, as CPython 3.11 defines them:
    [urlsplit], [urlparse], [urlunsplit], [urlunparse] and [urldefrag], with
    the validation of bracketed hosts that [urlsplit] delegates to
    [ipaddress.ip_address], the texts of the errors, and the NFKC check of
    the netloc. *)

Module IpAddress.
Import PyStr.

(** [IPv4Address._parse_octet]: [true] when the octet parses. *)
Definition parse_octet_ok (octet_str : string) : bool :=
  if is_empty octet_str then false
  else if negb (all_chars is_ascii_digit octet_str) then false
  else if Nat.ltb 3 (String.length octet_str) then false
  else if (negb (String.eqb octet_str "0") && startswith "0" octet_str)%bool
       then false
  else
    let digit (c : ascii) : N := (ord c - 48)%N in
    let fix value (acc : N) (s : string) : N :=
      match s with
      | EmptyString => acc
      | String c r => value (acc * 10 + digit c)%N r
      end in
    N.leb (value 0%N octet_str) 255.

(** [IPv4Address(address)] for a string: [true] when no
    [AddressValueError] is raised. *)
Definition ipv4_ok (addr_str : string) : bool :=
  if has_char "/" addr_str then false
  else if is_empty addr_str then false
  else
    let octets := split "." addr_str in
    if negb (Nat.eqb (length octets) 4) then false
    else forallb parse_octet_ok octets.

Definition is_hex_digit (c : ascii) : bool :=
  (is_ascii_digit c || in_range 65 70 c || in_range 97 102 c)%bool.

(** [IPv6Address._parse_hextet]: [int("", 16)] raises, so the empty string
    does not parse. *)
Definition parse_hextet_ok (hextet_str : string) : bool :=
  if negb (all_chars is_hex_digit hextet_str) then false
  else if Nat.ltb 4 (String.length hextet_str) then false
  else negb (is_empty hextet_str).

(** [IPv6Address._split_scope_id]: the address part, or [None] when it
    raises. *)
Definition split_scope_id (ip_str : string) : option string :=
  match split_once "%" ip_str with
  | None => Some ip_str
  | Some (addr, scope_id) =>
      if (is_empty scope_id || has_char "%" scope_id)%bool then None
      else Some addr
  end.

(** The indices [i] in [range(1, len(parts) - 1)] with [parts[i]] empty. *)
Definition inner_empty_indices (parts : list string) : list nat :=
  filter (fun i => Nat.ltb 0 i && Nat.ltb (i + 1) (length parts)
                   && is_empty (nth i parts "x"))%bool
         (seq 0 (length parts)).

(** [IPv6Address._ip_int_from_string]: [true] when the address parses.
    Only the hextets' validity is kept, not the integer they denote; an
    IPv4-style suffix is replaced by two hextets, which always parse. *)
Definition ipv6_int_from_string_ok (ip_str : string) : bool :=
  if is_empty ip_str then false
  else
    let parts := split ":" ip_str in
    if Nat.ltb (length parts) 3 then false
    else
      let last_part := List.last parts "" in
      let parts' :=
        if has_char "." last_part then
          if ipv4_ok last_part
          then Some (removelast parts ++ ["0"; "0"])%list
          else None
        else Some parts in
      match parts' with
      | None => false
      | Some parts =>
          let n := length parts in
          if Nat.ltb 9 n then false
          else
            match inner_empty_indices parts with
            | _ :: _ :: _ => false
            | [skip_index] =>
                let parts_hi := skip_index in
                let parts_lo := (n - skip_index - 1)%nat in
                let first_empty := is_empty (nth 0 parts "x") in
                let last_empty := is_empty (List.last parts "x") in
                let parts_hi' :=
                  if first_empty then (parts_hi - 1)%nat else parts_hi in
                let parts_lo' :=
                  if last_empty then (parts_lo - 1)%nat else parts_lo in
                if (first_empty && negb (Nat.eqb parts_hi' 0))%bool then false
                else if (last_empty && negb (Nat.eqb parts_lo' 0))%bool
                     then false
                else if Nat.ltb 7 (parts_hi' + parts_lo') then false
                else
                  (forallb parse_hextet_ok (firstn parts_hi' parts)
                   && forallb parse_hextet_ok
                        (skipn (n - parts_lo') parts))%bool
            | [] =>
                if negb (Nat.eqb n 8) then false
                else if is_empty (nth 0 parts "x") then false
                else if is_empty (List.last parts "x") then false
                else forallb parse_hextet_ok parts
            end
      end.

(** [IPv6Address(address)] for a string. *)
Definition ipv6_ok (addr_str : string) : bool :=
  if has_char "/" addr_str then false
  else match split_scope_id addr_str with
       | None => false
       | Some ip_str => ipv6_int_from_string_ok ip_str
       end.

End IpAddress.

Module UrlParse.
Import PyStr.

Definition uses_netloc : list string :=
  [""; "ftp"; "http"; "gopher"; "nntp"; "telnet";
   "imap"; "wais"; "file"; "mms"; "https"; "shttp";
   "snews"; "prospero"; "rtsp"; "rtspu"; "rsync";
   "svn"; "svn+ssh"; "sftp"; "nfs"; "git"; "git+ssh";
   "ws"; "wss"].

Definition uses_params : list string :=
  [""; "ftp"; "hdl"; "prospero"; "http"; "imap";
   "https"; "shttp"; "rtsp"; "rtspu"; "sip"; "sips";
   "mms"; "sftp"; "tel"].

(** [c in scheme_chars] *)
Definition is_scheme_char (c : ascii) : bool :=
  (is_ascii_alpha c || is_ascii_digit c
   || Ascii.eqb c "+" || Ascii.eqb c "-" || Ascii.eqb c ".")%bool.

(** [c in _WHATWG_C0_CONTROL_OR_SPACE] *)
Definition is_c0_control_or_space (c : ascii) : bool := N.leb (ord c) 32.

(** The loop over [_UNSAFE_URL_BYTES_TO_REMOVE]. *)
Definition remove_unsafe_bytes (url : string) : string :=
  remove_char "010" (remove_char "013" (remove_char "009" url)).

Record SplitResult : Type := mkSplit {
  s_scheme : string;
  s_netloc : string;
  s_path : string;
  s_query : string;
  s_fragment : string
}.

Record ParseResult : Type := mkParse {
  scheme : string;
  netloc : string;
  path : string;
  params : string;
  query : string;
  fragment : string
}.

(** [_splitnetloc(url, 2)] for a [url] that starts with two slashes. *)
Definition _splitnetloc (url : string) : string * string :=
  span_until (fun c => Ascii.eqb c "/" || Ascii.eqb c "?" || Ascii.eqb c "#")%bool
             (drop 2 url).

(** [re.match(r"\Av[a-fA-F0-9]+\..+\Z", hostname)] for a [hostname] that
    starts with [v]; the dot of the pattern matches no line feed. *)
Definition is_ipvfuture (hostname : string) : bool :=
  match split_once "." (drop 1 hostname) with
  | Some (digits, rest) =>
      (negb (is_empty digits) && all_chars IpAddress.is_hex_digit digits
       && negb (is_empty rest) && negb (has_char "010" rest))%bool
  | None => false
  end.

(** [ipaddress.ip_address(address)], as far as [_check_bracketed_host]
    looks at it: [true] for an [IPv4Address], [false] for an
    [IPv6Address]. *)
Definition ip_address (address : string) : result bool :=
  if IpAddress.ipv4_ok address then Ok true
  else if IpAddress.ipv6_ok address then Ok false
  else Raised (ValueError
                 (repr address
                  +:+ " does not appear to be an IPv4 or IPv6 address")).

(** [_check_bracketed_host(hostname)] *)
Definition _check_bracketed_host (hostname : string) : result unit :=
  if startswith "v" hostname then
    if is_ipvfuture hostname then Ok tt
    else Raised (ValueError "IPvFuture address is invalid")
  else
    is_v4 ← ip_address hostname;
    if is_v4 : bool
    then Raised (ValueError "An IPv4 address cannot be in brackets")
    else Ok tt.

(** [_check_bracketed_netloc(netloc)] *)
Definition _check_bracketed_netloc (netloc : string) : result unit :=
  let hostname_and_port :=
    match rsplit_once "@" netloc with
    | Some (_, after) => after
    | None => netloc
    end in
  match split_once "[" hostname_and_port with
  | Some (before_bracket, bracketed) =>
      if negb (is_empty before_bracket)
      then Raised (ValueError "Invalid IPv6 URL")
      else
        let '(hostname, port) :=
          match split_once "]" bracketed with
          | Some (h, p) => (h, p)
          | None => (bracketed, "")
          end in
        if (negb (is_empty port) && negb (startswith ":" port))%bool
        then Raised (ValueError "Invalid IPv6 URL")
        else _check_bracketed_host hostname
  | None =>
      let hostname :=
        match split_once ":" hostname_and_port with
        | Some (h, _) => h
        | None => hostname_and_port
        end in
      _check_bracketed_host hostname
  end.

(** [_checknetloc(netloc)]: a netloc whose NFKC form differs from it and
    holds one of [/?#@:] is refused. *)
Definition _checknetloc (netloc : string) : result unit :=
  if (is_empty netloc || isascii netloc)%bool then Ok tt
  else
    let n :=
      remove_char "?"
        (remove_char "#" (remove_char ":" (remove_char "@" netloc))) in
    let netloc2 := nfkc n in
    if bool_decide (code_points n = netloc2) then Ok tt
    else if existsb (fun c => existsb (N.eqb c) netloc2)
              [47; 63; 35; 64; 58]%N
    then Raised (ValueError
                   ("netloc '" +:+ netloc
                    +:+ "' contains invalid characters under NFKC normalization"))
    else Ok tt.

(** [urlsplit(url)] with the default [scheme=''] and
    [allow_fragments=True]. *)
Definition urlsplit (url : string) : result SplitResult :=
  let url := lstrip_by is_c0_control_or_space url in
  let url := remove_unsafe_bytes url in
  let '(scheme, url) :=
    match split_once ":" url with
    | Some (pre, post) =>
        match pre with
        | String c0 _ =>
            if (is_ascii_alpha c0 && all_chars is_scheme_char pre)%bool
            then (lower pre, post)
            else ("", url)
        | EmptyString => ("", url)
        end
    | None => ("", url)
    end in
  '(netloc, url) ←
    (if String.eqb (take 2 url) "//" then
       let '(netloc, rest) := _splitnetloc url in
       let lb := has_char "[" netloc in
       let rb := has_char "]" netloc in
       if ((lb && negb rb) || (rb && negb lb))%bool
       then Raised (ValueError "Invalid IPv6 URL")
       else if (lb && rb)%bool then
              _ ← _check_bracketed_netloc netloc;
              Ok (netloc, rest)
            else Ok (netloc, rest)
     else Ok ("", url));
  let '(url, fragment) :=
    match split_once "#" url with
    | Some (u, f) => (u, f)
    | None => (url, "")
    end in
  let '(url, query) :=
    match split_once "?" url with
    | Some (u, q) => (u, q)
    | None => (url, "")
    end in
  _ ← _checknetloc netloc;
  Ok (mkSplit scheme netloc url query fragment).

(** [_splitparams(url)] *)
Definition _splitparams (url : string) : string * string :=
  match rsplit_once "/" url with
  | Some (before, after) =>
      (* url.find(';', url.rfind('/')) *)
      match split_once ";" after with
      | Some (a1, a2) => (before +:+ "/" +:+ a1, a2)
      | None => (url, "")
      end
  | None =>
      match split_once ";" url with
      | Some (a1, a2) => (a1, a2)
      | None => (take (String.length url - 1) url, url)
      end
  end.

(** [urlparse(url)] *)
Definition urlparse (url : string) : result ParseResult :=
  r ← urlsplit url;
  let '(url, params) :=
    if (mem (s_scheme r) uses_params && has_char ";" (s_path r))%bool
    then _splitparams (s_path r)
    else (s_path r, "") in
  Ok (mkParse (s_scheme r) (s_netloc r) url params (s_query r) (s_fragment r)).

(** [urlunsplit((scheme, netloc, url, query, fragment))] *)
Definition urlunsplit (scheme netloc url query fragment : string) : string :=
  let url :=
    if (negb (is_empty netloc)
        || (negb (is_empty scheme) && mem scheme uses_netloc
            && negb (String.eqb (take 2 url) "//")))%bool
    then
      let url :=
        if (negb (is_empty url) && negb (String.eqb (take 1 url) "/"))%bool
        then "/" +:+ url else url in
      "//" +:+ netloc +:+ url
    else url in
  let url := if negb (is_empty scheme) then scheme +:+ ":" +:+ url else url in
  let url := if negb (is_empty query) then url +:+ "?" +:+ query else url in
  let url :=
    if negb (is_empty fragment) then url +:+ "#" +:+ fragment else url in
  url.

(** [urlunparse((scheme, netloc, url, params, query, fragment))] *)
Definition urlunparse (scheme netloc url params query fragment : string)
  : string :=
  let url := if negb (is_empty params) then url +:+ ";" +:+ params else url in
  urlunsplit scheme netloc url query fragment.

(** [urldefrag(url)[0]] *)
Definition urldefrag (url : string) : result string :=
  if has_char "#" url then
    r ← urlparse url;
    Ok (urlunparse (scheme r) (netloc r) (path r) (params r) (query r) "")
  else Ok url.

End UrlParse.

(** ** url_utils.py *)

Module UrlUtils.
Import PyStr UrlParse.

Definition _SKIP_EXTENSIONS : list string :=
  [".pdf"; ".png"; ".jpg"; ".jpeg"; ".gif"; ".webp"; ".svg"; ".ico";
   ".zip"; ".rar"; ".7z"; ".gz"; ".tgz"; ".mp4"; ".mov"; ".avi";
   ".mp3"; ".wav"; ".woff"; ".woff2"; ".ttf"; ".eot"].

Definition last_two (parts : list string) : list string :=
  skipn (length parts - 2) parts.

Definition root_domain_from_host (host : string) : string :=
  let host := strip_by (Ascii.eqb ".") (lower host) in
  let parts := filter (fun p => negb (is_empty p)) (split "." host) in
  if Nat.leb 2 (length parts) then join "." (last_two parts) else host.

Definition normalize_url (url : string)
    (prefer_https drop_fragment strip_trailing_slash : bool) : result string :=
  parsed ← urlparse (strip url);
  let scheme := if is_empty (scheme parsed) then "https" else scheme parsed in
  let scheme :=
    if (prefer_https && mem scheme ["http"; "https"])%bool
    then "https" else scheme in
  let netloc := lower (netloc parsed) in
  let path := if is_empty (path parsed) then "/" else path parsed in
  let path :=
    if (strip_trailing_slash && negb (String.eqb path "/")
        && endswith "/" path)%bool
    then rstrip_by (Ascii.eqb "/") path else path in
  let fragment := if drop_fragment then "" else fragment parsed in
  Ok (urlunparse scheme netloc path (params parsed) (query parsed) fragment).

Definition should_skip_by_extension (url : string) : result bool :=
  parsed ← urlparse url;
  let path := lower (path parsed) in
  Ok (existsb (fun ext => endswith ext path) _SKIP_EXTENSIONS).

Definition is_same_root_domain (host root_domain : string) : bool :=
  let host := lower host in
  let root_domain := lower root_domain in
  (negb (is_empty host) && negb (is_empty root_domain)
   && (String.eqb host root_domain
       || endswith ("." +:+ root_domain) host))%bool.

End UrlUtils.

(** ** sitemap.py *)

Module Sitemap.
Import PyStr UrlParse UrlUtils.

(** What [ET.fromstring] makes of a response body: a parse error, or a root
    element with the texts of the elements selected by
    [.//{*}url/{*}loc] and by [.//{*}sitemap/{*}loc], in document order (an
    element without text has the empty text). *)
Inductive xml_doc : Type :=
| Malformed
| Root (tag : string) (url_locs sitemap_locs : list string).

(** The web as the sitemap reader sees it: the document behind each URL
    that answers with a 2xx status; any other URL makes [_fetch_xml]
    raise. *)
Abbreviation web := (gmap string xml_doc).

Definition _fetch_xml (w : web) (url : string) : result xml_doc :=
  match w !! url with
  | Some doc => Ok doc
  | None => Raised (FetchError url)
  end.

Definition loc_texts (locs : list string) : list string :=
  map strip (filter (fun t => negb (is_empty t)) locs).

Definition _parse_sitemap_xml (doc : xml_doc) : list string :=
  match doc with
  | Malformed => []
  | Root tag url_locs sitemap_locs =>
      let tag := lower tag in
      if endswith "urlset" tag then loc_texts url_locs
      else if endswith "sitemapindex" tag then loc_texts sitemap_locs
      else []
  end.

(** The loop [for c in candidates] shared by [_expand_sitemap_index] and
    [_collect_from_sitemap_source]; [expand] is the recursive call and the
    set of seen sitemap URLs is threaded through. *)
Fixpoint expand_candidates
    (expand : string -> gset string -> fueled (list string * gset string))
    (candidates : list string) (seen : gset string) (urls : list string)
  : fueled (list string * gset string) :=
  match candidates with
  | [] => Some (Ok (urls, seen))
  | c :: rest =>
      if endswith ".xml" c then
        match expand c seen with
        | Some (Ok (sub, seen')) =>
            expand_candidates expand rest seen' (urls ++ sub)%list
        | Some (Raised e) => Some (Raised e)
        | None => None
        end
      else expand_candidates expand rest seen (urls ++ [c])%list
  end.

Fixpoint _expand_sitemap_index (fuel : nat) (w : web) (url : string)
    (seen : gset string) : fueled (list string * gset string) :=
  match fuel with
  | O => None
  | S fuel' =>
      if decide (url ∈ seen) then Some (Ok ([], seen))
      else
        let seen := {[url]} ∪ seen in
        match _fetch_xml w url with
        | Raised e => Some (Raised e)
        | Ok xml_text =>
            let candidates := _parse_sitemap_xml xml_text in
            expand_candidates (_expand_sitemap_index fuel' w) candidates seen []
        end
  end.

(** [_collect_from_sitemap_source(src, config, session, seen)] with
    [src.url = url]. *)
Definition _collect_from_sitemap_source (fuel : nat) (w : web) (url : string)
    (seen : gset string) : fueled (list string * gset string) :=
  match _fetch_xml w url with
  | Raised _ => Some (Ok ([], seen))
  | Ok xml_text =>
      let urls := _parse_sitemap_xml xml_text in
      if existsb (endswith ".xml") urls then
        expand_candidates (_expand_sitemap_index fuel w) urls seen []
      else Some (Ok (urls, seen))
  end.

(** [u] is a page URL listed by the sitemap behind [s]: a candidate of that
    document that is not itself taken for a sitemap. *)
Definition leaf_of (w : web) (s u : string) : Prop :=
  exists doc, w !! s = Some doc /\ u ∈ _parse_sitemap_xml doc
              /\ endswith ".xml" u = false.

(** [c] is a child sitemap of the sitemap behind [s]: a candidate of that
    document that is taken for a sitemap. *)
Definition child_of (w : web) (s c : string) : Prop :=
  exists doc, w !! s = Some doc /\ c ∈ _parse_sitemap_xml doc
              /\ endswith ".xml" c = true.

(** The sitemaps an expansion of [url] gets to: [url] itself and, from
    child to child, every sitemap that was not seen before the expansion
    began. *)
Inductive reached (w : web) (seen : gset string) (url : string)
  : string -> Prop :=
| reached_start : url ∉ seen -> reached w seen url url
| reached_child (s c : string) :
    reached w seen url s -> child_of w s c -> c ∉ seen ->
    reached w seen url c.

(** What an expansion of [url] that returns has done to the set of seen
    sitemaps: it holds [url], everything new in it was reached from [url],
    and the children of everything new in it are in it. *)
Definition marks (w : web) (seen : gset string) (url : string)
    (seen' : gset string) : Prop :=
  seen ⊆ seen' /\ url ∈ seen' /\
  (forall s, s ∈ seen' -> s ∉ seen -> reached w seen url s) /\
  (forall s c, s ∈ seen' -> s ∉ seen -> child_of w s c -> c ∈ seen').

(** What a finished run of the candidate loop has produced: the URLs it was
    given, the page URLs among its candidates, and the page URLs of every
    sitemap it marked as seen. *)
Definition loop_spec (w : web) (candidates : list string) (seen : gset string)
    (urls0 : list string) (r : result (list string * gset string)) : Prop :=
  forall urls seen', r = Ok (urls, seen') ->
    seen ⊆ seen' /\
    forall u, u ∈ urls <->
      u ∈ urls0
      \/ (u ∈ candidates /\ endswith ".xml" u = false)
      \/ exists s, s ∈ seen' /\ (s ∉ seen) /\ leaf_of w s u.

(** What a finished expansion of [url] has produced. *)
Definition expand_spec (w : web) (url : string) (seen : gset string)
    (r : result (list string * gset string)) : Prop :=
  (url ∈ seen -> r = Ok ([], seen)) /\
  forall urls seen', r = Ok (urls, seen') ->
    seen ⊆ seen' /\
    forall u, u ∈ urls <->
      exists s, s ∈ seen' /\ (s ∉ seen) /\ leaf_of w s u.

(** [_is_allowed_domain(config, url)] with
    [config.site.allowed_domains = allowed_domains]. *)
Definition _is_allowed_domain (allowed_domains : list string) (url : string)
  : result bool :=
  u ← urlparse url;
  let host := lower (netloc u) in
  if is_empty host then Ok false else Ok (mem host allowed_domains).

(** The last loop of [collect_urls_from_sources]: same-site filter,
    canonicalisation, de-duplication and the global [max_urls] cut. *)
Fixpoint dedup_loop (allowed_domains : list string) (global_max : Z)
    (collected : list string) (unique : list string)
    (normalized_seen : gset string) : result (list string) :=
  match collected with
  | [] => Ok unique
  | u :: rest =>
      allowed ← _is_allowed_domain allowed_domains u;
      if negb allowed
      then dedup_loop allowed_domains global_max rest unique normalized_seen
      else
        normalized ← normalize_url u true true true;
        let '(unique, normalized_seen) :=
          if decide (normalized ∈ normalized_seen)
          then (unique, normalized_seen)
          else ((unique ++ [normalized])%list,
                {[normalized]} ∪ normalized_seen) in
        if Z.leb global_max (Z.of_nat (length unique)) then Ok unique
        else dedup_loop allowed_domains global_max rest unique normalized_seen
  end.

Definition dedup_and_truncate (allowed_domains : list string)
    (global_max : Z) (collected : list string) : result (list string) :=
  dedup_loop allowed_domains global_max collected [] ∅.

(** [n] is the canonical form of a collected URL that passes the same-site
    filter. *)
Definition canonical_of (allowed_domains : list string)
    (collected : list string) (n : string) : Prop :=
  exists u, u ∈ collected /\
            _is_allowed_domain allowed_domains u = Ok true /\
            normalize_url u true true true = Ok n.

(** [s] is a sitemap URL that some document of the web refers to. *)
Definition listed_sitemap (w : web) (s : string) : Prop :=
  exists parent doc, w !! parent = Some doc /\ s ∈ _parse_sitemap_xml doc
                     /\ endswith ".xml" s = true.

(** The canonical forms of the collected URLs that pass the same-site
    filter, in the order of the URLs. *)
Definition canonical_list (allowed_domains : list string)
    (collected : list string) : list string :=
  flat_map (fun u =>
              match _is_allowed_domain allowed_domains u,
                    normalize_url u true true true with
              | Ok true, Ok n => [n]
              | _, _ => []
              end) collected.

(** [l] after [acc], without the elements already met. *)
Definition first_occurrences_after (acc l : list string) : list string :=
  fold_left (fun acc n => if decide (n ∈ acc) then acc else (acc ++ [n])%list)
            l acc.

(** [l] without the repetitions of its elements. *)
Definition first_occurrences (l : list string) : list string :=
  first_occurrences_after [] l.

(** The list [sitemaps] of [_discover_sitemaps_from_robots]: the values of
    the [Sitemap:] lines of a [robots.txt]. *)
Definition declared_sitemaps (text : string) : list string :=
  flat_map
    (fun line =>
       let line := strip line in
       if is_empty line then []
       else if startswith "sitemap:" (lower line) then
         match split_once ":" line with
         | Some (_, after) =>
             let sm := strip after in
             if is_empty sm then [] else [sm]
         | None => []
         end
       else [])
    (splitlines text).

(** The loop "Normalize & de-dup". *)
Fixpoint normalize_and_dedup (sitemaps out : list string) (seen : gset string)
  : result (list string) :=
  match sitemaps with
  | [] => Ok out
  | sm :: rest =>
      n ← normalize_url sm true true false;
      if decide (n ∈ seen) then normalize_and_dedup rest out seen
      else normalize_and_dedup rest (out ++ [n])%list ({[n]} ∪ seen)
  end.

(** [_discover_sitemaps_from_robots(base_url, session)]; [robots] gives the
    text of the response to a request that is answered with status 200, and
    [None] for one that raises or is answered otherwise. *)
Definition _discover_sitemaps_from_robots (robots : string -> option string)
    (base_url : string) : result (list string) :=
  parsed ← urlparse base_url;
  if (is_empty (scheme parsed) || is_empty (netloc parsed))%bool then Ok []
  else
    let robots_url :=
      scheme parsed +:+ "://" +:+ netloc parsed +:+ "/robots.txt" in
    match robots robots_url with
    | None => Ok []
    | Some text => normalize_and_dedup (declared_sitemaps text) [] ∅
    end.

End Sitemap.

(** ** crawler.py *)

Module Crawler.
Import PyStr UrlParse UrlUtils.

(** A response of [session.get]: status, the headers the crawler reads, the
    reason phrase and URL that [raise_for_status] prints, and what
    [_LinkExtractor] finds in the body: [None] when [parser.feed] raises,
    else [urljoin(current, href)] for every [href] of [parser.links], in the
    order the loop visits them.

    [backoff_error] is the exception, if any, that the back-off for this
    response raises inside the [try]: [time.sleep(sleep_s)] refuses a delay
    the clock cannot hold, with [OverflowError] from [2**63] nanoseconds on
    and [OSError] just below, which a header [Retry-After: 1e30] asks for,
    and [2.0 * (2**attempt)] is no [float] from attempt 1024 on. *)
Record response : Type := mkResponse {
  status_code : Z;
  retry_after : option string;
  content_type : option string;
  reason : string;
  resp_url : string;
  page_links : option (list string);
  backoff_error : option exn
}.

(** What one call [session.get(current, timeout=20)] does. *)
Inductive http_outcome : Type :=
| Responds (r : response)
| TransportError (msg : string).

(** The site: the outcome of the [attempt]-th request for a URL.  A URL is
    fetched by one retry loop at most, since it is marked visited first. *)
Definition site : Type := string -> nat -> http_outcome.

Inductive backoff : Type :=
| Backoff429 (attempt : nat) (retry_after : option string)
    (* sleep max(2.0 * 2**attempt, float(retry_after)) *)
| Backoff5xx (attempt : nat)      (* sleep 1.5 * 2**attempt *)
| BackoffError (attempt : nat).   (* sleep 1.0 * 2**attempt *)

(** What the crawler does to the outside world, in order. *)
Inductive event : Type :=
| PoliteSleep (url : string)
| Get (url : string) (attempt : nat)
| BackoffSleep (url : string) (b : backoff).

Definition is_get (e : event) : bool :=
  match e with Get _ _ => true | _ => false end.

Definition is_backoff (e : event) : bool :=
  match e with BackoffSleep _ _ => true | _ => false end.

Definition is_polite_sleep (e : event) : bool :=
  match e with PoliteSleep _ => true | _ => false end.

(** The URL an event is about. *)
Definition event_url (e : event) : string :=
  match e with
  | PoliteSleep url | Get url _ | BackoffSleep url _ => url
  end.

Record FailedURLRecord : Type := mkFailed {
  f_url : string;
  f_error : string;
  f_status_code : option Z
}.

(** A frontier entry [(-priority, counter, url, depth)]. *)
Definition entry : Type := Z * Z * string * Z.

Definition entry_url (e : entry) : string := snd (fst e).

Definition entry_lt (a b : entry) : bool :=
  let '(pa, ca, _, _) := a in
  let '(pb, cb, _, _) := b in
  (Z.ltb pa pb || (Z.eqb pa pb && Z.ltb ca cb))%bool.

(** The heap as the sorted list of its entries: counters are unique, so the
    first two components order the entries totally and [heappop] returns the
    head. *)
Fixpoint heappush (q : list entry) (e : entry) : list entry :=
  match q with
  | [] => [e]
  | x :: r => if entry_lt e x then e :: q else x :: heappush r e
  end.

Definition _is_allowed_domain (url : string) (allowed_hosts : gset string)
  : result bool :=
  u ← urlparse url;
  let host := lower (netloc u) in
  Ok (negb (is_empty host) && bool_decide (host ∈ allowed_hosts))%bool.

Definition high_priority : list string :=
  ["/products"; "/pricing"; "/docs"; "/documentation"; "/features";
   "/solutions"; "/api"; "/guides"; "/blog"].
Definition medium_priority : list string :=
  ["/resources"; "/case-studies"; "/about"; "/contact"; "/help"; "/faq";
   "/integrations"].
Definition low_priority : list string :=
  ["/careers"; "/jobs"; "/press"; "/news"; "/legal"; "/privacy"; "/terms";
   "/cookies"].

Definition _get_url_priority (url : string) : result Z :=
  u ← urlparse url;
  let path := lower (path u) in
  if existsb (fun hp => contains hp path) high_priority then Ok 3
  else if existsb (fun mp => contains mp path) medium_priority then Ok 2
  else if existsb (fun lp => contains lp path) low_priority then Ok 0
  else Ok 1.

(** An attribute as [HTMLParser] hands it over: its name and its value,
    [None] for an attribute without a value. *)
Definition attr : Type := string * option string.

(** One turn of the loop [for k, v in attrs] on [(href,
    has_classname_attr)]. *)
Definition scan_attr (acc : option string * bool) (a : attr)
  : option string * bool :=
  let '(href, has_classname_attr) := acc in
  let '(k, v) := a in
  if String.eqb (lower k) "href" then (v, has_classname_attr)
  else
    match v with
    | Some v =>
        if (String.eqb (lower k) "class" && negb (is_empty v))%bool then
          let class_val := lower v in
          if (contains "classname" class_val || contains "react" class_val)%bool
          then (href, true)
          else (href, has_classname_attr)
        else (href, has_classname_attr)
    | None => (href, has_classname_attr)
    end.

(** [_LinkExtractor.handle_starttag(tag, attrs)] on [self.links]. *)
Definition handle_starttag (tag : string) (attrs : list attr)
    (links : gset string) : gset string :=
  if negb (String.eqb (lower tag) "a") then links
  else
    let '(href, has_classname_attr) := fold_left scan_attr attrs (None, false) in
    match href with
    | None => links
    | Some href =>
        if is_empty href then links
        else
          let href_l := lower (strip href) in
          if startswith_any ["javascript:"; "mailto:"; "tel:"; "#"] href_l
          then links
          else if (contains "classname" href_l || has_classname_attr)%bool
          then links
          else if (contains "/className/" href_l
                   || contains "/classname/" href_l)%bool
          then links
          else if (contains "/page/" href_l
                   && (contains "classname" href_l
                       || contains "className" href_l))%bool
          then links
          else if (contains "@" href_l
                   && negb (startswith_any ["http://"; "https://"] href_l))%bool
          then links
          else if (negb (is_empty href_l)
                   && negb (startswith_any ["http://"; "https://"; "/"; "?"]
                              href_l))%bool
          then
            if negb (startswith_any ["./"; "../"] href_l) then links
            else {[href]} ∪ links
          else {[href]} ∪ links
    end.

(** The value of the last [href] attribute of a tag, if it has one. *)
Definition last_href (attrs : list attr) : option string :=
  match last (filter (fun a : attr => String.eqb (lower (fst a)) "href") attrs)
  with
  | Some (_, v) => v
  | None => None
  end.

(** A [class] attribute whose value mentions [classname] or [react]. *)
Definition noisy_class (a : attr) : bool :=
  (String.eqb (lower (fst a)) "class"
   && match snd a with
      | Some v =>
          negb (is_empty v)
          && (contains "classname" (lower v) || contains "react" (lower v))
      | None => false
      end)%bool.

(** The forms of [href] the extractor keeps. *)
Definition navigable_prefixes : list string :=
  ["http://"; "https://"; "/"; "?"; "./"; "../"].

(** [resp.raise_for_status()]: the error it raises, if any. *)
Definition raise_for_status (r : response) : option exn :=
  if (Z.leb 400 (status_code r) && Z.ltb (status_code r) 500)%bool then
    Some (HTTPError (pretty (status_code r) +:+ " Client Error: "
                     +:+ reason r +:+ " for url: " +:+ resp_url r))
  else if (Z.leb 500 (status_code r) && Z.ltb (status_code r) 600)%bool then
    Some (HTTPError (pretty (status_code r) +:+ " Server Error: "
                     +:+ reason r +:+ " for url: " +:+ resp_url r))
  else None.

(** [str(e)] *)
Definition exn_text (e : exn) : string :=
  match e with
  | ValueError m | OverflowError m | OSError m | HTTPError m
  | FetchError m => m
  end.

(** [str(last_err)] *)
Definition str_last_err (last_err : option exn) : string :=
  match last_err with
  | Some e => exn_text e
  | None => "None"
  end.

Section Crawl.

Variable fetch : site.
Variable max_urls : Z.
Variable max_depth : Z.
Variable root_domain : option string.
Variable allow_same_root_subdomains : bool.
(** [polite and request_delay_s > 0], for a [request_delay_s] that
    [time.sleep] accepts: the caller leaves its default, 0.25. *)
Variable polite_delay : bool.
Variable max_retries : Z.

(** The loop [for attempt in range(max_retries + 1)] for the URL [current],
    from the attempts still to make; returns [resp], [last_err] and the
    events of the loop.  A back-off that raises inside the [try] sends the
    attempt to the [except] branch and is no event.  The sleep of the
    [except] branch is outside the [try]; its delay, [1.0 * (2**attempt)],
    is one that [time.sleep] accepts up to attempt 33, which covers every
    [max_retries] up to 34. *)
Fixpoint retry_loop (current : string) (attempts : list nat)
    (resp : option response) (last_err : option exn) (tr : list event)
  : option response * option exn * list event :=
  match attempts with
  | [] => (resp, last_err, tr)
  | attempt :: rest =>
      let tr := if polite_delay then (tr ++ [PoliteSleep current])%list
                else tr in
      let tr := (tr ++ [Get current attempt])%list in
      let on_error (resp : option response) (e : exn) :=
        if Z.leb max_retries (Z.of_nat attempt) then (None, Some e, tr)
        else retry_loop current rest resp (Some e)
               (tr ++ [BackoffSleep current (BackoffError attempt)])%list in
      match fetch current attempt with
      | TransportError msg => on_error resp (FetchError msg)
      | Responds r =>
          if Z.eqb (status_code r) 404 then (None, last_err, tr)
          else if Z.eqb (status_code r) 429 then
            match backoff_error r with
            | Some e => on_error (Some r) e
            | None =>
                retry_loop current rest (Some r) last_err
                  (tr ++ [BackoffSleep current
                            (Backoff429 attempt (retry_after r))])%list
            end
          else if existsb (Z.eqb (status_code r)) [500; 502; 503; 504; 520]
          then
            match backoff_error r with
            | Some e => on_error (Some r) e
            | None =>
                retry_loop current rest (Some r) last_err
                  (tr ++ [BackoffSleep current (Backoff5xx attempt)])%list
            end
          else
            match raise_for_status r with
            | Some e => on_error (Some r) e
            | None => (Some r, last_err, tr)
            end
      end
  end.

Definition fetch_with_retry (current : string)
  : option response * option exn * list event :=
  retry_loop current (seq 0 (Z.to_nat (max_retries + 1))) None None [].

(** The status code guessed from the text of the last error. *)
Definition guess_status_code (error_msg : string) : option Z :=
  if contains "404" error_msg then Some 404
  else if contains "403" error_msg then Some 403
  else if contains "500" error_msg then Some 500
  else if contains "502" error_msg then Some 502
  else if contains "503" error_msg then Some 503
  else None.

Record state : Type := mkState {
  queue : list entry;
  counter : Z;
  visited : gset string;
  results : list string;
  dynamic_allowed_hosts : gset string;
  failed_urls : option (list FailedURLRecord);
  trace : list event
}.

Definition same_root (host : string) : bool :=
  (allow_same_root_subdomains
   && match root_domain with
      | Some rd => negb (is_empty rd) && is_same_root_domain host rd
      | None => false
      end)%bool.

(** The loop [for href in parser.links] on a page at [depth]. *)
Fixpoint enqueue_links (depth : Z) (links : list string) (st : state)
  : result state :=
  match links with
  | [] => Ok st
  | joined :: rest =>
      defragged ← urldefrag joined;
      abs_url ← normalize_url defragged true true true;
      skip ← should_skip_by_extension abs_url;
      if skip : bool then enqueue_links depth rest st
      else
        u ← urlparse abs_url;
        let host := lower (netloc u) in
        let hosts :=
          if same_root host then {[host]} ∪ dynamic_allowed_hosts st
          else dynamic_allowed_hosts st in
        let st := mkState (queue st) (counter st) (visited st) (results st)
                    hosts (failed_urls st) (trace st) in
        allowed ← _is_allowed_domain abs_url hosts;
        if (negb (bool_decide (abs_url ∈ visited st)) && (allowed : bool))%bool then
          if Z.ltb (Z.of_nat (length (results st))) max_urls then
            priority ← _get_url_priority abs_url;
            enqueue_links depth rest
              (mkState (heappush (queue st)
                          (- priority, counter st, abs_url, depth + 1))
                 (counter st + 1) (visited st) (results st)
                 (dynamic_allowed_hosts st) (failed_urls st) (trace st))
          else enqueue_links depth rest st
        else enqueue_links depth rest st
  end.

(** One turn of the [while] loop on the entry just popped; the queue of
    [st] is what is left of the heap. *)
Definition visit (current : string) (depth : Z) (st : state) : result state :=
  if bool_decide (current ∈ visited st) then Ok st
  else
    let st := mkState (queue st) (counter st) ({[current]} ∪ visited st)
                (results st) (dynamic_allowed_hosts st) (failed_urls st)
                (trace st) in
    current_parsed ← urlparse current;
    let current_host := lower (netloc current_parsed) in
    allowed ← _is_allowed_domain current (dynamic_allowed_hosts st);
    let admitted :=
      if allowed : bool then Some (dynamic_allowed_hosts st)
      else if same_root current_host
           then Some ({[current_host]} ∪ dynamic_allowed_hosts st)
           else None in
    match admitted with
    | None => Ok st
    | Some hosts =>
        let st := mkState (queue st) (counter st) (visited st) (results st)
                    hosts (failed_urls st) (trace st) in
        skip ← should_skip_by_extension current;
        if skip : bool then Ok st
        else
          let '(resp, last_err, evs) := fetch_with_retry current in
          let st := mkState (queue st) (counter st) (visited st) (results st)
                      (dynamic_allowed_hosts st) (failed_urls st)
                      (trace st ++ evs)%list in
          match resp with
          | None =>
              let error_msg := str_last_err last_err in
              let failed :=
                match failed_urls st with
                | Some l =>
                    Some (l ++ [mkFailed current error_msg
                                  (guess_status_code error_msg)])%list
                | None => None
                end in
              Ok (mkState (queue st) (counter st) (visited st) (results st)
                    (dynamic_allowed_hosts st) failed (trace st))
          | Some resp =>
              let ct := lower (default "" (content_type resp)) in
              if (contains "text/html" ct
                  || contains "application/xhtml+xml" ct
                  || is_empty ct)%bool
              then
                let st := mkState (queue st) (counter st) (visited st)
                            (results st ++ [current])%list
                            (dynamic_allowed_hosts st) (failed_urls st)
                            (trace st) in
                if Z.leb max_depth depth then Ok st
                else match page_links resp with
                     | None => Ok st
                     | Some links => enqueue_links depth links st
                     end
              else Ok st
          end
    end.

(** The loop [while queue and len(results) < max_urls], for at most [fuel]
    turns; [None] when turns are left to make after [fuel] of them. *)
Fixpoint crawl_loop (fuel : nat) (st : state) : fueled state :=
  match queue st with
  | [] => Some (Ok st)
  | (_, _, current, depth) :: q =>
      if negb (Z.ltb (Z.of_nat (length (results st))) max_urls)
      then Some (Ok st)
      else
        match fuel with
        | O => None
        | S fuel' =>
            match visit current depth
                    (mkState q (counter st) (visited st) (results st)
                       (dynamic_allowed_hosts st) (failed_urls st)
                       (trace st)) with
            | Ok st' => crawl_loop fuel' st'
            | Raised e => Some (Raised e)
            end
        end
  end.

(** [crawl_site(start_url, allowed_hosts=..., failed_urls=...)]: the state
    when the loop ends; the function returns its [results]. *)
Definition crawl_site (fuel : nat) (start_url : string)
    (allowed_hosts : list string)
    (failed_urls : option (list FailedURLRecord)) : fueled state :=
  match
    (defragged ← urldefrag start_url;
     start_url ← normalize_url defragged true true true;
     start_priority ← _get_url_priority start_url;
     Ok (start_url, start_priority))
  with
  | Raised e => Some (Raised e)
  | Ok (start_url, start_priority) =>
      crawl_loop fuel
        (mkState (heappush [] (- start_priority, 0, start_url, 0)) 1 ∅ []
           (list_to_set
              (map lower (filter (fun h => negb (is_empty h)) allowed_hosts)))
           failed_urls [])
  end.

End Crawl.

(** What holds of every state the loop of [crawl_site] reaches: no result
    twice, every result visited, no more results than [max_urls], and every
    request, sleep or back-off was for a visited URL on an allowed host that
    is not a binary asset. *)
Definition crawl_invariant (max_urls : Z) (st : state) : Prop :=
  NoDup (results st) /\
  (forall u, u ∈ results st -> u ∈ visited st) /\
  Z.of_nat (length (results st)) <= Z.max max_urls 0 /\
  (forall e, e ∈ trace st ->
     event_url e ∈ visited st /\
     _is_allowed_domain (event_url e) (dynamic_allowed_hosts st) = Ok true /\
     should_skip_by_extension (event_url e) = Ok false).

(** The exception, if any, that sends one attempt of the retry loop to its
    [except] branch: what [session.get] raises, what the back-off for a 429
    or a retried 5xx raises, or what [raise_for_status] raises for another
    status; none for a 404, which leaves the loop. *)
Definition attempt_exception (o : http_outcome) : option exn :=
  match o with
  | TransportError msg => Some (FetchError msg)
  | Responds r =>
      if Z.eqb (status_code r) 404 then None
      else if (Z.eqb (status_code r) 429
               || existsb (Z.eqb (status_code r)) [500; 502; 503; 504; 520])%bool
      then backoff_error r
      else raise_for_status r
  end.

(** No page of the site carries more than [B] links. *)
Definition out_degree_at_most (fetch : site) (B : nat) : Prop :=
  forall url attempt r links,
    fetch url attempt = Responds r -> page_links r = Some links ->
    (length links <= B)%nat.

(** A bound on the turns of the crawl loop that an entry [k] levels above
    [max_depth] can cause: its own, and those of the at most [B] entries it
    enqueues one level deeper. *)
Fixpoint turns (B k : nat) : nat :=
  match k with
  | O => 1
  | S k' => 1 + B * turns B k'
  end.

Definition entry_depth (e : entry) : Z := snd e.

Definition queue_turns (B : nat) (max_depth : Z) (q : list entry) : nat :=
  list_sum (map (fun e => turns B (Z.to_nat (max_depth - entry_depth e))) q).

(** A response that makes the crawler keep the page: fetched at the first
    attempt with a status below 400 and an HTML content type, or none. *)
Definition answers_with_page (o : http_outcome) : Prop :=
  match o with
  | Responds r =>
      status_code r < 400 /\
      let ct := lower (default "" (content_type r)) in
      (contains "text/html" ct || contains "application/xhtml+xml" ct
       || is_empty ct)%bool = true
  | TransportError _ => False
  end.

(** Hosts are only ever added by the same-root test. *)
Definition widened (root_domain : option string)
    (allow_same_root_subdomains : bool) (hosts hosts' : gset string) : Prop :=
  forall h, h ∈ hosts' ->
    h ∈ hosts \/ same_root root_domain allow_same_root_subdomains h = true.

End Crawler.

(** ** sitemap.py: the loop over the sources *)

Module SitemapSources.
Import PyStr UrlParse UrlUtils.

(** [SourceConfig] of config.py *)
Record SourceConfig : Type := mkSource {
  src_type : string;
  src_url : string;
  src_max_depth : Z;
  src_max_urls : Z;
  src_urls : list string
}.

Section Collect.

(** The sitemap documents and the pages of the web. *)
Variable w : gmap string Sitemap.xml_doc.
Variable fetch : Crawler.site.
(** [config.site.allowed_domains], [config.filters.max_urls], the root
    domain of the base URL, [enable_auto_subdomains] and [polite_crawl]. *)
Variable allowed_domains : list string.
Variable global_max : Z.
Variable root_domain : string.
Variable enable_auto_subdomains : bool.
Variable polite_crawl : bool.

(** The loop [for idx, src in enumerate(config.sources, 1)] of
    [collect_urls_from_sources], on [collected], [seen] and the list
    [failed_urls]; [fuel] bounds the turns of each crawl and the nesting of
    each sitemap expansion. *)
Fixpoint collect_loop (fuel : nat) (sources : list SourceConfig)
    (collected : list string) (seen : gset string)
    (failed_urls : option (list Crawler.FailedURLRecord))
  : fueled (list string * gset string * option (list Crawler.FailedURLRecord)) :=
  match sources with
  | [] => Some (Ok (collected, seen, failed_urls))
  | src :: rest =>
      if Z.leb global_max (Z.of_nat (length collected))
      then Some (Ok (collected, seen, failed_urls))
      else if String.eqb (src_type src) "sitemap" then
        match Sitemap._collect_from_sitemap_source fuel w (src_url src) seen
        with
        | Some (Ok (urls, seen)) =>
            collect_loop fuel rest (collected ++ urls)%list seen failed_urls
        | Some (Raised e) => Some (Raised e)
        | None => None
        end
      else if String.eqb (src_type src) "crawl" then
        let per_source_max :=
          if Z.eqb (src_max_urls src) 0 then global_max
          else src_max_urls src in
        let remaining_budget :=
          Z.max (global_max - Z.of_nat (length collected)) 0 in
        if Z.leb remaining_budget 0
        then collect_loop fuel rest collected seen failed_urls
        else
          let per_source_max :=
            if Z.ltb remaining_budget per_source_max then remaining_budget
            else per_source_max in
          match Crawler.crawl_site fetch per_source_max (src_max_depth src)
                  (Some root_domain) enable_auto_subdomains polite_crawl 4
                  fuel (src_url src) allowed_domains failed_urls with
          | Some (Ok st) =>
              collect_loop fuel rest
                (collected ++ Crawler.results st)%list seen
                (Crawler.failed_urls st)
          | Some (Raised e) => Some (Raised e)
          | None => None
          end
      else if String.eqb (src_type src) "static" then
        let urls :=
          match src_urls src with
          | [] => if is_empty (src_url src) then [] else [src_url src]
          | urls => urls
          end in
        collect_loop fuel rest (collected ++ urls)%list seen failed_urls
      else collect_loop fuel rest collected seen failed_urls
  end.

End Collect.

Section CollectAll.

Variable w : gmap string Sitemap.xml_doc.
Variable fetch : Crawler.site.
(** The text of [robots.txt], for a request answered with status 200. *)
Variable robots : string -> option string.
Variable base_url : string.
Variable allowed_domains : list string.
Variable global_max : Z.
Variable enable_auto_subdomains : bool.
Variable polite_crawl : bool.

Definition is_sitemap_source (src : SourceConfig) : bool :=
  String.eqb (src_type src) "sitemap".

(** The loop [for sm in discovered] of the fall-back on [robots.txt]. *)
Fixpoint fallback_loop (fuel : nat) (discovered : list string)
    (sources : list SourceConfig) (collected : list string)
    (seen : gset string) : fueled (list string * gset string) :=
  match discovered with
  | [] => Some (Ok (collected, seen))
  | sm :: rest =>
      if existsb
           (fun s =>
              (is_sitemap_source s
               && String.eqb (rstrip_by (Ascii.eqb "/") (src_url s))
                             (rstrip_by (Ascii.eqb "/") sm))%bool)
           sources
      then fallback_loop fuel rest sources collected seen
      else
        match Sitemap._collect_from_sitemap_source fuel w sm seen with
        | Some (Ok (urls, seen)) =>
            fallback_loop fuel rest sources (collected ++ urls)%list seen
        | Some (Raised e) => Some (Raised e)
        | None => None
        end
  end.

(** [collect_urls_from_sources(config, session, failed_urls=...)] on the
    sources as they are after the optional discovery of sub-domains: the
    list returned and the list [failed_urls] at the end. *)
Definition collect_urls_from_sources (fuel : nat)
    (sources : list SourceConfig)
    (failed_urls : option (list Crawler.FailedURLRecord))
  : fueled (list string * option (list Crawler.FailedURLRecord)) :=
  match sources with
  | [] => Some (Ok ([], failed_urls))
  | _ =>
      match urlparse base_url with
      | Raised e => Some (Raised e)
      | Ok parsed =>
          let primary_host := lower (netloc parsed) in
          let root_domain := root_domain_from_host primary_host in
          match collect_loop w fetch allowed_domains global_max root_domain
                  enable_auto_subdomains polite_crawl fuel sources [] ∅
                  failed_urls with
          | Some (Ok (collected, seen, failed_urls)) =>
              let has_sitemap_source := existsb is_sitemap_source sources in
              let after_fallback :=
                if (has_sitemap_source
                    && negb (existsb (fun u => negb (is_empty u)) collected))%bool
                then
                  match Sitemap._discover_sitemaps_from_robots robots base_url
                  with
                  | Ok discovered =>
                      fallback_loop fuel discovered sources collected seen
                  | Raised e => Some (Raised e)
                  end
                else Some (Ok (collected, seen)) in
              match after_fallback with
              | Some (Ok (collected, _)) =>
                  match Sitemap.dedup_and_truncate allowed_domains global_max
                          collected with
                  | Ok unique => Some (Ok (unique, failed_urls))
                  | Raised e => Some (Raised e)
                  end
              | Some (Raised e) => Some (Raised e)
              | None => None
              end
          | Some (Raised e) => Some (Raised e)
          | None => None
          end
      end
  end.

End CollectAll.

End SitemapSources.

(** ** Python's stable sort *)

Section Sorting.

Context {A K : Type}.
Variable key : A -> K.
(** [<] on keys; [list.sort] and [sorted] compare with nothing else. *)
Variable lt : K -> K -> bool.

(** Put [x] in front of the first element whose key is not below [x]'s. *)
Fixpoint insert_sorted (x : A) (l : list A) : list A :=
  match l with
  | [] => [x]
  | y :: r => if lt (key y) (key x) then y :: insert_sorted x r else x :: l
  end.

(** [sorted(l, key=key)]: the sort is stable, so its result is the one of
    insertion sort, which keeps elements with equal keys in their order. *)
Fixpoint sorted (l : list A) : list A :=
  match l with
  | [] => []
  | x :: r => insert_sorted x (sorted r)
  end.

(** [x] may stand before [y] in a list sorted by [key]. *)
Definition ordered (x y : A) : Prop := lt (key y) (key x) = false.

End Sorting.

(** A strict total order given by its boolean [<]. *)
Record strict_total {K : Type} (lt : K -> K -> bool) : Prop := {
  lt_asym : forall a b, lt a b = true -> lt b a = false;
  lt_trans : forall a b c, lt a b = true -> lt b c = true -> lt a c = true;
  lt_tricho : forall a b, lt a b = false -> lt b a = false -> a = b
}.

(** The lexicographic [<] on pairs. *)
Definition lex_lt {K1 K2 : Type} (lt1 : K1 -> K1 -> bool)
    (lt2 : K2 -> K2 -> bool) (a b : K1 * K2) : bool :=
  (lt1 (fst a) (fst b)
   || (negb (lt1 (fst b) (fst a)) && lt2 (snd a) (snd b)))%bool.

(** ** filters.py *)

Module Filters.
Import PyStr UrlParse.

Record FilterRule : Type := mkRule {
  pattern : string;
  group : option string;
  priority : Z
}.

Record PageEntry : Type := mkPage {
  p_url : string;
  p_path : string;
  p_group : string;
  p_priority : Z;
  p_score : Z
}.

(** The fields of [AppConfig] the classifier reads. *)
Record Config : Type := mkConfig {
  base_url : string;
  default_language : string;
  include : list FilterRule;
  exclude : list FilterRule;
  auto_group : bool;
  use_default_excludes : bool;
  auto_filter_languages : bool
}.

Definition _relative_path (base_url url : string) : result string :=
  base ← urlparse base_url;
  u ← urlparse url;
  Ok (if is_empty (path u) then "/" else path u).

(** A match of [/([a-z]{2})(?:[-_][a-zA-Z]{2})?/] at the start of [s]: its
    group 1. *)
Definition lang_at (s : string) : option string :=
  match s with
  | String "/" (String a (String b rest)) =>
      if (is_ascii_lower a && is_ascii_lower b)%bool then
        match rest with
        | String "/" _ => Some (String a (String b EmptyString))
        | String d (String e (String f (String "/" _))) =>
            if ((Ascii.eqb d "-" || Ascii.eqb d "_")
                && is_ascii_alpha e && is_ascii_alpha f)%bool
            then Some (String a (String b EmptyString))
            else None
        | _ => None
        end
      else None
  | _ => None
  end.

(** The leftmost match of the same pattern anywhere in [s]. *)
Fixpoint lang_search (s : string) : option string :=
  match lang_at s with
  | Some l => Some l
  | None => match s with
            | EmptyString => None
            | String _ r => lang_search r
            end
  end.

Definition _detect_language_prefix (path : string) : option string :=
  match lang_at path with
  | Some l => Some (lower l)
  | None => match lang_search path with
            | Some l => Some (lower l)
            | None => None
            end
  end.

(** [re.match(r"^[a-z]{2}(?:[-_][a-zA-Z]{2})?$", first)]; [$] also matches
    before a final newline. *)
Definition is_language_code (first : string) : bool :=
  let at_end (s : string) :=
    (is_empty s || String.eqb s (String "010" EmptyString))%bool in
  match first with
  | String a (String b rest) =>
      (is_ascii_lower a && is_ascii_lower b
       && (at_end rest
           || match rest with
              | String d (String e (String f rest')) =>
                  (Ascii.eqb d "-" || Ascii.eqb d "_")
                  && is_ascii_alpha e && is_ascii_alpha f && at_end rest'
              | _ => false
              end))%bool
  | _ => false
  end.

Definition group_table : list (list string * string) :=
  [(["blog"; "blogs"; "article"; "articles"; "post"; "posts"], "Blog");
   (["doc"; "docs"; "documentation"; "help"; "guide"; "guides";
     "developers"; "developer"], "Docs");
   (["product"; "products"; "solution"; "solutions"], "Products");
   (["pricing"; "price"; "prices"; "plan"; "plans"], "Pricing");
   (["about"; "about-us"; "company"], "About");
   (["contact"; "support"; "help"], "Support");
   (["case"; "cases"; "use-case"; "use-cases"], "Use Cases");
   (["integration"; "integrations"; "resource"; "resources"],
    "Integrations");
   (["location"; "locations"; "proxy-location"; "proxy-locations"],
    "Proxy Locations");
   (["legal"; "privacy"; "terms"; "policy"; "policies"], "Legal");
   (["career"; "careers"; "jobs"; "hiring"], "Careers");
   (["press"; "news"; "newsroom"; "media"], "Press");
   (["affiliate"; "affiliates"; "partner"; "partners"], "Partners");
   (["dataset"; "datasets"; "data"], "Datasets");
   (["serp"; "search"], "SERP");
   (["scraper"; "scrapers"; "scraping"], "Scrapers");
   (["proxy"; "proxies"], "Proxies")].

(** The [if first in (...) ... elif ...] chain. *)
Fixpoint lookup_group (first : string) (table : list (list string * string))
  : option string :=
  match table with
  | [] => None
  | (names, g) :: rest =>
      if mem first names then Some g else lookup_group first rest
  end.

Definition weight_table : list (list string * Z) :=
  [(["home"], 40); (["products"; "product"], 35); (["pricing"], 30);
   (["docs"; "documentation"], 28); (["proxies"; "proxy"], 27);
   (["scrapers"; "scraper"; "scraping"], 26); (["blog"; "blogs"], 25);
   (["serp"], 24); (["use cases"; "usecases"], 24);
   (["integrations"; "integration"], 24); (["datasets"; "dataset"], 23);
   (["proxy locations"; "locations"], 22); (["about"; "about us"], 20);
   (["partners"; "affiliates"], 19); (["legal"], 18);
   (["press"; "news"], 17); (["careers"], 15)].

Fixpoint lookup_weight (key : string) (table : list (list string * Z)) : Z :=
  match table with
  | [] => 10
  | (names, w) :: rest =>
      if mem key names then w else lookup_weight key rest
  end.

Definition _base_group_weight (group : string) : Z :=
  lookup_weight (lower group) weight_table.

Definition segments (path : string) : list string :=
  filter (fun seg => negb (is_empty seg)) (split "/" path).

Definition _compute_score (group : string) (priority : Z) (path : string)
  : Z :=
  let depth := Z.max (Z.of_nat (length (segments path)) - 1) 0 in
  let base_score := _base_group_weight group in
  let priority_weight := if Z.ltb 0 priority then priority * 2 else 0 in
  let depth_penalty := depth * 2 in
  let score := base_score + priority_weight - depth_penalty in
  let score :=
    if (String.eqb path "/" || is_empty path)%bool then score + 10
    else score in
  Z.max 0 (Z.min 200 score).

Definition default_exclude_patterns : list string :=
  ["/wp-admin/"; "/wp-json/"; "/search"; "[?&]s="; "[?&]page=\d+";
   "/page/\d+/?$"; "/tag/"; "/category/"; "/feed/?$"; "\.xml$"; "\.rss$";
   "/404"].

Definition _default_exclude_rules : list FilterRule :=
  map (fun p => mkRule p None 0) default_exclude_patterns.

(** [<] on the sort key [(p.group, -p.score, p.path)]: tuples compare
    lexicographically, strings by code point. *)
Definition page_key (p : PageEntry) : string * Z * string :=
  (p_group p, - p_score p, p_path p).

Definition key_lt (a b : string * Z * string) : bool :=
  let '(ga, sa, pa) := a in
  let '(gb, sb, pb) := b in
  match String.compare ga gb with
  | Lt => true
  | Gt => false
  | Eq => if Z.ltb sa sb then true
          else if Z.ltb sb sa then false
          else String.ltb pa pb
  end.

Section Classifier.

(** [re.search(pattern, path) is not None], for the patterns of the
    configuration, which are taken to be well-formed regular expressions
    ([re.search] raises [re.error] on others). *)
Variable re_search : string -> string -> bool.
(** [s.title()] *)
Variable title : string -> string.

Definition _match_rule (path : string) (rule : FilterRule) : bool :=
  re_search (pattern rule) path.

Definition _auto_group_from_path (path : string) : string :=
  if String.eqb path "/" then "Home"
  else
    match segments path with
    | [] => "Other"
    | seg0 :: others =>
        let first := lower seg0 in
        let first :=
          match others with
          | seg1 :: _ => if is_language_code first then lower seg1 else first
          | [] => first
          end in
        match lookup_group first group_table with
        | Some g => g
        | None =>
            let spaced :=
              string_of_list_ascii
                (map (fun c => if Ascii.eqb c "-" then " "%char else c)
                     (list_ascii_of_string first)) in
            let name := title (strip spaced) in
            if is_empty name then "Other" else name
        end
    end.

(** [r.pattern.startswith("^") and r.pattern.endswith("$")] *)
Definition exact_anchored (r : FilterRule) : bool :=
  (startswith "^" (pattern r) && endswith "$" (pattern r))%bool.

Definition exclude_rules (cfg : Config) : list FilterRule :=
  if use_default_excludes cfg
  then (_default_exclude_rules ++ exclude cfg)%list
  else exclude cfg.

(** The value of [excluded] for a URL with this [path]. *)
Definition is_excluded (cfg : Config) (path : string) : bool :=
  match exclude_rules cfg with
  | [] => false
  | rules =>
      let has_include_match := existsb (_match_rule path) (include cfg) in
      if has_include_match
      then existsb (fun r => _match_rule path r && exact_anchored r)%bool rules
      else existsb (_match_rule path) rules
  end.

(** The group and priority of a URL that is kept. *)
Definition group_and_priority (cfg : Config) (u path : string)
  : result (string * Z) :=
  match List.find (_match_rule path) (include cfg) with
  | Some matched_rule =>
      let g := match group matched_rule with
               | Some g => if is_empty g then "Other" else g
               | None => "Other"
               end in
      Ok (g, priority matched_rule)
  | None =>
      if auto_group cfg then
        parsed ← urlparse u;
        let host := lower (netloc parsed) in
        if (String.eqb path "/"
            || is_empty (strip_by (Ascii.eqb "/") path))%bool
        then
          if (contains "blog" host || contains "/blog" path)%bool
          then Ok ("Blog", 0)
          else if (contains "doc" host || contains "developer" host
                   || contains "developers" host)%bool
               then Ok ("Docs", 0)
               else Ok ("Home", 0)
        else Ok (_auto_group_from_path path, 0)
      else Ok ("Other", 0)
  end.

(** The language test of the loop: the path has a language prefix that is
    not the default language, and the filter is on. *)
Definition skipped_language (cfg : Config) (path : string) : bool :=
  let default_lang :=
    lower (if is_empty (default_language cfg) then "en"
           else default_language cfg) in
  (auto_filter_languages cfg
   && match _detect_language_prefix path with
      | Some lang_prefix =>
          negb (is_empty lang_prefix)
          && negb (String.eqb lang_prefix default_lang)
      | None => false
      end)%bool.

(** The body of the loop [for u in urls]: the entry appended for [u], or
    [None] when the loop moves on without one. *)
Definition classify (cfg : Config) (u : string) : result (option PageEntry) :=
  path ← _relative_path (base_url cfg) u;
  let default_lang :=
    lower (if is_empty (default_language cfg) then "en"
           else default_language cfg) in
  let foreign :=
    (auto_filter_languages cfg
     && match _detect_language_prefix path with
        | Some lang_prefix =>
            negb (is_empty lang_prefix)
            && negb (String.eqb lang_prefix default_lang)
        | None => false
        end)%bool in
  if foreign then Ok None
  else if is_excluded cfg path then Ok None
  else
    '(g, prio) ← group_and_priority cfg u path;
    Ok (Some (mkPage u path g prio (_compute_score g prio path))).

Fixpoint classify_all (cfg : Config) (urls : list string)
  : result (list PageEntry) :=
  match urls with
  | [] => Ok []
  | u :: rest =>
      e ← classify cfg u;
      entries ← classify_all cfg rest;
      Ok (match e with
          | Some p => p :: entries
          | None => entries
          end)
  end.

Definition filter_and_group_urls (cfg : Config) (urls : list string)
  : result (list PageEntry) :=
  results ← classify_all cfg urls;
  Ok (sorted page_key key_lt results).

(** What holds of an entry the classifier makes for [u]. *)
Definition entry_of (cfg : Config) (u : string) (p : PageEntry) : Prop :=
  p_url p = u /\
  _relative_path (base_url cfg) u = Ok (p_path p) /\
  p_path p <> "" /\
  is_excluded cfg (p_path p) = false /\
  (auto_filter_languages cfg = true ->
   forall l, _detect_language_prefix (p_path p) = Some l ->
             l = lower (if is_empty (default_language cfg) then "en"
                        else default_language cfg)) /\
  p_group p <> "" /\
  p_score p = _compute_score (p_group p) (p_priority p) (p_path p).

End Classifier.

End Filters.

(** ** generator.py: the per-group limits *)

Module Generator.
Import PyStr Filters.

(** [by_group[p.group].append(p)] on a dictionary kept in insertion
    order. *)
Fixpoint add_to_group (p : PageEntry) (by_group : list (string * list PageEntry))
  : list (string * list PageEntry) :=
  match by_group with
  | [] => [(p_group p, [p])]
  | (g, ps) :: rest =>
      if String.eqb g (p_group p) then (g, ps ++ [p])%list :: rest
      else (g, ps) :: add_to_group p rest
  end.

Definition group_pages (pages : list PageEntry)
  : list (string * list PageEntry) :=
  fold_left (fun acc p => add_to_group p acc) pages [].

(** [sorted(gpages, key=lambda p: -p.score)[:limit]] for a group with a
    positive limit, all of [gpages] otherwise. *)
Definition limit_group (group_limits : gmap string Z)
    (default_limit : option Z) (gname : string) (gpages : list PageEntry)
  : list PageEntry :=
  let limit :=
    match group_limits !! gname with
    | Some l => Some l
    | None => default_limit
    end in
  match limit with
  | None => gpages
  | Some limit =>
      if Z.leb limit 0 then gpages
      else firstn (Z.to_nat limit)
             (sorted (fun p => - p_score p) Z.ltb gpages)
  end.

(** The block "Apply per-group limits based on score" of
    [_generate_llms_from_urls]. *)
Definition apply_group_limits (group_limits : gmap string Z)
    (default_limit : option Z) (pages : list PageEntry) : list PageEntry :=
  if (negb (bool_decide (group_limits = ∅))
      || match default_limit with
         | Some l => negb (Z.eqb l 0)
         | None => false
         end)%bool
  then
    let limited_pages :=
      flat_map (fun '(gname, gpages) =>
                  limit_group group_limits default_limit gname gpages)
               (group_pages pages) in
    sorted page_key key_lt limited_pages
  else pages.

(** The limit that applies to group [g]. *)
Definition limit_of (group_limits : gmap string Z) (default_limit : option Z)
    (g : string) : option Z :=
  match group_limits !! g with
  | Some l => Some l
  | None => default_limit
  end.

(** The entries of group [g], in their order. *)
Definition in_group (g : string) (pages : list PageEntry) : list PageEntry :=
  filter (fun p => p_group p = g) pages.

(** [by_group[g]], or the empty list when [g] is not a key. *)
Fixpoint group_entry (g : string) (by_group : list (string * list PageEntry))
  : list PageEntry :=
  match by_group with
  | [] => []
  | (g', ps) :: rest => if String.eqb g' g then ps else group_entry g rest
  end.

(** A dictionary from group names to entries of that group: no key twice. *)
Definition well_grouped (by_group : list (string * list PageEntry)) : Prop :=
  NoDup (map fst by_group) /\
  forall g ps p, (g, ps) ∈ by_group -> p ∈ ps -> p_group p = g.

(** [p] has a higher score than [q]. *)
Definition score_above (p q : PageEntry) : Prop := p_score q < p_score p.

(** [groups_set] of [_apply_group_profile]: the groups to keep, [None] for
    all of them.  [profiles] maps the name of a profile to its
    [include_groups]. *)
Definition groups_set (profiles : gmap string (list string))
    (profile : option string) (only_groups : option (list string))
  : option (list string) :=
  match only_groups with
  | Some (g :: gs) => Some (g :: gs)
  | _ =>
      match profile with
      | Some name =>
          if is_empty name then None
          else
            match profiles !! name with
            | Some include_groups =>
                if mem "*" include_groups then None else Some include_groups
            | None => None
            end
      | None => None
      end
  end.

Definition _apply_group_profile (profiles : gmap string (list string))
    (pages : list PageEntry) (profile : option string)
    (only_groups : option (list string)) : list PageEntry :=
  match groups_set profiles profile only_groups with
  | None => pages
  | Some groups => filter (fun p => mem (p_group p) groups) pages
  end.

Section Selection.

Variable re_search : string -> string -> bool.
Variable title : string -> string.

(** [_generate_llms_from_urls] up to the truncation to [max_pages]: the
    pages that are printed or rendered, [None] when the function returns
    early because no page is left. *)
Definition select_pages (cfg : Config) (profiles : gmap string (list string))
    (group_limits : gmap string Z) (default_limit : option Z)
    (urls : list string) (max_pages : option Z) (profile : option string)
    (only_groups : option (list string)) : result (option (list PageEntry)) :=
  pages ← filter_and_group_urls re_search title cfg urls;
  match pages with
  | [] => Ok None
  | _ =>
      match _apply_group_profile profiles pages profile only_groups with
      | [] => Ok None
      | pages =>
          let pages := apply_group_limits group_limits default_limit pages in
          let pages :=
            match max_pages with
            | Some m => if Z.ltb 0 m then firstn (Z.to_nat m) pages else pages
            | None => pages
            end in
          Ok (Some pages)
      end
  end.

End Selection.

Record RenderedPage : Type := mkRendered {
  r_url : string;
  r_group : string;
  r_path : string;
  r_score : Z;
  r_title : string;
  r_description : string
}.

(** [_url_key(u)] of [_generate_llms_from_urls] *)
Definition _url_key (u : string) : result (string * string) :=
  parsed ← UrlParse.urlparse u;
  let host := lower (UrlParse.netloc parsed) in
  let path :=
    if is_empty (UrlParse.path parsed) then "/" else UrlParse.path parsed in
  let path :=
    if (negb (String.eqb path "/") && endswith "/" path)%bool
    then rstrip_by (Ascii.eqb "/") path else path in
  Ok (host, path).

(** [_group_sort_key(name)]; tuples compare lexicographically. *)
Definition _group_sort_key (name : string) : Z * string :=
  (- _base_group_weight name, name).

Definition group_key_lt : Z * string -> Z * string -> bool :=
  lex_lt Z.ltb String.ltb.

(** [sorted(groups.keys(), key=_group_sort_key)] *)
Definition sorted_group_names (groups : list (string * list PageEntry))
  : list string :=
  sorted _group_sort_key group_key_lt (map fst groups).

(** The first pass over the groups, which counts the pages of each group
    that will be printed. *)
Fixpoint count_group (group_name : string) (gpages : list PageEntry)
    (seen_url_keys : gset (string * string))
    (actual_group_counts : gmap string Z)
  : result (gset (string * string) * gmap string Z) :=
  match gpages with
  | [] => Ok (seen_url_keys, actual_group_counts)
  | p :: rest =>
      key ← _url_key (p_url p);
      if decide (key ∈ seen_url_keys)
      then count_group group_name rest seen_url_keys actual_group_counts
      else count_group group_name rest ({[key]} ∪ seen_url_keys)
             (<[group_name :=
                  default 0 (actual_group_counts !! group_name) + 1]>
                actual_group_counts)
  end.

Fixpoint count_groups (names : list string)
    (groups : list (string * list PageEntry))
    (seen_url_keys : gset (string * string))
    (actual_group_counts : gmap string Z)
  : result (gset (string * string) * gmap string Z) :=
  match names with
  | [] => Ok (seen_url_keys, actual_group_counts)
  | group_name :: rest =>
      '(seen, counts) ← count_group group_name (group_entry group_name groups)
                          seen_url_keys actual_group_counts;
      count_groups rest groups seen counts
  end.

Section Rendering.

(** The title and description of a page: what [fetch_basic_summary] returns
    for its URL when [fetch_content] is set (the function catches what it
    raises, and the base URL has been parsed by the classifier before), and
    the URL with the text [Page at <url>] otherwise. *)
Variable summary : string -> string * string.

(** The loop [for p in groups[group_name]] of the second pass. *)
Fixpoint render_group (group_name : string) (gpages : list PageEntry)
    (seen_url_keys : gset (string * string)) (lines : list string)
    (rendered_pages : list RenderedPage)
  : result (gset (string * string) * list string * list RenderedPage) :=
  match gpages with
  | [] => Ok (seen_url_keys, lines, rendered_pages)
  | p :: rest =>
      key ← _url_key (p_url p);
      if decide (key ∈ seen_url_keys)
      then render_group group_name rest seen_url_keys lines rendered_pages
      else
        let '(title, desc) := summary (p_url p) in
        render_group group_name rest ({[key]} ∪ seen_url_keys)
          (lines ++ ["- [" +:+ title +:+ "](" +:+ p_url p +:+ "): " +:+ desc])%list
          (rendered_pages
           ++ [mkRendered (p_url p) group_name (p_path p) (p_score p) title
                 desc])%list
  end.

Fixpoint render_groups (names : list string)
    (groups : list (string * list PageEntry))
    (seen_url_keys : gset (string * string)) (lines : list string)
    (rendered_pages : list RenderedPage)
  : result (list string * list RenderedPage) :=
  match names with
  | [] => Ok (lines, rendered_pages)
  | group_name :: rest =>
      let lines := (lines ++ ["## " +:+ group_name; ""])%list in
      '(seen, lines, rendered) ←
        render_group group_name (group_entry group_name groups)
          seen_url_keys lines rendered_pages;
      render_groups rest groups seen (lines ++ [""])%list rendered
  end.

(** The lines of the site description, as a block quote. *)
Definition description_lines (description : option string) : list string :=
  match description with
  | Some d =>
      if is_empty d then []
      else
        (map (fun line => " > " +:+ strip line)
             (filter (fun line => negb (is_empty (strip line)))
                     (split "010" (strip d)))
         ++ [""])%list
  | None => []
  end.

(** [_generate_llms_from_urls] from "Group pages by group name" on: the
    lines of [llms.txt] and the pages handed to the other writers. *)
Definition render (base_url : string) (description : option string)
    (pages : list PageEntry) : result (list string * list RenderedPage) :=
  let groups := group_pages pages in
  let lines := (["# " +:+ base_url; ""] ++ description_lines description)%list in
  let names := sorted_group_names groups in
  _ ← count_groups names groups ∅ ∅;
  render_groups names groups ∅ lines [].

End Rendering.

(** The page [p] as it is rendered. *)
Definition rendered_from (summary : string -> string * string)
    (p : PageEntry) : RenderedPage :=
  mkRendered (p_url p) (p_group p) (p_path p) (p_score p)
    (fst (summary (p_url p))) (snd (summary (p_url p))).

(** The keys seen are those of the pages rendered, which are pairwise
    different. *)
Definition keys_agree (seen : gset (string * string))
    (rendered : list RenderedPage) : Prop :=
  (forall k, k ∈ seen <-> exists r, r ∈ rendered /\ _url_key (r_url r) = Ok k) /\
  NoDup (map (fun r => _url_key (r_url r)) rendered).

End Generator.

(** ** Concrete environments used in the statements below *)

Module Examples.
Import PyStr.

(** A malformed URL whose host holds the feminine ordinal indicator U+00AA,
    which NFKC turns into the letter a. *)
Definition ordinal_host_url : string :=
  "http://ex" +:+ String "170" "mple.com:x/%zz/?#?".

(** [re.search] on the patterns that are a literal text between an optional
    leading [^] and an optional final [$]. *)
Definition literal_search (pattern path : string) : bool :=
  let at_start := startswith "^" pattern in
  let body := if at_start then drop 1 pattern else pattern in
  let at_end := endswith "$" body in
  let text := if at_end then take (String.length body - 1) body else body in
  let newline := String "010" EmptyString in
  match at_start, at_end with
  | true, true =>
      (String.eqb path text || String.eqb path (text +:+ newline))%bool
  | true, false => startswith text path
  | false, true =>
      (endswith text path || endswith (text +:+ newline) path)%bool
  | false, false => contains text path
  end.

(** [s.title()] on a string of code points below 128. *)
Fixpoint ascii_title_from (previous_is_cased : bool) (s : string) : string :=
  match s with
  | EmptyString => EmptyString
  | String c r =>
      let c' :=
        if previous_is_cased then lower_char c
        else if is_ascii_lower c then ascii_of_N (ord c - 32) else c in
      String c' (ascii_title_from (is_ascii_alpha c) r)
  end.

Definition ascii_title (s : string) : string := ascii_title_from false s.

(** Ten blog pages, each one level deeper than the one before, a
    documentation page and the pricing page. *)
Definition site_urls : list string :=
  ["https://example.com/blog/n1/n2/n3";
   "https://example.com/pricing";
   "https://example.com/blog";
   "https://example.com/blog/n1/n2/n3/n4/n5/n6/n7/n8/n9";
   "https://example.com/blog/n1";
   "https://example.com/blog/n1/n2/n3/n4/n5";
   "https://example.com/docs/intro";
   "https://example.com/blog/n1/n2";
   "https://example.com/blog/n1/n2/n3/n4/n5/n6/n7/n8";
   "https://example.com/blog/n1/n2/n3/n4";
   "https://example.com/blog/n1/n2/n3/n4/n5/n6/n7";
   "https://example.com/blog/n1/n2/n3/n4/n5/n6"].

Definition blog_config : Filters.Config :=
  Filters.mkConfig "https://example.com" "en" [] [] true false true.

(** The include rule [^/docs] for group Docs and the exclude rule [blog]. *)
Definition docs_config : Filters.Config :=
  Filters.mkConfig "https://example.com" "en"
    [Filters.mkRule "^/docs" (Some "Docs") 5] [Filters.mkRule "blog" None 0]
    true false true.

Definition page (group url path : string) (score : Z) : Filters.PageEntry :=
  Filters.mkPage url path group 0 score.

(** What the classifier makes of [site_urls]. *)
Definition site_pages : list Filters.PageEntry :=
  [page "Blog" "https://example.com/blog" "/blog" 25;
   page "Blog" "https://example.com/blog/n1" "/blog/n1" 23;
   page "Blog" "https://example.com/blog/n1/n2" "/blog/n1/n2" 21;
   page "Blog" "https://example.com/blog/n1/n2/n3" "/blog/n1/n2/n3" 19;
   page "Blog" "https://example.com/blog/n1/n2/n3/n4" "/blog/n1/n2/n3/n4" 17;
   page "Blog" "https://example.com/blog/n1/n2/n3/n4/n5"
     "/blog/n1/n2/n3/n4/n5" 15;
   page "Blog" "https://example.com/blog/n1/n2/n3/n4/n5/n6"
     "/blog/n1/n2/n3/n4/n5/n6" 13;
   page "Blog" "https://example.com/blog/n1/n2/n3/n4/n5/n6/n7"
     "/blog/n1/n2/n3/n4/n5/n6/n7" 11;
   page "Blog" "https://example.com/blog/n1/n2/n3/n4/n5/n6/n7/n8"
     "/blog/n1/n2/n3/n4/n5/n6/n7/n8" 9;
   page "Blog" "https://example.com/blog/n1/n2/n3/n4/n5/n6/n7/n8/n9"
     "/blog/n1/n2/n3/n4/n5/n6/n7/n8/n9" 7;
   page "Docs" "https://example.com/docs/intro" "/docs/intro" 26;
   page "Pricing" "https://example.com/pricing" "/pricing" 30].

(** A sitemap index [a.xml] and a child [b.xml] that refer to each other;
    each also lists one page. *)
Definition cyclic_web : gmap string Sitemap.xml_doc :=
  <["https://a.com/a.xml" :=
      Sitemap.Root "sitemapindex" []
        ["https://a.com/b.xml"; "https://a.com/page1"]]>
  (<["https://a.com/b.xml" :=
       Sitemap.Root "sitemapindex" []
         ["https://a.com/a.xml"; "https://a.com/page2"]]> ∅).

(** A sitemap index whose only child sitemap does not answer. *)
Definition broken_child_web : gmap string Sitemap.xml_doc :=
  {["https://a.com/sitemap.xml" :=
      Sitemap.Root "sitemapindex" [] ["https://a.com/child.xml"]]}.

Definition html_page (url : string) (status : Z) (reason : string)
    (links : list string) : Crawler.http_outcome :=
  Crawler.Responds
    (Crawler.mkResponse status None (Some "text/html") reason url
       (Some links) None).

(** A home page that links to two pages; every request answers 200. *)
Definition small_site : Crawler.site := fun url _ =>
  if String.eqb url "https://a.com/"
  then html_page url 200 "OK" ["https://a.com/p1"; "https://a.com/p2"]
  else html_page url 200 "OK" [].

(** A site behind a proxy that answers 520 to every request, a status the
    crawler retries and the retry list of the session does not hold. *)
Definition origin_error_site : Crawler.site := fun url _ =>
  html_page url 520 "Origin Error" [].

(** A site whose first answer is a reset connection and whose later answers
    are 403. *)
Definition flaky_site : Crawler.site := fun url attempt =>
  match attempt with
  | O => Crawler.TransportError "Connection reset by peer"
  | S _ => html_page url 403 "Forbidden" []
  end.

(** A site that answers 503 to every request. *)
Definition unavailable_site : Crawler.site := fun url _ =>
  html_page url 503 "Service Unavailable" [].

(** A [robots.txt] that declares the same sitemap twice, in two
    spellings. *)
Definition robots_txt : string :=
  let newline := String "010" EmptyString in
  "User-agent: *" +:+ newline
  +:+ "Sitemap: https://A.com/sitemap.xml" +:+ newline
  +:+ "sitemap:http://a.com/sitemap.xml#top" +:+ newline
  +:+ "Disallow: /private" +:+ newline.

End Examples.

(** * Properties *)

Import PyStr UrlParse UrlUtils.

(** ** The URL normaliser *)

Lemma mem_In (x : string) (l : list string) : In x l -> mem x l = true.
Proof.
  intros H. unfold mem. apply existsb_exists. exists x. split; [exact H|].
  apply String.eqb_refl.
Qed.

Lemma is_allowed_a_com (allowed_domains : list string) (u : string)
    (p : ParseResult) :
  urlparse u = Ok p -> lower (netloc p) = "a.com" ->
  In "a.com" allowed_domains ->
  Sitemap._is_allowed_domain allowed_domains u = Ok true.
Proof.
  intros Hp Hn Hin. unfold Sitemap._is_allowed_domain. rewrite Hp. simpl.
  rewrite Hn. simpl. now rewrite (mem_In _ _ Hin).
Qed.

(** C1. The three spellings [https://a.com/x], [https://A.com/x/] and
    [http://a.com/x] have the same canonical form under
    prefer_https + drop_fragment + strip_trailing_slash, and the final pass of
    the source collector (same-site filter, canonicalisation, de-duplication,
    global cut) returns exactly one entry for them, whatever the global
    budget, as soon as [a.com] is an allowed domain. *)
Theorem dedup_three_spellings (allowed_domains : list string)
    (global_max : Z) :
  In "a.com" allowed_domains ->
  normalize_url "https://a.com/x" true true true = Ok "https://a.com/x" /\
  normalize_url "https://A.com/x/" true true true = Ok "https://a.com/x" /\
  normalize_url "http://a.com/x" true true true = Ok "https://a.com/x" /\
  Sitemap.dedup_and_truncate allowed_domains global_max
    ["https://a.com/x"; "https://A.com/x/"; "http://a.com/x"]
  = Ok ["https://a.com/x"].
Proof.
  intros Hin.
  assert (N1 : normalize_url "https://a.com/x" true true true
               = Ok "https://a.com/x") by (vm_compute; reflexivity).
  assert (N2 : normalize_url "https://A.com/x/" true true true
               = Ok "https://a.com/x") by (vm_compute; reflexivity).
  assert (N3 : normalize_url "http://a.com/x" true true true
               = Ok "https://a.com/x") by (vm_compute; reflexivity).
  repeat split; try assumption.
  unfold Sitemap.dedup_and_truncate. cbn [Sitemap.dedup_loop].
  rewrite (is_allowed_a_com allowed_domains "https://a.com/x"
             (mkParse "https" "a.com" "/x" "" "" ""))
    by (try assumption; vm_compute; reflexivity).
  rewrite (is_allowed_a_com allowed_domains "https://A.com/x/"
             (mkParse "https" "A.com" "/x/" "" "" ""))
    by (try assumption; vm_compute; reflexivity).
  rewrite (is_allowed_a_com allowed_domains "http://a.com/x"
             (mkParse "http" "a.com" "/x" "" "" ""))
    by (try assumption; vm_compute; reflexivity).
  rewrite N1, N2, N3. cbn [mbind result_bind negb].
  rewrite decide_False by set_solver.
  cbn [length app].
  destruct (Z.leb global_max (Z.of_nat 1)); [reflexivity|].
  rewrite !decide_True by set_solver.
  cbn [length]. destruct (Z.leb global_max (Z.of_nat 1)); reflexivity.
Qed.

Lemma dedup_three_spellings_witness :
  In "a.com" ["a.com"; "www.a.com"] /\
  Sitemap.dedup_and_truncate ["a.com"; "www.a.com"] 2000
    ["https://a.com/x"; "https://A.com/x/"; "http://a.com/x"]
  = Ok ["https://a.com/x"].
Proof.
  split; [left; reflexivity|].
  apply (dedup_three_spellings ["a.com"; "www.a.com"] 2000).
  left; reflexivity.
Defined.

(** Characters of the pieces of a string are characters of the string. *)

Lemma has_char_lstrip_by (c : ascii) (p : ascii -> bool) (s : string) :
  has_char c s = false -> has_char c (lstrip_by p s) = false.
Proof.
  induction s as [|a r IH]; simpl; [reflexivity|].
  intros H. apply orb_false_iff in H as [Ha Hr].
  destruct (p a); [now apply IH|]. simpl. now rewrite Ha, Hr.
Qed.

Lemma has_char_rstrip_by (c : ascii) (p : ascii -> bool) (s : string) :
  has_char c s = false -> has_char c (rstrip_by p s) = false.
Proof.
  induction s as [|a r IH]; simpl; [reflexivity|].
  intros H. apply orb_false_iff in H as [Ha Hr].
  destruct (is_empty (rstrip_by p r) && p a)%bool; [reflexivity|].
  simpl. rewrite Ha. now apply IH.
Qed.

Lemma has_char_remove_char (c d : ascii) (s : string) :
  has_char c s = false -> has_char c (remove_char d s) = false.
Proof.
  induction s as [|a r IH]; simpl; [reflexivity|].
  intros H. apply orb_false_iff in H as [Ha Hr].
  destruct (Ascii.eqb a d); [now apply IH|]. simpl. rewrite Ha. now apply IH.
Qed.

Lemma has_char_split_once (c d : ascii) (s h t : string) :
  split_once d s = Some (h, t) -> has_char c s = false ->
  has_char c h = false /\ has_char c t = false.
Proof.
  revert h t. induction s as [|a r IH]; simpl; [discriminate|].
  intros h t Hs H. apply orb_false_iff in H as [Ha Hr].
  destruct (Ascii.eqb a d).
  - inversion Hs; subst. now split.
  - destruct (split_once d r) as [[h' t']|]; [|discriminate].
    inversion Hs; subst. destruct (IH h' t eq_refl Hr) as [Hh Ht].
    split; [simpl; now rewrite Ha|assumption].
Qed.

Lemma has_char_drop (c : ascii) (n : nat) (s : string) :
  has_char c s = false -> has_char c (drop n s) = false.
Proof.
  revert s. induction n as [|n IH]; intros [|a r]; simpl; try easy.
  intros H. apply orb_false_iff in H as [_ Hr]. now apply IH.
Qed.

Lemma has_char_span_until (c : ascii) (p : ascii -> bool) (s : string) :
  has_char c s = false -> has_char c (fst (span_until p s)) = false.
Proof.
  induction s as [|a r IH]; simpl; [reflexivity|].
  intros H. apply orb_false_iff in H as [Ha Hr].
  destruct (p a); [reflexivity|].
  destruct (span_until p r) as [h t]. simpl in *. rewrite Ha. now apply IH.
Qed.

Lemma has_char_strip (c : ascii) (s : string) :
  has_char c s = false -> has_char c (strip s) = false.
Proof.
  intros H. unfold strip, strip_by.
  now apply has_char_rstrip_by, has_char_lstrip_by.
Qed.

Lemma span_until_head_free (c : ascii) (p : ascii -> bool) (s : string) :
  p c = true -> has_char c (fst (span_until p s)) = false.
Proof.
  intros Hp. induction s as [|a r IH]; simpl; [reflexivity|].
  destruct (p a) eqn:Ha; [reflexivity|].
  destruct (span_until p r) as [h t]. simpl in *. rewrite IH, orb_false_r.
  apply Ascii.eqb_neq. intros ->. congruence.
Qed.

(** The NFKC check of [urlsplit] on strings of code points below 256 *)

Lemma all_chars_without (p : ascii -> bool) (c : ascii) (s : string) :
  (forall a, Ascii.eqb a c = false -> p a = true) ->
  has_char c s = false -> all_chars p s = true.
Proof.
  intros Hp. induction s as [|a r IH]; simpl; [reflexivity|].
  intros H. apply orb_false_iff in H as [Ha Hr].
  rewrite (Hp a Ha). now apply IH.
Qed.

Lemma all_chars_remove_char (q : ascii -> bool) (c : ascii) (s : string) :
  all_chars (fun a => Ascii.eqb a c || q a)%bool s = true ->
  all_chars q (remove_char c s) = true.
Proof.
  induction s as [|a r IH]; simpl; [reflexivity|].
  intros H. apply andb_true_iff in H as [Ha Hr].
  destruct (Ascii.eqb a c); [now apply IH|].
  simpl in *. rewrite Ha. now apply IH.
Qed.

(** A code point below 256 that is none of [/?#@:] has none of them in its
    NFKC form. *)
Lemma nfkc_char_brings_no_delimiter (c : ascii) :
  existsb (N.eqb (ord c)) [47; 63; 35; 64; 58]%N = false ->
  Forall (fun d => existsb (N.eqb d) (nfkc_char c) = false)
    [47; 63; 35; 64; 58]%N.
Proof.
  destruct c as [[] [] [] [] [] [] [] []]; vm_compute; intros H;
    try discriminate H; repeat constructor.
Qed.

Lemma nfkc_brings_no_delimiter (s : string) :
  all_chars (fun c => negb (existsb (N.eqb (ord c)) [47; 63; 35; 64; 58]%N)) s
  = true ->
  Forall (fun d => existsb (N.eqb d) (nfkc s) = false) [47; 63; 35; 64; 58]%N.
Proof.
  unfold nfkc. induction s as [|a r IH]; cbn [all_chars list_ascii_of_string
                                              flat_map].
  - intros _. repeat constructor.
  - intros H. apply andb_true_iff in H as [Ha Hr].
    apply negb_true_iff in Ha.
    pose proof (nfkc_char_brings_no_delimiter a Ha) as H1.
    specialize (IH Hr). rewrite Forall_forall in *.
    intros d Hd. rewrite existsb_app, (H1 d Hd), (IH d Hd). reflexivity.
Qed.

(** [_checknetloc] raises on no netloc that [_splitnetloc] cuts out. *)
Lemma checknetloc_ok (netloc : string) :
  has_char "/" netloc = false -> _checknetloc netloc = Ok tt.
Proof.
  intros Hslash. unfold _checknetloc.
  destruct (is_empty netloc || isascii netloc)%bool; [reflexivity|].
  destruct (bool_decide _); [reflexivity|].
  set (n := remove_char "?" _).
  assert (Hn : Forall (fun d => existsb (N.eqb d) (nfkc n) = false)
                 [47; 63; 35; 64; 58]%N).
  { apply nfkc_brings_no_delimiter. unfold n.
    do 4 apply all_chars_remove_char.
    apply (all_chars_without _ "/"); [|exact Hslash].
    intros a Ha. destruct a as [[] [] [] [] [] [] [] []];
      vm_compute in Ha |- *; congruence. }
  assert (He : existsb (fun c => existsb (N.eqb c) (nfkc n))
                 [47; 63; 35; 64; 58]%N = false).
  { destruct (existsb _ _) eqn:Hex; [|reflexivity].
    apply existsb_exists in Hex as (d & Hd & Hx).
    rewrite Forall_forall in Hn. rewrite (Hn d) in Hx; [discriminate|].
    now apply list_elem_of_In. }
  rewrite He. reflexivity.
Qed.

(** [urlsplit] raises only on a bracket in the authority part. *)
Lemma urlsplit_ok_without_brackets (url : string) :
  has_char "[" url = false -> has_char "]" url = false ->
  exists r, urlsplit url = Ok r.
Proof.
  intros Hl Hr. unfold urlsplit.
  set (url1 := remove_unsafe_bytes (lstrip_by is_c0_control_or_space url)).
  assert (H1 : forall c, has_char c url = false -> has_char c url1 = false).
  { intros c Hc. unfold url1, remove_unsafe_bytes.
    now repeat apply has_char_remove_char; apply has_char_lstrip_by. }
  assert (Hrest : forall scheme url2,
             has_char "[" url2 = false -> has_char "]" url2 = false ->
             exists r,
               (let '(scheme, url) := (scheme, url2) in
                '(netloc, url) ←
                  (if String.eqb (take 2 url) "//" then
                     let '(netloc, rest) := _splitnetloc url in
                     let lb := has_char "[" netloc in
                     let rb := has_char "]" netloc in
                     if ((lb && negb rb) || (rb && negb lb))%bool
                     then Raised (ValueError "Invalid IPv6 URL")
                     else if (lb && rb)%bool then
                            _ ← _check_bracketed_netloc netloc;
                            Ok (netloc, rest)
                          else Ok (netloc, rest)
                   else Ok ("", url));
                let '(url, fragment) :=
                  match split_once "#" url with
                  | Some (u, f) => (u, f)
                  | None => (url, "")
                  end in
                let '(url, query) :=
                  match split_once "?" url with
                  | Some (u, q) => (u, q)
                  | None => (url, "")
                  end in
                _ ← _checknetloc netloc;
                Ok (mkSplit scheme netloc url query fragment)) = Ok r).
  { intros sch url2 H2l H2r.
    destruct (String.eqb (take 2 url2) "//").
    - unfold _splitnetloc.
      pose proof (has_char_span_until "["
                    (fun c => Ascii.eqb c "/" || Ascii.eqb c "?"
                              || Ascii.eqb c "#")%bool
                    (drop 2 url2) (has_char_drop _ 2 _ H2l)) as Hn1.
      pose proof (has_char_span_until "]"
                    (fun c => Ascii.eqb c "/" || Ascii.eqb c "?"
                              || Ascii.eqb c "#")%bool
                    (drop 2 url2) (has_char_drop _ 2 _ H2r)) as Hn2.
      pose proof (span_until_head_free "/"
                    (fun c => Ascii.eqb c "/" || Ascii.eqb c "?"
                              || Ascii.eqb c "#")%bool
                    (drop 2 url2) eq_refl) as Hn3.
      destruct (span_until _ (drop 2 url2)) as [nl rest].
      simpl in Hn1, Hn2, Hn3.
      rewrite Hn1, Hn2. simpl.
      destruct (split_once "#" rest) as [[u f]|];
        [destruct (split_once "?" u) as [[u' q]|]
        |destruct (split_once "?" rest) as [[u' q]|]];
        rewrite (checknetloc_ok nl Hn3); eexists; reflexivity.
    - simpl.
      destruct (split_once "#" url2) as [[u f]|];
        [destruct (split_once "?" u) as [[u' q]|]
        |destruct (split_once "?" url2) as [[u' q]|]];
        eexists; reflexivity. }
  destruct (split_once ":" url1) as [[pre post]|] eqn:Hs.
  - destruct (has_char_split_once "[" ":" _ _ _ Hs (H1 _ Hl)) as [_ Hpl].
    destruct (has_char_split_once "]" ":" _ _ _ Hs (H1 _ Hr)) as [_ Hpr].
    destruct pre as [|c0 pre'].
    + apply Hrest; now apply H1.
    + destruct (is_ascii_alpha c0 && all_chars is_scheme_char (String c0 pre'))%bool.
      * now apply Hrest.
      * apply Hrest; now apply H1.
  - apply Hrest; now apply H1.
Qed.

(** C9 (as amended). On every string of code points below 256 without a
    square bracket, however malformed, [normalize_url] returns a string and
    raises nothing, for every setting of its flags: without a bracket the
    checks of bracketed hosts are not run, and the NFKC form of such a netloc
    holds none of [/?#@:], so [_checknetloc] raises nothing either.  Being a
    function of its arguments alone, [normalize_url] does no I/O and has no
    side effect.  (With a bracket in the authority part [urlparse] may raise
    [ValueError], which [normalize_url] lets through.) *)
Theorem normalize_total_without_brackets (url : string)
    (prefer_https drop_fragment strip_trailing_slash : bool) :
  has_char "[" url = false -> has_char "]" url = false ->
  exists s,
    normalize_url url prefer_https drop_fragment strip_trailing_slash = Ok s.
Proof.
  intros Hl Hr. unfold normalize_url, urlparse.
  destruct (urlsplit_ok_without_brackets (strip url)
              (has_char_strip _ _ Hl) (has_char_strip _ _ Hr)) as [r Hs].
  rewrite Hs. cbn [mbind result_bind].
  destruct (mem (s_scheme r) uses_params && has_char ";" (s_path r))%bool;
    [destruct (_splitparams (s_path r))|]; eexists; reflexivity.
Qed.

Lemma normalize_total_without_brackets_witness :
  has_char "[" Examples.ordinal_host_url = false /\
  has_char "]" Examples.ordinal_host_url = false /\
  exists s,
    normalize_url Examples.ordinal_host_url true true true = Ok s.
Proof.
  split; [reflexivity|]. split; [reflexivity|].
  apply (normalize_total_without_brackets
           Examples.ordinal_host_url true true true); reflexivity.
Defined.

(** C9, as stated, fails: an authority part with an opening bracket and no
    closing one makes [urlparse] raise, and so [normalize_url]. *)
Lemma normalize_raises_on_open_bracket :
  normalize_url "http://[" true true true
  = Raised (ValueError "Invalid IPv6 URL").
Proof. vm_compute. reflexivity. Qed.

(** C10. Normalising [https://a.com//] strips both slashes of the path and
    gives [https://a.com]; normalising that result gives [https://a.com/]:
    two different strings, so normalisation is not idempotent here. *)
Theorem normalize_twice_differs_on_double_slash :
  normalize_url "https://a.com//" true true true = Ok "https://a.com" /\
  normalize_url "https://a.com" true true true = Ok "https://a.com/" /\
  (u ← normalize_url "https://a.com//" true true true;
   normalize_url u true true true)
  <> normalize_url "https://a.com//" true true true.
Proof.
  split; [vm_compute; reflexivity|]. split; [vm_compute; reflexivity|].
  vm_compute. discriminate.
Qed.

(** ** The sitemap reader *)

Section SitemapExpansion.
Import Sitemap.

Variable w : gmap string xml_doc.

Lemma unseen_size_mono (seen seen' : gset string) :
  seen ⊆ seen' -> (size (dom w ∖ seen') <= size (dom w ∖ seen))%nat.
Proof. intros H. apply subseteq_size. set_solver. Qed.

Lemma unseen_size_decr (url : string) (seen : gset string) :
  url ∉ seen -> is_Some (w !! url) ->
  (size (dom w ∖ ({[url]} ∪ seen)) < size (dom w ∖ seen))%nat.
Proof.
  intros Hn Hs. apply subset_size. apply elem_of_dom in Hs.
  split; [set_solver|]. intros H. specialize (H url). set_solver.
Qed.

Lemma candidates_loop_ok (fuel : nat) :
  (forall url seen, (size (dom w ∖ seen) < fuel)%nat ->
     exists r, _expand_sitemap_index fuel w url seen = Some r
               /\ expand_spec w url seen r) ->
  forall candidates seen urls0, (size (dom w ∖ seen) < fuel)%nat ->
    exists r,
      expand_candidates (_expand_sitemap_index fuel w) candidates seen urls0
      = Some r
      /\ loop_spec w candidates seen urls0 r.
Proof.
  intros IH candidates.
  induction candidates as [|c rest IHc]; intros seen urls0 Hsz; simpl.
  - eexists; split; [reflexivity|]. intros urls seen' [= <- <-].
    split; [done|]. intros u. split; [auto|].
    intros [H|[[H _]|(s & H1 & H2 & _)]]; [done| |done].
    by apply elem_of_nil in H.
  - destruct (endswith ".xml" c) eqn:Hxml.
    + destruct (IH c seen Hsz) as (r1 & Hr1 & _ & Hspec1). rewrite Hr1.
      destruct r1 as [[sub seen1]|e].
      * destruct (Hspec1 sub seen1 eq_refl) as [Hsub1 Hleaf1].
        destruct (IHc seen1 (urls0 ++ sub)%list) as (r & Hr & Hspec).
        { pose proof (unseen_size_mono seen seen1 Hsub1). lia. }
        exists r. split; [exact Hr|]. intros urls seen' ->.
        destruct (Hspec urls seen' eq_refl) as [Hsub2 Hleaf2].
        split; [set_solver|]. intros u. rewrite Hleaf2, elem_of_app, Hleaf1.
        split.
        -- intros [[H|(s & H1 & H2 & H3)]|[[H Hx]|(s & H1 & H2 & H3)]].
           ++ by left.
           ++ right; right. exists s. set_solver.
           ++ right; left. split; [by apply elem_of_cons; right|done].
           ++ right; right. exists s. set_solver.
        -- intros [H|[[H Hx]|(s & H1 & H2 & H3)]].
           ++ by left; left.
           ++ apply elem_of_cons in H as [->|H]; [congruence|].
              right; left. by split.
           ++ destruct (decide (s ∈ seen1)).
              ** left; right. by exists s.
              ** right; right. by exists s.
      * eexists; split; [reflexivity|]. by intros urls seen' [=].
    + destruct (IHc seen (urls0 ++ [c])%list Hsz) as (r & Hr & Hspec).
      exists r. split; [exact Hr|]. intros urls seen' ->.
      destruct (Hspec urls seen' eq_refl) as [Hsub Hleaf].
      split; [done|]. intros u.
      rewrite Hleaf, elem_of_app, !elem_of_cons, elem_of_nil.
      split.
      * intros [[H|[->|[]]]|[[H Hx]|H]].
        -- by left.
        -- right; left. split; [by left|done].
        -- right; left. split; [by right|done].
        -- by right; right.
      * intros [H|[[[->|H] Hx]|H]].
        -- by left; left.
        -- left; right. by left.
        -- right; left. by split.
        -- by right; right.
Qed.

Lemma expand_ok (fuel : nat) :
  forall url seen, (size (dom w ∖ seen) < fuel)%nat ->
    exists r, _expand_sitemap_index fuel w url seen = Some r
              /\ expand_spec w url seen r.
Proof.
  induction fuel as [|fuel IH]; intros url seen Hsz; [lia|]. simpl.
  destruct (decide (url ∈ seen)) as [Hin|Hnin].
  - eexists; split; [reflexivity|]. split; [done|].
    intros urls seen' [= <- <-]. split; [done|]. intros u. split.
    + intros H. by apply elem_of_nil in H.
    + intros (s & H1 & H2 & _). done.
  - unfold _fetch_xml. destruct (w !! url) as [doc|] eqn:Hdoc.
    + destruct (candidates_loop_ok fuel IH (_parse_sitemap_xml doc)
                  ({[url]} ∪ seen) []) as (r & Hr & Hspec).
      { pose proof (unseen_size_decr url seen Hnin (mk_is_Some _ _ Hdoc)).
        lia. }
      exists r. split; [exact Hr|]. split; [done|].
      intros urls seen' ->. destruct (Hspec urls seen' eq_refl) as [Hsub Hleaf].
      split; [set_solver|]. intros u. rewrite Hleaf. split.
      * intros [H|[[H Hx]|(s & H1 & H2 & H3)]].
        -- by apply elem_of_nil in H.
        -- exists url. split; [set_solver|]. split; [done|]. by exists doc.
        -- exists s. set_solver.
      * intros (s & H1 & H2 & H3). destruct (decide (s = url)) as [->|Hne].
        -- right; left. destruct H3 as (doc' & Hd & Hu & Hx).
           rewrite Hdoc in Hd. injection Hd as <-. by split.
        -- right; right. exists s. set_solver.
    + eexists; split; [reflexivity|]. split; [done|]. by intros urls seen' [=].
Qed.

End SitemapExpansion.

Section SitemapReach.
Import Sitemap.

Variable w : gmap string xml_doc.

Lemma reached_unseen (seen : gset string) (url s : string) :
  reached w seen url s -> s ∉ seen.
Proof. intros H. destruct H; assumption. Qed.

(** What a nested call reaches, the call that made it reaches too. *)
Lemma reached_extend (seen seen1 : gset string) (url root c s : string) :
  reached w seen url root -> child_of w root c -> seen ⊆ seen1 ->
  reached w seen1 c s -> reached w seen url s.
Proof.
  intros Hroot Hc Hsub H. induction H as [Hn|s' c' H IH Hch Hn].
  - apply (reached_child w seen url root c Hroot Hc). set_solver.
  - apply (reached_child w seen url s' c' IH Hch). set_solver.
Qed.

Lemma candidates_loop_marks (fuel : nat) :
  (forall url seen urls seen',
     _expand_sitemap_index fuel w url seen = Some (Ok (urls, seen')) ->
     marks w seen url seen') ->
  forall (seen0 : gset string) (url0 root : string),
    reached w seen0 url0 root ->
    forall candidates seen urls0 urls seen',
      seen0 ⊆ seen ->
      (forall c, c ∈ candidates -> endswith ".xml" c = true ->
                 child_of w root c) ->
      expand_candidates (_expand_sitemap_index fuel w) candidates seen urls0
      = Some (Ok (urls, seen')) ->
      seen ⊆ seen' /\
      (forall c, c ∈ candidates -> endswith ".xml" c = true -> c ∈ seen') /\
      (forall s, s ∈ seen' -> s ∉ seen -> reached w seen0 url0 s) /\
      (forall s c, s ∈ seen' -> s ∉ seen -> child_of w s c -> c ∈ seen').
Proof.
  intros IH seen0 url0 root Hroot candidates.
  induction candidates as [|c rest IHc];
    intros seen urls0 urls seen' Hsub Hch Hrun; cbn [expand_candidates] in Hrun.
  - injection Hrun as <- <-. split; [done|]. split.
    { intros c Hc. by apply elem_of_nil in Hc. }
    split; intros; done.
  - assert (Hrest : forall c', c' ∈ rest -> endswith ".xml" c' = true ->
                              child_of w root c').
    { intros c' Hc'. apply Hch. by apply elem_of_cons; right. }
    destruct (endswith ".xml" c) eqn:Hxml.
    + destruct (_expand_sitemap_index fuel w c seen) as [[[sub seen1]|e]|]
        eqn:Hcall; try discriminate.
      destruct (IH c seen sub seen1 Hcall) as (Hs1 & Hc1 & Hr1 & Hcl1).
      destruct (IHc seen1 (urls0 ++ sub)%list urls seen'
                  ltac:(set_solver) Hrest Hrun)
        as (Hs2 & Hc2 & Hr2 & Hcl2).
      assert (Hchild : child_of w root c).
      { apply Hch; [by apply elem_of_cons; left|exact Hxml]. }
      split; [set_solver|]. split; [|split].
      * intros c' Hc' Hx. apply elem_of_cons in Hc' as [->|Hc'];
          [set_solver|by apply Hc2].
      * intros s Hs Hns. destruct (decide (s ∈ seen1)) as [Hin|Hnin].
        -- apply (reached_extend seen0 seen url0 root c s Hroot Hchild Hsub).
           by apply Hr1.
        -- by apply Hr2.
      * intros s c' Hs Hns Hcc. destruct (decide (s ∈ seen1)) as [Hin|Hnin].
        -- apply Hs2. by apply (Hcl1 s c').
        -- by apply (Hcl2 s c').
    + destruct (IHc seen (urls0 ++ [c])%list urls seen' Hsub Hrest Hrun)
        as (Hs2 & Hc2 & Hr2 & Hcl2).
      split; [exact Hs2|]. split; [|split; assumption].
      intros c' Hc' Hx. apply elem_of_cons in Hc' as [->|Hc'];
        [congruence|by apply Hc2].
Qed.

Lemma expand_marks (fuel : nat) (url : string) (seen : gset string)
    (urls : list string) (seen' : gset string) :
  _expand_sitemap_index fuel w url seen = Some (Ok (urls, seen')) ->
  marks w seen url seen'.
Proof.
  revert url seen urls seen'.
  induction fuel as [|fuel IH]; intros url seen urls seen' Hrun;
    [discriminate|].
  cbn [_expand_sitemap_index] in Hrun.
  destruct (decide (url ∈ seen)) as [Hin|Hnin].
  - injection Hrun as <- <-. split; [done|]. split; [exact Hin|].
    split; intros; done.
  - unfold _fetch_xml in Hrun.
    destruct (w !! url) as [doc|] eqn:Hdoc; [|discriminate].
    assert (Hstart : reached w seen url url) by (by constructor).
    destruct (candidates_loop_marks fuel IH seen url url Hstart
                (_parse_sitemap_xml doc) ({[url]} ∪ seen) [] urls seen')
      as (Hs & Hc & Hr & Hcl); [set_solver| |exact Hrun|].
    { intros c Hc Hx. by exists doc. }
    split; [set_solver|]. split; [set_solver|]. split.
    + intros s Hs' Hns. destruct (decide (s = url)) as [->|Hne];
        [exact Hstart|].
      apply Hr; set_solver.
    + intros s c Hs' Hns Hcc. destruct (decide (s = url)) as [->|Hne].
      * destruct Hcc as (doc' & Hd & Hcand & Hx).
        rewrite Hdoc in Hd. injection Hd as <-. by apply Hc.
      * apply (Hcl s c); [exact Hs'|set_solver|exact Hcc].
Qed.

(** The sitemaps marked by a run that returns are those seen before and
    those reached from [url]. *)
Lemma expand_seen_exactly (fuel : nat) (url : string) (seen : gset string)
    (urls : list string) (seen' : gset string) :
  _expand_sitemap_index fuel w url seen = Some (Ok (urls, seen')) ->
  forall s, s ∈ seen' <-> s ∈ seen \/ reached w seen url s.
Proof.
  intros Hrun. destruct (expand_marks _ _ _ _ _ Hrun) as (Hs & Hu & Hr & Hcl).
  assert (Hall : forall s, reached w seen url s -> s ∈ seen').
  { intros s H. induction H as [Hn|s c H IH Hch Hn]; [exact Hu|].
    apply (Hcl s c); [exact IH|by apply (reached_unseen seen url)|exact Hch]. }
  intros s. split.
  - intros Hin. destruct (decide (s ∈ seen)); [by left|right; by apply Hr].
  - intros [Hin|Hre]; [set_solver|by apply Hall].
Qed.

End SitemapReach.

(** C6. Sitemap-index expansion terminates on every finite web, cyclic or
    not: with room for one nested call per sitemap not yet seen, and one
    more, [_expand_sitemap_index] returns or raises (a sitemap that cannot be
    fetched).  A sitemap URL already seen contributes the empty list.  When
    the expansion returns, the sitemaps marked as seen are those seen before
    and those reached from [url], from child sitemap to child sitemap,
    through sitemaps not seen before; the URLs returned are exactly the page
    URLs that the sitemaps so reached list. *)
Theorem sitemap_expansion_terminates (w : gmap string Sitemap.xml_doc)
    (url : string) (seen : gset string) (fuel : nat) :
  (size (dom w ∖ seen) < fuel)%nat ->
  exists r,
    Sitemap._expand_sitemap_index fuel w url seen = Some r /\
    (url ∈ seen -> r = Ok ([], seen)) /\
    forall urls seen', r = Ok (urls, seen') ->
      (forall s, s ∈ seen' <-> s ∈ seen \/ Sitemap.reached w seen url s) /\
      (forall u, u ∈ urls <->
         exists s, Sitemap.reached w seen url s /\ Sitemap.leaf_of w s u).
Proof.
  intros Hsz. destruct (expand_ok w fuel url seen Hsz) as (r & Hr & Hspec).
  exists r. split; [exact Hr|]. destruct Hspec as [Hseen Hspec].
  split; [exact Hseen|]. intros urls seen' ->.
  destruct (Hspec urls seen' eq_refl) as [Hsub Hleaf].
  pose proof (expand_seen_exactly w fuel url seen urls seen' Hr) as Hex.
  split; [exact Hex|]. intros u. rewrite Hleaf. split.
  - intros (s & Hin & Hn & Hl). exists s. split; [|exact Hl].
    apply Hex in Hin as [Hin|Hre]; [done|exact Hre].
  - intros (s & Hre & Hl). exists s. split; [apply Hex; by right|].
    split; [by apply (reached_unseen w seen url)|exact Hl].
Qed.

Lemma sitemap_expansion_terminates_witness :
  (size (dom Examples.cyclic_web ∖ (∅ : gset string)) < 3)%nat /\
  exists r,
    Sitemap._expand_sitemap_index 3 Examples.cyclic_web
      "https://a.com/a.xml" ∅ = Some r /\
    ("https://a.com/a.xml" ∈ (∅ : gset string) -> r = Ok ([], ∅)) /\
    forall urls seen', r = Ok (urls, seen') ->
      (forall s, s ∈ seen' <->
         s ∈ (∅ : gset string)
         \/ Sitemap.reached Examples.cyclic_web ∅ "https://a.com/a.xml" s) /\
      (forall u, u ∈ urls <->
         exists s,
           Sitemap.reached Examples.cyclic_web ∅ "https://a.com/a.xml" s
           /\ Sitemap.leaf_of Examples.cyclic_web s u).
Proof.
  assert (H : (size (dom Examples.cyclic_web ∖ (∅ : gset string)) < 3)%nat)
    by (vm_compute; constructor).
  split; [exact H|].
  exact (sitemap_expansion_terminates Examples.cyclic_web
           "https://a.com/a.xml" ∅ 3 H).
Defined.

(** The index [a.xml] and its child [b.xml] refer to each other: the
    expansion returns the two pages they list. *)
Lemma cyclic_index_expands :
  Sitemap._expand_sitemap_index 3 Examples.cyclic_web "https://a.com/a.xml" ∅
  = Some (Ok (["https://a.com/page2"; "https://a.com/page1"],
              {["https://a.com/a.xml"; "https://a.com/b.xml"]})).
Proof. vm_compute. reflexivity. Qed.

(** C2. A sitemap index that can be fetched but whose child sitemap cannot:
    the fetch error of the child leaves [_expand_sitemap_index] and
    [_collect_from_sitemap_source] as an exception, whereas a failure to
    fetch the source's own sitemap gives the empty list. *)
Theorem child_sitemap_failure_propagates (fuel : nat) (seen : gset string) :
  Sitemap._collect_from_sitemap_source (S fuel) Examples.broken_child_web
    "https://a.com/sitemap.xml" ∅
  = Some (Raised (FetchError "https://a.com/child.xml")) /\
  Sitemap._collect_from_sitemap_source fuel Examples.broken_child_web
    "https://a.com/child.xml" seen
  = Some (Ok ([], seen)).
Proof.
  split; [|reflexivity].
  unfold Sitemap._collect_from_sitemap_source.
  replace (Sitemap._fetch_xml Examples.broken_child_web
             "https://a.com/sitemap.xml")
    with (Ok (Sitemap.Root "sitemapindex" [] ["https://a.com/child.xml"]))
    by (vm_compute; reflexivity).
  reflexivity.
Qed.

(** ** The priority crawler *)

Section CrawlerFacts.
Import Crawler.

(** With the result cap reached the loop makes no further turn: whatever
    is left in the frontier stays there. *)
Lemma crawl_loop_at_cap (fetch : site) (max_urls max_depth : Z)
    (root_domain : option string) (allow_same_root_subdomains : bool)
    (polite_delay : bool) (max_retries : Z) (fuel : nat) (st : state) :
  max_urls <= Z.of_nat (length (results st)) ->
  crawl_loop fetch max_urls max_depth root_domain allow_same_root_subdomains
    polite_delay max_retries fuel st = Some (Ok st).
Proof.
  intros Hcap. destruct fuel; simpl.
  - destruct (queue st) as [|[[[? ?] ?] ?] q]; [reflexivity|].
    destruct (Z.ltb_spec (Z.of_nat (length (results st))) max_urls);
      [lia|reflexivity].
  - destruct (queue st) as [|[[[? ?] ?] ?] q]; [reflexivity|].
    destruct (Z.ltb_spec (Z.of_nat (length (results st))) max_urls);
      [lia|reflexivity].
Qed.

End CrawlerFacts.

(** C7. When the first request for a URL is answered 404, the retry loop
    ends there: one [session.get] for the URL, no back-off sleep, no
    response kept and no error recorded, whatever [max_retries >= 0] is. *)
Theorem not_found_is_not_retried (fetch : Crawler.site) (polite_delay : bool)
    (max_retries : Z) (current : string) (r : Crawler.response) :
  0 <= max_retries ->
  fetch current 0%nat = Crawler.Responds r ->
  Crawler.status_code r = 404 ->
  exists tr,
    Crawler.fetch_with_retry fetch polite_delay max_retries current
    = (None, None, tr) /\
    filter Crawler.is_get tr = [Crawler.Get current 0] /\
    filter Crawler.is_backoff tr = [].
Proof.
  intros Hm Hf Hs. unfold Crawler.fetch_with_retry.
  replace (Z.to_nat (max_retries + 1)) with (S (Z.to_nat max_retries)) by lia.
  cbn [seq Crawler.retry_loop]. rewrite Hf, Hs. cbn [Z.eqb Pos.eqb].
  destruct polite_delay; eexists; repeat split; reflexivity.
Qed.

Lemma not_found_is_not_retried_witness :
  exists tr,
    Crawler.fetch_with_retry
      (fun url _ => Examples.html_page url 404 "Not Found" []) true 4
      "https://a.com/gone"
    = (None, None, tr) /\
    filter Crawler.is_get tr = [Crawler.Get "https://a.com/gone" 0] /\
    filter Crawler.is_backoff tr = [].
Proof.
  apply (not_found_is_not_retried
           (fun url _ => Examples.html_page url 404 "Not Found" []) true 4
           "https://a.com/gone"
           (Crawler.mkResponse 404 None (Some "text/html") "Not Found"
              "https://a.com/gone" (Some []) None));
    [lia | reflexivity | reflexivity].
Defined.

(** C3. A crawl with [max_urls = 2] of a home page that links to two pages:
    after the home page and the first linked page the cap is reached and the
    loop ends; the second linked page is still in the frontier and was never
    requested.  In general the loop makes no turn once the cap is reached. *)
Theorem crawl_leaves_frontier_at_cap :
  (exists st,
     Crawler.crawl_site Examples.small_site 2 2 None false true 4 10
       "https://a.com/" ["a.com"] None = Some (Ok st) /\
     Crawler.results st = ["https://a.com/"; "https://a.com/p1"] /\
     map Crawler.entry_url (Crawler.queue st) = ["https://a.com/p2"] /\
     filter Crawler.is_get (Crawler.trace st)
     = [Crawler.Get "https://a.com/" 0; Crawler.Get "https://a.com/p1" 0]) /\
  (forall fetch max_urls max_depth root_domain allow_same_root_subdomains
          polite_delay max_retries fuel st,
     max_urls <= Z.of_nat (length (Crawler.results st)) ->
     Crawler.crawl_loop fetch max_urls max_depth root_domain
       allow_same_root_subdomains polite_delay max_retries fuel st
     = Some (Ok st)).
Proof.
  split.
  - eexists. split; [vm_compute; reflexivity|]. repeat split.
  - intros. now apply crawl_loop_at_cap.
Qed.

Section RetryFacts.
Import Crawler.

Variable fetch : site.
Variable polite_delay : bool.
Variable max_retries : Z.
Variable current : string.

(** Every request for [current] is answered 429 or one of the retried 5xx
    statuses. *)
Hypothesis always_retried : forall attempt, exists r,
  fetch current attempt = Responds r /\
  (status_code r = 429 \/ In (status_code r) [500; 502; 503; 504; 520]).

(** What the loop makes of such a response: the back-off of the branch for
    429 or of the branch for 5xx, or the [except] branch when the back-off
    raises. *)
Lemma retry_loop_retried_step (attempt : nat) (rest : list nat)
    (resp : option response) (last_err : option exn) (tr : list event)
    (r : response) :
  fetch current attempt = Responds r ->
  status_code r = 429 \/ In (status_code r) [500; 502; 503; 504; 520] ->
  let tr1 := ((if polite_delay then (tr ++ [PoliteSleep current])%list
               else tr) ++ [Get current attempt])%list in
  exists b,
    retry_loop fetch polite_delay max_retries current (attempt :: rest) resp
      last_err tr
    = match backoff_error r with
      | None =>
          retry_loop fetch polite_delay max_retries current rest (Some r)
            last_err (tr1 ++ [BackoffSleep current b])%list
      | Some e =>
          if Z.leb max_retries (Z.of_nat attempt) then (None, Some e, tr1)
          else retry_loop fetch polite_delay max_retries current rest
                 (Some r) (Some e)
                 (tr1 ++ [BackoffSleep current (BackoffError attempt)])%list
      end.
Proof.
  intros Hr Hs tr1. cbn [retry_loop]. rewrite Hr. fold tr1.
  destruct Hs as [Hs|Hs].
  - rewrite Hs. cbn [Z.eqb Pos.eqb].
    exists (Backoff429 attempt (retry_after r)).
    destruct (backoff_error r); reflexivity.
  - assert (H404 : Z.eqb (status_code r) 404 = false).
    { simpl in Hs. apply Z.eqb_neq. intuition lia. }
    assert (H429 : Z.eqb (status_code r) 429 = false).
    { simpl in Hs. apply Z.eqb_neq. intuition lia. }
    assert (H5 : existsb (Z.eqb (status_code r)) [500; 502; 503; 504; 520]
                 = true).
    { apply existsb_exists. exists (status_code r). split; [exact Hs|].
      apply Z.eqb_refl. }
    rewrite H404, H429, H5. exists (Backoff5xx attempt).
    destruct (backoff_error r); reflexivity.
Qed.

Lemma retry_loop_exhausted (n a : nat) (resp : option response)
    (last_err : option exn) (tr : list event) :
  Z.of_nat (a + n)%nat = max_retries ->
  exists r tr',
    fetch current (a + n)%nat = Responds r /\
    length (filter is_get tr') = (length (filter is_get tr) + S n)%nat /\
    match backoff_error r with
    | None =>
        exists last_err',
          retry_loop fetch polite_delay max_retries current (seq a (S n))
            resp last_err tr
          = (Some r, last_err', tr')
    | Some e =>
        retry_loop fetch polite_delay max_retries current (seq a (S n))
          resp last_err tr
        = (None, Some e, tr')
    end.
Proof.
  revert a resp last_err tr.
  induction n as [|n IH]; intros a resp last_err tr Hm.
  - destruct (always_retried a) as (r & Hr & Hs).
    destruct (retry_loop_retried_step a [] resp last_err tr r Hr Hs)
      as (b & Heq).
    cbn [seq]. rewrite Heq. clear Heq.
    set (tr1 := ((if polite_delay then (tr ++ [PoliteSleep current])%list
                  else tr) ++ [Get current a])%list).
    assert (Htr1 : length (filter is_get tr1)
                   = S (length (filter is_get tr))).
    { unfold tr1. destruct polite_delay;
        rewrite !filter_app, !length_app; simpl; lia. }
    replace (a + 0)%nat with a by lia. 
    destruct (backoff_error r) as [e|] eqn:Hb.
    + exists r, tr1. split; [exact Hr|]. split; [lia|].
      rewrite Hb.
      destruct (Z.leb_spec max_retries (Z.of_nat a)); [reflexivity|lia].
    + exists r, (tr1 ++ [BackoffSleep current b])%list.
      split; [exact Hr|]. split.
      * rewrite filter_app, length_app, Htr1. simpl. lia.
      * rewrite Hb. exists last_err. reflexivity.
  - destruct (always_retried a) as (r & Hr & Hs).
    destruct (retry_loop_retried_step a (seq (S a) (S n)) resp last_err tr r
                Hr Hs) as (b & Heq).
    change (seq a (S (S n))) with (a :: seq (S a) (S n)). rewrite Heq.
    clear Heq.
    set (tr1 := ((if polite_delay then (tr ++ [PoliteSleep current])%list
                  else tr) ++ [Get current a])%list).
    assert (Htr1 : length (filter is_get tr1)
                   = S (length (filter is_get tr))).
    { unfold tr1. destruct polite_delay;
        rewrite !filter_app, !length_app; simpl; lia. }
    replace (a + S n)%nat with (S a + n)%nat by lia.
    destruct (backoff_error r) as [e|].
    + destruct (Z.leb_spec max_retries (Z.of_nat a)); [lia|].
      destruct (IH (S a) (Some r) (Some e)
                  (tr1 ++ [BackoffSleep current (BackoffError a)])%list)
        as (r' & tr' & Hr' & Hlen & Hres); [lia|].
      exists r', tr'. split; [exact Hr'|]. split; [|exact Hres].
      rewrite Hlen, filter_app, length_app, Htr1. simpl. lia.
    + destruct (IH (S a) (Some r) last_err
                  (tr1 ++ [BackoffSleep current b])%list)
        as (r' & tr' & Hr' & Hlen & Hres); [lia|].
      exists r', tr'. split; [exact Hr'|]. split; [|exact Hres].
      rewrite Hlen, filter_app, length_app, Htr1. simpl. lia.
Qed.

(** The retry loop then makes all its attempts, and ends with the last
    response in hand unless the back-off after the last attempt raises:
    only then is [resp is None] true afterwards. *)
Lemma exhausted_retries_keep_response :
  0 <= max_retries ->
  exists r tr,
    fetch current (Z.to_nat max_retries) = Responds r /\
    length (filter is_get tr) = Z.to_nat (max_retries + 1) /\
    match backoff_error r with
    | None =>
        exists last_err,
          fetch_with_retry fetch polite_delay max_retries current
          = (Some r, last_err, tr)
    | Some e =>
        fetch_with_retry fetch polite_delay max_retries current
        = (None, Some e, tr)
    end.
Proof.
  intros Hm. unfold fetch_with_retry.
  replace (Z.to_nat (max_retries + 1)) with (S (Z.to_nat max_retries)) by lia.
  destruct (retry_loop_exhausted (Z.to_nat max_retries) 0 None None [])
    as (r & tr' & Hr & Hlen & Hres); [lia|].
  exists r, tr'. split; [exact Hr|]. split; [exact Hlen|exact Hres].
Qed.

End RetryFacts.

(** C4. When every attempt for a URL is answered 429 or a retried 5xx
    status, the retry loop makes its [max_retries + 1] requests and ends with
    the last response in hand, not with [None], unless the back-off after
    the last attempt raises: the [continue] of these branches leaves [resp]
    bound.  This is for [max_retries] up to 34, where the sleeps of the
    [except] branch are delays the clock holds.  On a site that answers 520
    to everything, a status the retry list of the caller's session does not
    hold, the crawler so appends the URL to its results and records no
    failure in the sink that was supplied. *)
Theorem exhausted_retries_keep_url_as_result :
  (forall (fetch : Crawler.site) (polite_delay : bool) (max_retries : Z)
          (current : string),
     0 <= max_retries <= 34 ->
     (forall attempt, exists r,
        fetch current attempt = Crawler.Responds r /\
        (Crawler.status_code r = 429
         \/ In (Crawler.status_code r) [500; 502; 503; 504; 520])) ->
     exists r tr,
       fetch current (Z.to_nat max_retries) = Crawler.Responds r /\
       length (filter Crawler.is_get tr) = Z.to_nat (max_retries + 1) /\
       match Crawler.backoff_error r with
       | None =>
           exists last_err,
             Crawler.fetch_with_retry fetch polite_delay max_retries current
             = (Some r, last_err, tr)
       | Some e =>
           Crawler.fetch_with_retry fetch polite_delay max_retries current
           = (None, Some e, tr)
       end) /\
  (exists st,
     Crawler.crawl_site Examples.origin_error_site 10 2 None false true 4 10
       "https://a.com/" ["a.com"] (Some []) = Some (Ok st) /\
     length (filter Crawler.is_get (Crawler.trace st)) = 5%nat /\
     Crawler.results st = ["https://a.com/"] /\
     Crawler.failed_urls st = Some []).
Proof.
  split.
  - intros fetch polite_delay max_retries current [Hm _] Hall.
    now apply exhausted_retries_keep_response.
  - eexists. split; [vm_compute; reflexivity|]. repeat split.
Qed.

(** ** Sorting *)

Lemma strict_total_le_trans {K : Type} (lt : K -> K -> bool) :
  strict_total lt ->
  forall a b c, lt b a = false -> lt c b = false -> lt c a = false.
Proof.
  intros [Hasym Htrans Htri] a b c Hba Hcb.
  destruct (lt c a) eqn:Hca; [|reflexivity].
  destruct (lt a b) eqn:Hab.
  - destruct (lt b c) eqn:Hbc.
    + pose proof (Htrans _ _ _ Hab Hbc) as Hac.
      apply Hasym in Hac. congruence.
    + pose proof (Htri _ _ Hbc Hcb). subst. apply Hasym in Hab. congruence.
  - pose proof (Htri _ _ Hab Hba). subst. congruence.
Qed.

Lemma Z_ltb_strict_total : strict_total Z.ltb.
Proof.
  split; intros *; rewrite ?Z.ltb_lt, ?Z.ltb_ge; lia.
Qed.

Lemma string_ltb_strict_total : strict_total String.ltb.
Proof.
  split; unfold String.ltb.
  - intros a b. rewrite (String.compare_antisym b a).
    destruct (String.compare a b); simpl; congruence.
  - intros a b c Hab Hbc.
    destruct (String.compare a b) eqn:H1; try discriminate.
    destruct (String.compare b c) eqn:H2; try discriminate.
    apply OrderedTypeEx.String_as_OT.cmp_lt in H1, H2.
    pose proof (OrderedTypeEx.String_as_OT.lt_trans _ _ _ H1 H2) as H3.
    apply OrderedTypeEx.String_as_OT.cmp_lt in H3.
    unfold OrderedTypeEx.String_as_OT.cmp in H3. now rewrite H3.
  - intros a b Hab Hba. rewrite (String.compare_antisym b a) in Hba.
    destruct (String.compare a b) eqn:H1; simpl in *; try discriminate.
    now apply String.compare_eq_iff.
Qed.

Lemma lex_lt_strict_total {K1 K2 : Type} (lt1 : K1 -> K1 -> bool)
    (lt2 : K2 -> K2 -> bool) :
  strict_total lt1 -> strict_total lt2 -> strict_total (lex_lt lt1 lt2).
Proof.
  intros H1 H2.
  pose proof (lt_asym _ H1) as A1. pose proof (lt_trans _ H1) as T1.
  pose proof (lt_tricho _ H1) as E1. pose proof (strict_total_le_trans _ H1) as L1.
  pose proof (lt_asym _ H2) as A2. pose proof (lt_trans _ H2) as T2.
  pose proof (lt_tricho _ H2) as E2.
  split; unfold lex_lt.
  - intros [a1 a2] [b1 b2]; simpl.
    destruct (lt1 a1 b1) eqn:Hab; simpl.
    + intros _. now rewrite (A1 _ _ Hab).
    + destruct (lt1 b1 a1) eqn:Hba; simpl; [discriminate|]. apply A2.
  - intros [a1 a2] [b1 b2] [c1 c2]; simpl.
    destruct (lt1 a1 b1) eqn:Hab; simpl.
    + intros _. destruct (lt1 b1 c1) eqn:Hbc; simpl.
      * intros _. now rewrite (T1 _ _ _ Hab Hbc).
      * destruct (lt1 c1 b1) eqn:Hcb; simpl; [discriminate|].
        intros _. rewrite <- (E1 _ _ Hbc Hcb). now rewrite Hab.
    + destruct (lt1 b1 a1) eqn:Hba; simpl; [discriminate|].
      rewrite (E1 _ _ Hab Hba). intros H.
      destruct (lt1 b1 c1) eqn:Hbc; simpl; [reflexivity|].
      destruct (lt1 c1 b1) eqn:Hcb; simpl; [discriminate|].
      intros H'. apply (T2 _ _ _ H H').
  - intros [a1 a2] [b1 b2]; simpl.
    destruct (lt1 a1 b1) eqn:Hab; simpl; [discriminate|].
    destruct (lt1 b1 a1) eqn:Hba; simpl; [discriminate|].
    intros H H'. now rewrite (E1 _ _ Hab Hba), (E2 _ _ H H').
Qed.

Lemma key_lt_is_lex (a b : string * Z * string) :
  Filters.key_lt a b
  = lex_lt (lex_lt String.ltb Z.ltb) String.ltb a b.
Proof.
  destruct a as [[ga sa] pa], b as [[gb sb] pb].
  unfold Filters.key_lt, lex_lt, String.ltb; simpl.
  rewrite (String.compare_antisym gb ga).
  destruct (String.compare ga gb) eqn:Hg; simpl;
    destruct (Z.ltb sa sb), (Z.ltb sb sa); reflexivity.
Qed.

Lemma key_lt_strict_total : strict_total Filters.key_lt.
Proof.
  pose proof (lex_lt_strict_total _ _
                (lex_lt_strict_total _ _ string_ltb_strict_total
                   Z_ltb_strict_total)
                string_ltb_strict_total) as [A T E].
  split; intros *; rewrite !key_lt_is_lex; [apply A|apply T|apply E].
Qed.

Section SortingFacts.

Context {A K : Type}.
Variable key : A -> K.
Variable lt : K -> K -> bool.
Hypothesis lt_total : strict_total lt.

Lemma insert_sorted_perm (x : A) (l : list A) :
  Permutation (insert_sorted key lt x l) (x :: l).
Proof.
  induction l as [|y r IH]; simpl; [reflexivity|].
  destruct (lt (key y) (key x)); [|reflexivity].
  rewrite IH. apply perm_swap.
Qed.

Lemma sorted_perm (l : list A) : Permutation (sorted key lt l) l.
Proof.
  induction l as [|x r IH]; simpl; [reflexivity|].
  rewrite insert_sorted_perm. now rewrite IH.
Qed.

Lemma insert_sorted_ordered (x : A) (l : list A) :
  StronglySorted (ordered key lt) l ->
  StronglySorted (ordered key lt) (insert_sorted key lt x l).
Proof.
  induction l as [|y r IH]; simpl; intros Hs.
  - constructor; constructor.
  - apply StronglySorted_inv in Hs as [Hr Hy].
    destruct (lt (key y) (key x)) eqn:Hyx.
    + constructor; [now apply IH|].
      rewrite Forall_forall. intros z Hz.
      rewrite insert_sorted_perm in Hz.
      apply elem_of_cons in Hz as [->|Hz].
      * unfold ordered. now apply (lt_asym _ lt_total).
      * rewrite Forall_forall in Hy. now apply Hy.
    + constructor; [now constructor|].
      constructor; [exact Hyx|].
      rewrite Forall_forall in *. intros z Hz. unfold ordered in *.
      apply (strict_total_le_trans _ lt_total _ (key y)); [exact Hyx|].
      now apply Hy.
Qed.

Lemma sorted_ordered (l : list A) : StronglySorted (ordered key lt) (sorted key lt l).
Proof.
  induction l as [|x r IH]; simpl; [constructor|].
  now apply insert_sorted_ordered.
Qed.

(** Sorting a sorted list changes nothing. *)
Lemma sorted_id (l : list A) : StronglySorted (ordered key lt) l -> sorted key lt l = l.
Proof.
  induction l as [|x r IH]; simpl; intros Hs; [reflexivity|].
  apply StronglySorted_inv in Hs as [Hr Hx]. rewrite (IH Hr).
  destruct r as [|y r']; [reflexivity|]. simpl.
  apply Forall_inv in Hx. unfold ordered in Hx. now rewrite Hx.
Qed.

Lemma firstn_ordered (n : nat) (l : list A) :
  StronglySorted (ordered key lt) l -> StronglySorted (ordered key lt) (firstn n l).
Proof.
  revert n. induction l as [|x r IH]; intros [|n] Hs; simpl;
    try constructor.
  - apply IH. now apply StronglySorted_inv in Hs.
  - apply StronglySorted_inv in Hs as [_ Hx].
    rewrite Forall_forall in *. intros z Hz. apply Hx.
    now apply (subseteq_take n r).
Qed.

(** In a sorted list, what [l[:n]] keeps may stand before what it drops. *)
Lemma firstn_before_skipn (n : nat) (l : list A) (x y : A) :
  StronglySorted (ordered key lt) l ->
  x ∈ firstn n l -> y ∈ skipn n l -> ordered key lt x y.
Proof.
  revert n. induction l as [|z r IH]; intros [|n] Hs; simpl.
  - intros H. by apply elem_of_nil in H.
  - intros H. by apply elem_of_nil in H.
  - intros H. by apply elem_of_nil in H.
  - apply StronglySorted_inv in Hs as [Hr Hz]. intros Hx Hy.
    apply elem_of_cons in Hx as [->|Hx].
    + rewrite Forall_forall in Hz. apply Hz. now apply (subseteq_drop n r).
    + now apply (IH n).
Qed.

End SortingFacts.

Section SortFilter.
Context {A K : Type}.
Variable key : A -> K.
Variable lt : K -> K -> bool.
Hypothesis lt_total : strict_total lt.
Variable P : A -> Prop.
Context `{Pdec : !forall x, Decision (P x)}.

Lemma insert_sorted_front (x : A) (l : list A) :
  Forall (ordered key lt x) l -> insert_sorted key lt x l = x :: l.
Proof.
  destruct l as [|y r]; [reflexivity|]. intros H. apply Forall_inv in H.
  unfold ordered in H. simpl. now rewrite H.
Qed.

Lemma filter_insert_sorted (x : A) (l : list A) :
  StronglySorted (ordered key lt) l -> P x ->
  filter P (insert_sorted key lt x l) = insert_sorted key lt x (filter P l).
Proof.
  intros Hs Hx. induction l as [|y r IH]; simpl.
  - now rewrite filter_cons_True.
  - apply StronglySorted_inv in Hs as [Hr Hy].
    destruct (lt (key y) (key x)) eqn:Hyx.
    + rewrite !filter_cons. destruct (decide (P y)).
      * simpl. rewrite Hyx. now rewrite IH.
      * now apply IH.
    + rewrite filter_cons_True by exact Hx.
      symmetry. apply insert_sorted_front.
      rewrite Forall_forall. intros z Hz.
      apply list_elem_of_filter in Hz as [_ Hz].
      apply elem_of_cons in Hz as [->|Hz]; [exact Hyx|].
      rewrite Forall_forall in Hy. unfold ordered in *.
      apply (strict_total_le_trans _ lt_total _ (key y)); [exact Hyx|].
      now apply Hy.
Qed.

Lemma filter_insert_sorted_out (x : A) (l : list A) :
  ~ P x -> filter P (insert_sorted key lt x l) = filter P l.
Proof.
  intros Hx. induction l as [|y r IH]; simpl.
  - now rewrite filter_cons_False.
  - destruct (lt (key y) (key x)).
    + rewrite !filter_cons. now rewrite IH.
    + now rewrite filter_cons_False.
Qed.

Lemma filter_sorted (l : list A) :
  filter P (sorted key lt l) = sorted key lt (filter P l).
Proof.
  induction l as [|x r IH]; simpl; [reflexivity|].
  rewrite filter_cons. destruct (decide (P x)).
  - rewrite filter_insert_sorted; [|now apply sorted_ordered|assumption].
    simpl. now rewrite IH.
  - now rewrite filter_insert_sorted_out.
Qed.
End SortFilter.

Lemma filter_all {A : Type} (P : A -> Prop) `{Pdec : !forall x, Decision (P x)}
    (l : list A) :
  (forall x, x ∈ l -> P x) -> filter P l = l.
Proof.
  induction l as [|x r IH]; intros H; [reflexivity|].
  rewrite filter_cons_True by (apply H, list_elem_of_here).
  f_equal. apply IH. intros y Hy. apply H. now apply list_elem_of_further.
Qed.

Lemma filter_none {A : Type} (P : A -> Prop) `{Pdec : !forall x, Decision (P x)}
    (l : list A) :
  (forall x, x ∈ l -> ~ P x) -> filter P l = [].
Proof.
  induction l as [|x r IH]; intros H; [reflexivity|].
  rewrite filter_cons_False by (apply H, list_elem_of_here).
  apply IH. intros y Hy. apply H. now apply list_elem_of_further.
Qed.

(** ** The classifier and the per-group limits *)

Section ClassifierFacts.
Import Filters Generator.

Variable re_search : string -> string -> bool.
Variable title : string -> string.

Lemma filter_and_group_urls_sorted (cfg : Config) (urls : list string)
    (pages : list PageEntry) :
  filter_and_group_urls re_search title cfg urls = Ok pages ->
  StronglySorted (ordered page_key key_lt) pages.
Proof.
  unfold filter_and_group_urls.
  destruct (classify_all re_search title cfg urls) as [results|e];
    simpl; [|discriminate].
  intros [= <-]. apply sorted_ordered, key_lt_strict_total.
Qed.

Lemma apply_group_limits_sorted (group_limits : gmap string Z)
    (default_limit : option Z) (pages : list PageEntry) :
  StronglySorted (ordered page_key key_lt) pages ->
  StronglySorted (ordered page_key key_lt)
    (apply_group_limits group_limits default_limit pages).
Proof.
  intros Hs. unfold apply_group_limits.
  destruct (_ || _)%bool; [|exact Hs].
  apply sorted_ordered, key_lt_strict_total.
Qed.

Lemma group_entry_add (g : string) (p : PageEntry)
    (by_group : list (string * list PageEntry)) :
  group_entry g (add_to_group p by_group)
  = if String.eqb (p_group p) g
    then (group_entry g by_group ++ [p])%list
    else group_entry g by_group.
Proof.
  induction by_group as [|[g' ps] rest IH]; simpl.
  - reflexivity.
  - destruct (String.eqb_spec g' (p_group p)) as [->|Hne]; simpl.
    + destruct (String.eqb (p_group p) g); reflexivity.
    + destruct (String.eqb_spec g' g) as [->|Hne'].
      * destruct (String.eqb_spec (p_group p) g); [congruence|reflexivity].
      * exact IH.
Qed.

Lemma in_group_snoc (g : string) (l : list PageEntry) (p : PageEntry) :
  in_group g (l ++ [p])
  = if String.eqb (p_group p) g then (in_group g l ++ [p])%list
    else in_group g l.
Proof.
  unfold in_group. rewrite filter_app, filter_cons, filter_nil.
  destruct (String.eqb_spec (p_group p) g).
  - now rewrite decide_True.
  - rewrite decide_False by assumption. now rewrite app_nil_r.
Qed.

Lemma group_entry_fold (g : string) (todo done : list PageEntry)
    (by_group : list (string * list PageEntry)) :
  group_entry g by_group = in_group g done ->
  group_entry g (fold_left (fun acc p => add_to_group p acc) todo by_group)
  = in_group g (done ++ todo).
Proof.
  revert done by_group. induction todo as [|p rest IH]; intros done acc H.
  - simpl. now rewrite app_nil_r.
  - simpl. replace (done ++ p :: rest)%list with ((done ++ [p]) ++ rest)%list
      by now rewrite <- app_assoc.
    apply IH. rewrite group_entry_add, in_group_snoc, H. reflexivity.
Qed.

Lemma group_entry_group_pages (g : string) (pages : list PageEntry) :
  group_entry g (group_pages pages) = in_group g pages.
Proof. apply (group_entry_fold g pages [] []). reflexivity. Qed.

Lemma add_to_group_keys (p : PageEntry)
    (by_group : list (string * list PageEntry)) :
  map fst (add_to_group p by_group)
  = if bool_decide (p_group p ∈ map fst by_group) then map fst by_group
    else (map fst by_group ++ [p_group p])%list.
Proof.
  induction by_group as [|[g' ps] rest IH]; simpl; [reflexivity|].
  destruct (String.eqb_spec g' (p_group p)) as [->|Hne]; simpl.
  - rewrite bool_decide_eq_true_2 by apply list_elem_of_here. reflexivity.
  - rewrite IH. destruct (bool_decide (p_group p ∈ map fst rest)) eqn:Hin.
    + apply bool_decide_eq_true in Hin.
      rewrite bool_decide_eq_true_2 by now apply list_elem_of_further.
      reflexivity.
    + apply bool_decide_eq_false in Hin.
      rewrite bool_decide_eq_false_2; [reflexivity|].
      intros H. apply elem_of_cons in H as [H|H]; congruence.
Qed.

Lemma add_to_group_elem (p : PageEntry) (g : string) (ps : list PageEntry)
    (by_group : list (string * list PageEntry)) :
  (g, ps) ∈ add_to_group p by_group ->
  (g, ps) ∈ by_group
  \/ (g = p_group p /\
      (ps = [p] \/ exists ps0, (g, ps0) ∈ by_group /\ ps = (ps0 ++ [p])%list)).
Proof.
  induction by_group as [|[g' ps'] rest IH]; simpl.
  - intros H. apply list_elem_of_singleton in H as [= -> ->]. right. auto.
  - destruct (String.eqb_spec g' (p_group p)) as [->|Hne].
    + intros H. apply elem_of_cons in H as [[= -> ->]|H].
      * right. split; [reflexivity|]. right. exists ps'.
        split; [apply list_elem_of_here|reflexivity].
      * left. now apply list_elem_of_further.
    + intros H. apply elem_of_cons in H as [[= -> ->]|H].
      * left. apply list_elem_of_here.
      * destruct (IH H) as [H'|[-> [->|(ps0 & H0 & ->)]]].
        -- left. now apply list_elem_of_further.
        -- right. auto.
        -- right. split; [reflexivity|]. right. exists ps0.
           split; [now apply list_elem_of_further|reflexivity].
Qed.

Lemma well_grouped_add (p : PageEntry)
    (by_group : list (string * list PageEntry)) :
  well_grouped by_group -> well_grouped (add_to_group p by_group).
Proof.
  intros [Hnd Hg]. split.
  - rewrite add_to_group_keys.
    destruct (bool_decide (p_group p ∈ map fst by_group)) eqn:Hin;
      [exact Hnd|].
    apply bool_decide_eq_false in Hin. apply NoDup_app.
    split; [exact Hnd|]. split; [|apply NoDup_singleton].
    intros x Hx Hx'. apply list_elem_of_singleton in Hx'. congruence.
  - intros g ps q Hin Hq.
    destruct (add_to_group_elem p g ps by_group Hin)
      as [H|[-> [->|(ps0 & H0 & ->)]]].
    + now apply (Hg g ps).
    + apply list_elem_of_singleton in Hq. now subst.
    + apply elem_of_app in Hq as [Hq|Hq].
      * now apply (Hg _ ps0).
      * apply list_elem_of_singleton in Hq. now subst.
Qed.

Lemma well_grouped_group_pages (pages : list PageEntry) :
  well_grouped (group_pages pages).
Proof.
  unfold group_pages.
  assert (H : well_grouped []).
  { split; [constructor|]. intros g ps p Hin. by apply elem_of_nil in Hin. }
  revert H. generalize (@nil (string * list PageEntry)).
  induction pages as [|p rest IH]; intros acc H; simpl; [exact H|].
  apply IH. now apply well_grouped_add.
Qed.

Lemma group_entry_absent (g : string)
    (by_group : list (string * list PageEntry)) :
  g ∉ map fst by_group -> group_entry g by_group = [].
Proof.
  induction by_group as [|[g' ps] rest IH]; simpl; [reflexivity|].
  intros H. destruct (String.eqb_spec g' g) as [->|Hne].
  - exfalso. apply H. apply list_elem_of_here.
  - apply IH. intros H'. apply H. now apply list_elem_of_further.
Qed.

(** Of the pages kept group by group, those of group [g] come from the
    entry of [g]. *)
Lemma in_group_flat_map (g : string)
    (F : string -> list PageEntry -> list PageEntry)
    (by_group : list (string * list PageEntry)) :
  (forall g' ps q, q ∈ F g' ps -> q ∈ ps) ->
  well_grouped by_group ->
  in_group g (flat_map (fun '(g', ps) => F g' ps) by_group)
  = in_group g (F g (group_entry g by_group)).
Proof.
  intros HF. induction by_group as [|[g' ps] rest IH]; intros [Hnd Hg].
  - simpl. symmetry. apply filter_none. intros x Hx.
    apply HF in Hx. by apply elem_of_nil in Hx.
  - simpl in Hnd. apply NoDup_cons in Hnd as [Hg' Hnd].
    assert (Hrest : well_grouped rest).
    { split; [exact Hnd|]. intros g0 ps0 q Hin.
      apply (Hg g0 ps0). now apply list_elem_of_further. }
    simpl. unfold in_group at 1. rewrite filter_app. fold (in_group g (F g' ps)).
    fold (in_group g (flat_map (fun '(g', ps) => F g' ps) rest)).
    rewrite (IH Hrest).
    destruct (String.eqb_spec g' g) as [->|Hne].
    + rewrite (group_entry_absent g rest Hg').
      replace (in_group g (F g [])) with (@nil PageEntry).
      * now rewrite app_nil_r.
      * symmetry. apply filter_none. intros x Hx. apply HF in Hx.
        by apply elem_of_nil in Hx.
    + replace (in_group g (F g' ps)) with (@nil PageEntry); [reflexivity|].
      symmetry. apply filter_none. intros x Hx Hgx. apply HF in Hx.
      apply Hne. rewrite <- Hgx. symmetry. apply (Hg g' ps x);
        [apply list_elem_of_here|exact Hx].
Qed.

Lemma limit_group_subset (group_limits : gmap string Z)
    (default_limit : option Z) (g : string) (ps : list PageEntry)
    (q : PageEntry) :
  q ∈ limit_group group_limits default_limit g ps -> q ∈ ps.
Proof.
  unfold limit_group.
  destruct (match group_limits !! g with Some l => Some l | None => default_limit end)
    as [limit|]; [|auto].
  destruct (Z.leb limit 0); [auto|].
  intros H. apply (subseteq_take (Z.to_nat limit)) in H.
  now rewrite sorted_perm in H.
Qed.

Lemma strictly_sorted_by_score (l : list PageEntry) :
  StronglySorted (ordered (fun p => - p_score p) Z.ltb) l ->
  NoDup (map p_score l) ->
  StronglySorted score_above l.
Proof.
  induction l as [|x r IH]; intros Hs Hnd; [constructor|].
  apply StronglySorted_inv in Hs as [Hr Hx].
  apply NoDup_cons in Hnd as [Hnx Hnr].
  constructor; [now apply IH|].
  rewrite Forall_forall in *. intros y Hy. specialize (Hx y Hy).
  unfold ordered in Hx. apply Z.ltb_ge in Hx. unfold score_above.
  assert (p_score y <> p_score x).
  { intros Heq. apply Hnx. rewrite <- Heq.
    apply list_elem_of_In, in_map, list_elem_of_In, Hy. }
  lia.
Qed.

Lemma score_above_key_ordered (g : string) (l : list PageEntry) :
  (forall p, p ∈ l -> p_group p = g) ->
  StronglySorted score_above l ->
  StronglySorted (ordered page_key key_lt) l.
Proof.
  induction l as [|x r IH]; intros Hg Hs; [constructor|].
  apply StronglySorted_inv in Hs as [Hr Hx].
  constructor.
  - apply IH; [|exact Hr]. intros q Hq. apply Hg.
    now apply list_elem_of_further.
  - rewrite Forall_forall in *. intros y Hy. specialize (Hx y Hy).
    unfold ordered, page_key, key_lt, score_above in *.
    rewrite (Hg x) by apply list_elem_of_here.
    rewrite (Hg y) by now apply list_elem_of_further.
    replace (String.compare g g) with Eq
      by (symmetry; now apply OrderedTypeEx.String_as_OT.cmp_eq).
    destruct (Z.ltb_spec (- p_score y) (- p_score x)); [lia|].
    destruct (Z.ltb_spec (- p_score x) (- p_score y)); [reflexivity|lia].
Qed.

(** A group with a positive limit [k] and pairwise different scores keeps
    its [k] best entries, best first, whatever the other groups hold. *)
Lemma group_limit_keeps_best (group_limits : gmap string Z)
    (default_limit : option Z) (g : string) (k : Z)
    (pages : list PageEntry) :
  NoDup (map p_score (in_group g pages)) ->
  group_limits !! g = Some k -> 0 < k ->
  in_group g (apply_group_limits group_limits default_limit pages)
  = firstn (Z.to_nat k)
      (sorted (fun p => - p_score p) Z.ltb (in_group g pages)).
Proof.
  intros Hnd Hk Hpos. unfold apply_group_limits.
  assert (Hne : bool_decide (group_limits = ∅) = false).
  { apply bool_decide_eq_false. intros ->. by rewrite lookup_empty in Hk. }
  rewrite Hne. cbn [negb orb].
  unfold in_group at 1.
  rewrite (filter_sorted page_key key_lt key_lt_strict_total).
  fold (in_group g
          (flat_map (fun '(gname, gpages) =>
                       limit_group group_limits default_limit gname gpages)
                    (group_pages pages))).
  rewrite (in_group_flat_map g (limit_group group_limits default_limit));
    [|apply limit_group_subset|apply well_grouped_group_pages].
  rewrite group_entry_group_pages.
  set (blog := in_group g pages) in *.
  assert (Hblog : forall q, q ∈ blog -> p_group q = g).
  { intros q Hq. unfold blog, in_group in Hq.
    now apply list_elem_of_filter in Hq as [Hq _]. }
  unfold limit_group. rewrite Hk.
  destruct (Z.leb_spec k 0) as [?|_]; [lia|].
  pose proof (sorted_perm (fun p => - p_score p) Z.ltb blog) as Hperm.
  assert (Hkept : forall q,
             q ∈ firstn (Z.to_nat k)
                   (sorted (fun p => - p_score p) Z.ltb blog) ->
             p_group q = g).
  { intros q Hq. apply Hblog. rewrite <- Hperm.
    now apply (subseteq_take (Z.to_nat k)). }
  unfold in_group. rewrite (filter_all _ _ Hkept).
  apply sorted_id. apply (score_above_key_ordered g); [exact Hkept|].
  apply strictly_sorted_by_score.
  - apply firstn_ordered, sorted_ordered, Z_ltb_strict_total.
  - rewrite <- firstn_map.
    eapply sublist_NoDup; [|apply sublist_take].
    now rewrite (Permutation_map p_score Hperm).
Qed.

End ClassifierFacts.

Lemma scores_determine_entry {A : Type} (f : A -> Z) (l : list A) (x y : A) :
  NoDup (map f l) -> x ∈ l -> y ∈ l -> f x = f y -> x = y.
Proof.
  induction l as [|z r IH]; intros Hnd Hx Hy Heq.
  - by apply elem_of_nil in Hx.
  - simpl in Hnd. apply NoDup_cons in Hnd as [Hz Hr].
    assert (Hin : forall a, a ∈ r -> f a ∈ map f r).
    { intros a Ha. apply list_elem_of_In, in_map, list_elem_of_In, Ha. }
    apply elem_of_cons in Hx as [->|Hx], Hy as [->|Hy].
    + reflexivity.
    + exfalso. apply Hz. rewrite Heq. now apply Hin.
    + exfalso. apply Hz. rewrite <- Heq. now apply Hin.
    + now apply IH.
Qed.

(** C8. The list the classifier returns is sorted by
    (group ascending, score descending, path ascending), and the per-group
    limits return a list sorted in the same way.  When ten of the entries
    are in group [Blog], with pairwise different scores, and the limit for
    [Blog] is 3, exactly three entries of that group survive: the three
    with the highest scores, in decreasing order of score. *)
Theorem classifier_sorted_and_limit_keeps_best
    (re_search : string -> string -> bool) (title : string -> string)
    (cfg : Filters.Config) (urls : list string)
    (pages : list Filters.PageEntry)
    (group_limits : gmap string Z) (default_limit : option Z) :
  Filters.filter_and_group_urls re_search title cfg urls = Ok pages ->
  length (Generator.in_group "Blog" pages) = 10%nat ->
  NoDup (map Filters.p_score (Generator.in_group "Blog" pages)) ->
  group_limits !! "Blog" = Some 3 ->
  StronglySorted (ordered Filters.page_key Filters.key_lt) pages /\
  StronglySorted (ordered Filters.page_key Filters.key_lt)
    (Generator.apply_group_limits group_limits default_limit pages) /\
  length (Generator.in_group "Blog"
            (Generator.apply_group_limits group_limits default_limit pages))
  = 3%nat /\
  StronglySorted Generator.score_above
    (Generator.in_group "Blog"
       (Generator.apply_group_limits group_limits default_limit pages)) /\
  (forall q,
     q ∈ Generator.in_group "Blog"
           (Generator.apply_group_limits group_limits default_limit pages) ->
     q ∈ Generator.in_group "Blog" pages) /\
  (forall p q,
     p ∈ Generator.in_group "Blog" pages ->
     p ∉ Generator.apply_group_limits group_limits default_limit pages ->
     q ∈ Generator.in_group "Blog"
           (Generator.apply_group_limits group_limits default_limit pages) ->
     Filters.p_score p < Filters.p_score q).
Proof.
  intros Hpages Hlen Hnd Hk.
  pose proof (filter_and_group_urls_sorted _ _ _ _ _ Hpages) as Hsorted.
  split; [exact Hsorted|].
  split; [now apply apply_group_limits_sorted|].
  assert (Hout : forall p,
             p ∈ Generator.in_group "Blog"
                   (Generator.apply_group_limits group_limits default_limit
                      pages) ->
             p ∈ Generator.apply_group_limits group_limits default_limit
                   pages).
  { intros p Hp. unfold Generator.in_group in Hp.
    now apply list_elem_of_filter in Hp as [_ Hp]. }
  assert (Hin : forall p,
             Filters.p_group p = "Blog" ->
             p ∈ Generator.apply_group_limits group_limits default_limit
                   pages ->
             p ∈ Generator.in_group "Blog"
                   (Generator.apply_group_limits group_limits default_limit
                      pages)).
  { intros p Hg Hp. unfold Generator.in_group.
    apply list_elem_of_filter. now split. }
  revert Hout Hin.
  rewrite (group_limit_keeps_best group_limits default_limit "Blog" 3 pages)
    by (try assumption; lia).
  intros Hout Hin.
  set (blog := Generator.in_group "Blog" pages) in *.
  set (by_score := sorted (fun p => - Filters.p_score p) Z.ltb blog).
  pose proof (sorted_perm (fun p => - Filters.p_score p) Z.ltb blog) as Hperm.
  fold by_score in Hperm.
  pose proof (sorted_ordered (fun p => - Filters.p_score p) Z.ltb
                Z_ltb_strict_total blog) as Hord.
  fold by_score in Hord.
  assert (Hsub : forall q, q ∈ firstn (Z.to_nat 3) by_score -> q ∈ blog).
  { intros q Hq. rewrite <- Hperm. now apply (subseteq_take (Z.to_nat 3)). }
  split.
  { rewrite length_firstn, (Permutation_length Hperm), Hlen. reflexivity. }
  split.
  { apply strictly_sorted_by_score.
    - now apply firstn_ordered.
    - rewrite <- firstn_map.
      eapply sublist_NoDup; [|apply sublist_take].
      now rewrite (Permutation_map Filters.p_score Hperm). }
  split; [exact Hsub|].
  intros p q Hp Hnp Hq.
  assert (Hgp : Filters.p_group p = "Blog").
  { unfold blog, Generator.in_group in Hp.
    now apply list_elem_of_filter in Hp as [Hp _]. }
  assert (Hnp' : p ∉ firstn (Z.to_nat 3) by_score).
  { intros H. apply Hnp. now apply Hout. }
  assert (Hdrop : p ∈ skipn (Z.to_nat 3) by_score).
  { rewrite <- Hperm, <- (firstn_skipn (Z.to_nat 3) by_score) in Hp.
    apply elem_of_app in Hp as [Hp|Hp]; [contradiction|exact Hp]. }
  pose proof (firstn_before_skipn (fun p => - Filters.p_score p) Z.ltb
                (Z.to_nat 3) by_score q p Hord Hq Hdrop) as Hle.
  unfold ordered in Hle. apply Z.ltb_ge in Hle.
  assert (Filters.p_score p <> Filters.p_score q).
  { intros Heq. apply Hnp'.
    rewrite (scores_determine_entry Filters.p_score blog p q Hnd Hp
               (Hsub q Hq) Heq).
    exact Hq. }
  lia.
Qed.

Lemma classifier_sorted_and_limit_keeps_best_witness :
  Filters.filter_and_group_urls Examples.literal_search Examples.ascii_title
    Examples.blog_config Examples.site_urls = Ok Examples.site_pages /\
  length (Generator.in_group "Blog" Examples.site_pages) = 10%nat /\
  map Filters.p_url
    (Generator.apply_group_limits {["Blog" := 3]} None Examples.site_pages)
  = ["https://example.com/blog"; "https://example.com/blog/n1";
     "https://example.com/blog/n1/n2"; "https://example.com/docs/intro";
     "https://example.com/pricing"] /\
  StronglySorted Generator.score_above
    (Generator.in_group "Blog"
       (Generator.apply_group_limits {["Blog" := 3]} None
          Examples.site_pages)).
Proof.
  assert (H1 : Filters.filter_and_group_urls Examples.literal_search
                 Examples.ascii_title Examples.blog_config Examples.site_urls
               = Ok Examples.site_pages) by (vm_compute; reflexivity).
  assert (H2 : length (Generator.in_group "Blog" Examples.site_pages)
               = 10%nat) by (vm_compute; reflexivity).
  assert (H3 : NoDup (map Filters.p_score
                        (Generator.in_group "Blog" Examples.site_pages))).
  { replace (map Filters.p_score
               (Generator.in_group "Blog" Examples.site_pages))
      with [25; 23; 21; 19; 17; 15; 13; 11; 9; 7]
      by (vm_compute; reflexivity).
    apply NoDup_ListNoDup.
    repeat (constructor; [simpl; intuition discriminate|]). constructor. }
  assert (H4 : ({["Blog" := 3]} : gmap string Z) !! "Blog" = Some 3)
    by apply lookup_singleton_eq.
  split; [exact H1|]. split; [exact H2|].
  split; [vm_compute; reflexivity|].
  exact (proj1 (proj2 (proj2 (proj2
           (classifier_sorted_and_limit_keeps_best Examples.literal_search
              Examples.ascii_title Examples.blog_config Examples.site_urls
              Examples.site_pages {["Blog" := 3]} None
              H1 H2 H3 H4))))).
Defined.

Section ExclusionFacts.
Import Filters.

Variable re_search : string -> string -> bool.

Lemma existsb_elem_of {A : Type} (f : A -> bool) (l : list A) :
  existsb f l = true <-> exists x, x ∈ l /\ f x = true.
Proof.
  rewrite existsb_exists. split; intros (x & Hx & Hf); exists x;
    (split; [now apply list_elem_of_In|exact Hf]).
Qed.

(** With an include rule that matches, exclusion is by the exact-anchored
    exclude rules alone; without one, by every exclude rule. *)
Lemma is_excluded_spec (cfg : Config) (path : string) :
  is_excluded re_search cfg path = true <->
  exists r, r ∈ exclude_rules cfg /\ _match_rule re_search path r = true /\
            (existsb (_match_rule re_search path) (include cfg) = true ->
             exact_anchored r = true).
Proof.
  unfold is_excluded. destruct (exclude_rules cfg) as [|r0 rules] eqn:Hrules.
  - split; [discriminate|]. intros (r & Hr & _). by apply elem_of_nil in Hr.
  - destruct (existsb (_match_rule re_search path) (include cfg)).
    + rewrite existsb_elem_of. split.
      * intros (r & Hr & Hm). apply andb_true_iff in Hm as [Hm Ha].
        exists r. auto.
      * intros (r & Hr & Hm & Ha). exists r. split; [exact Hr|].
        now rewrite Hm, Ha.
    + rewrite existsb_elem_of. split.
      * intros (r & Hr & Hm). exists r. split; [exact Hr|].
        split; [exact Hm|discriminate].
      * intros (r & Hr & Hm & _). now exists r.
Qed.

End ExclusionFacts.

(** C5. With the include rule [^/docs] (group Docs) and the exclude rule
    [blog], which is not anchored, the classifier keeps the path
    [/docs/blog/post], in group Docs, whatever the other settings are.  In
    general, for a URL whose path passes the language test: when some include
    rule matches the path, the classifier drops the URL exactly when an
    exclude rule that starts with [^] and ends with [$] matches the path;
    when no include rule matches, exactly when some exclude rule matches
    it. *)
Theorem include_match_narrows_exclusion
    (re_search : string -> string -> bool) (title : string -> string)
    (base_url default_language : string)
    (auto_group use_default_excludes auto_filter_languages : bool)
    (docs_priority : Z) (blog_group : option string) (blog_priority : Z)
    (cfg : Filters.Config) (u path : string) :
  re_search "^/docs" "/docs/blog/post" = true ->
  is_ok (urlparse base_url) = true ->
  Filters._relative_path (Filters.base_url cfg) u = Ok path ->
  Filters.skipped_language cfg path = false ->
  Filters.classify re_search title
    (Filters.mkConfig base_url default_language
       [Filters.mkRule "^/docs" (Some "Docs") docs_priority]
       [Filters.mkRule "blog" blog_group blog_priority]
       auto_group use_default_excludes auto_filter_languages)
    "https://example.com/docs/blog/post"
  = Ok (Some (Filters.mkPage "https://example.com/docs/blog/post"
                "/docs/blog/post" "Docs" docs_priority
                (Filters._compute_score "Docs" docs_priority
                   "/docs/blog/post"))) /\
  (existsb (Filters._match_rule re_search path) (Filters.include cfg) = true ->
   (Filters.classify re_search title cfg u = Ok None <->
    exists r, r ∈ Filters.exclude_rules cfg
              /\ Filters._match_rule re_search path r = true
              /\ Filters.exact_anchored r = true)) /\
  (existsb (Filters._match_rule re_search path) (Filters.include cfg) = false ->
   (Filters.classify re_search title cfg u = Ok None <->
    exists r, r ∈ Filters.exclude_rules cfg
              /\ Filters._match_rule re_search path r = true)).
Proof.
  intros Hdocs Hbase Hpath Hlang.
  assert (Hdrop : Filters.classify re_search title cfg u = Ok None <->
                  Filters.is_excluded re_search cfg path = true).
  { unfold Filters.classify. rewrite Hpath. cbn [mbind result_bind].
    unfold Filters.skipped_language in Hlang. rewrite Hlang.
    destruct (Filters.is_excluded re_search cfg path); [tauto|].
    destruct (Filters.group_and_priority _ _ _ _ _) as [[g prio]|e];
      cbn [mbind result_bind]; split; discriminate. }
  split; [|split].
  - clear Hdrop Hpath Hlang.
    unfold Filters.classify, Filters._relative_path.
    cbn [Filters.base_url].
    destruct (urlparse base_url) as [base|e]; [|discriminate].
    replace (urlparse "https://example.com/docs/blog/post")
      with (Ok (mkParse "https" "example.com" "/docs/blog/post" "" "" ""))
      by (vm_compute; reflexivity).
    cbn -[Filters.is_excluded Filters.group_and_priority
          Filters._detect_language_prefix Filters._compute_score].
    replace (Filters._detect_language_prefix "/docs/blog/post")
      with (@None string) by (vm_compute; reflexivity).
    rewrite andb_false_r.
    assert (Hex : Filters.is_excluded re_search
                    (Filters.mkConfig base_url default_language
                       [Filters.mkRule "^/docs" (Some "Docs") docs_priority]
                       [Filters.mkRule "blog" blog_group blog_priority]
                       auto_group use_default_excludes auto_filter_languages)
                    "/docs/blog/post" = false).
    { destruct (Filters.is_excluded _ _ _) eqn:Hx; [|reflexivity].
      apply is_excluded_spec in Hx as (r & Hr & _ & Ha).
      assert (Hall : forallb (fun r => negb (Filters.exact_anchored r))
                       (Filters.exclude_rules
                          (Filters.mkConfig base_url default_language
                             [Filters.mkRule "^/docs" (Some "Docs")
                                docs_priority]
                             [Filters.mkRule "blog" blog_group blog_priority]
                             auto_group use_default_excludes
                             auto_filter_languages)) = true)
        by (destruct use_default_excludes; reflexivity).
      rewrite forallb_forall in Hall.
      specialize (Hall r (proj1 (list_elem_of_In _ _) Hr)).
      rewrite Ha in Hall; [discriminate|].
      unfold Filters._match_rule. simpl. now rewrite Hdocs. }
    rewrite Hex. unfold Filters.group_and_priority, Filters._match_rule.
    simpl. rewrite Hdocs. reflexivity.
  - intros Hinc. rewrite Hdrop, is_excluded_spec. split.
    + intros (r & Hr & Hm & Ha). exists r. auto.
    + intros (r & Hr & Hm & Ha). exists r. auto.
  - intros Hinc. rewrite Hdrop, is_excluded_spec. split.
    + intros (r & Hr & Hm & _). now exists r.
    + intros (r & Hr & Hm). exists r. split; [exact Hr|].
      split; [exact Hm|]. rewrite Hinc. discriminate.
Qed.

Lemma include_match_narrows_exclusion_witness :
  Examples.literal_search "^/docs" "/docs/blog/post" = true /\
  is_ok (urlparse "https://example.com") = true /\
  Filters._relative_path (Filters.base_url Examples.docs_config)
    "https://example.com/docs/blog/post" = Ok "/docs/blog/post" /\
  Filters.skipped_language Examples.docs_config "/docs/blog/post" = false /\
  Filters.classify Examples.literal_search Examples.ascii_title
    Examples.docs_config "https://example.com/docs/blog/post"
  = Ok (Some (Filters.mkPage "https://example.com/docs/blog/post"
                "/docs/blog/post" "Docs" 5 34)) /\
  (Filters.classify Examples.literal_search Examples.ascii_title
     Examples.docs_config "https://example.com/docs/blog/post" = Ok None <->
   exists r, r ∈ Filters.exclude_rules Examples.docs_config
             /\ Filters._match_rule Examples.literal_search
                  "/docs/blog/post" r = true
             /\ Filters.exact_anchored r = true).
Proof.
  split; [reflexivity|]. split; [reflexivity|].
  split; [vm_compute; reflexivity|]. split; [vm_compute; reflexivity|].
  destruct (include_match_narrows_exclusion Examples.literal_search
              Examples.ascii_title "https://example.com" "en"
              true false true 5 None 0 Examples.docs_config
              "https://example.com/docs/blog/post" "/docs/blog/post"
              eq_refl eq_refl eq_refl eq_refl) as (Hkeep & Hinc & _).
  split; [exact Hkeep|]. apply Hinc. vm_compute. reflexivity.
Defined.

(** * Further properties of the code *)

(** ** The final pass of the source collector, in general *)

Section DedupFacts.
Import Sitemap.

Variable allowed_domains : list string.
Variable global_max : Z.

Lemma dedup_loop_invariant (collected all : list string)
    (unique : list string) (normalized_seen : gset string)
    (out : list string) :
  (forall u, u ∈ collected -> u ∈ all) ->
  NoDup unique ->
  (forall n, n ∈ unique <-> n ∈ normalized_seen) ->
  (forall n, n ∈ unique -> canonical_of allowed_domains all n) ->
  Z.of_nat (length unique) < Z.max global_max 1 ->
  dedup_loop allowed_domains global_max collected unique normalized_seen
  = Ok out ->
  NoDup out /\ (forall n, n ∈ out -> canonical_of allowed_domains all n) /\
  Z.of_nat (length out) <= Z.max global_max 1.
Proof.
  revert unique normalized_seen.
  induction collected as [|u rest IH];
    intros unique seen Hall Hnd Hseen Hcan Hlen; simpl.
  - intros [= <-]. split; [exact Hnd|]. split; [exact Hcan|lia].
  - assert (Hrest : forall v, v ∈ rest -> v ∈ all).
    { intros v Hv. apply Hall. now apply list_elem_of_further. }
    destruct (_is_allowed_domain allowed_domains u) as [allowed|e] eqn:Ha;
      simpl; [|discriminate].
    destruct allowed; simpl; [|now apply IH].
    destruct (normalize_url u true true true) as [normalized|e] eqn:Hn;
      simpl; [|discriminate].
    destruct (decide (normalized ∈ seen)) as [Hin|Hnin].
    + destruct (Z.leb_spec global_max (Z.of_nat (length unique))).
      * intros [= <-]. split; [exact Hnd|]. split; [exact Hcan|lia].
      * now apply IH.
    + assert (Hnd' : NoDup (unique ++ [normalized])).
      { apply NoDup_app. split; [exact Hnd|]. split; [|apply NoDup_singleton].
        intros x Hx Hx'. apply list_elem_of_singleton in Hx'. subst.
        apply Hnin. now apply Hseen. }
      assert (Hcan' : forall n, n ∈ (unique ++ [normalized])%list ->
                                canonical_of allowed_domains all n).
      { intros n Hn'. apply elem_of_app in Hn' as [Hn'|Hn'].
        - now apply Hcan.
        - apply list_elem_of_singleton in Hn'. subst. exists u.
          split; [apply Hall, list_elem_of_here|]. now split. }
      assert (Hlen' : length (unique ++ [normalized]) = S (length unique))
        by (rewrite length_app; simpl; lia).
      destruct (Z.leb_spec global_max
                  (Z.of_nat (length (unique ++ [normalized])))).
      * intros [= <-]. split; [exact Hnd'|]. split; [exact Hcan'|lia].
      * apply IH; try assumption; [|lia].
        intros n. rewrite elem_of_app, list_elem_of_singleton, Hseen.
        set_solver.
Qed.

End DedupFacts.

(** X1. Whatever was collected, the list the final pass returns has no
    entry twice, holds only canonical forms of collected URLs that pass the
    same-site filter, and has at most [max_urls] entries (one entry when
    [max_urls] is below 1). *)
Theorem dedup_output_is_bounded_and_duplicate_free
    (allowed_domains : list string) (global_max : Z)
    (collected out : list string) :
  Sitemap.dedup_and_truncate allowed_domains global_max collected = Ok out ->
  NoDup out /\
  (forall n, n ∈ out ->
     exists u, u ∈ collected /\
               Sitemap._is_allowed_domain allowed_domains u = Ok true /\
               normalize_url u true true true = Ok n) /\
  Z.of_nat (length out) <= Z.max global_max 1.
Proof.
  intros H.
  apply (dedup_loop_invariant allowed_domains global_max collected collected
           [] ∅ out); try assumption.
  - auto.
  - constructor.
  - intros n. split; intros Hn; [by apply elem_of_nil in Hn|set_solver].
  - intros n Hn. by apply elem_of_nil in Hn.
  - simpl. lia.
Qed.

Lemma dedup_output_is_bounded_and_duplicate_free_witness :
  Sitemap.dedup_and_truncate ["a.com"] 2
    ["https://a.com/x"; "https://b.com/y"; "http://a.com/x/";
     "https://a.com/z#top"; "https://a.com/w"]
  = Ok ["https://a.com/x"; "https://a.com/z"] /\
  NoDup ["https://a.com/x"; "https://a.com/z"].
Proof.
  assert (H : Sitemap.dedup_and_truncate ["a.com"] 2
                ["https://a.com/x"; "https://b.com/y"; "http://a.com/x/";
                 "https://a.com/z#top"; "https://a.com/w"]
              = Ok ["https://a.com/x"; "https://a.com/z"])
    by (vm_compute; reflexivity).
  split; [exact H|].
  exact (proj1 (dedup_output_is_bounded_and_duplicate_free _ _ _ _ H)).
Defined.

(** X2. Scores stay within 0..200, and of two paths in the same group with
    the same priority the one with no more segments never scores lower,
    unless only the deeper one is the root path. *)
Theorem score_bounded_and_monotone_in_depth (group : string) (priority : Z)
    (shallow deep : string) :
  (length (Filters.segments shallow) <= length (Filters.segments deep))%nat ->
  (deep <> "/" /\ deep <> "") \/ shallow = "/" \/ shallow = "" ->
  0 <= Filters._compute_score group priority deep
  /\ Filters._compute_score group priority deep
     <= Filters._compute_score group priority shallow
  /\ Filters._compute_score group priority shallow <= 200.
Proof.
  intros Hlen Hroot. unfold Filters._compute_score.
  set (w := Filters._base_group_weight group).
  set (pw := if Z.ltb 0 priority then priority * 2 else 0).
  assert (Hbonus :
            (if (String.eqb deep "/" || is_empty deep)%bool then 1 else 0)
            <= (if (String.eqb shallow "/" || is_empty shallow)%bool
                then 1 else 0)).
  { destruct Hroot as [[H1 H2]|[->| ->]].
    - apply String.eqb_neq in H1. rewrite H1.
      destruct deep; [congruence|]. simpl.
      destruct (_ || _)%bool; lia.
    - simpl. destruct (_ || _)%bool; lia.
    - simpl. destruct (_ || _)%bool; lia. }
  destruct (String.eqb deep "/" || is_empty deep)%bool,
           (String.eqb shallow "/" || is_empty shallow)%bool; lia.
Qed.

Lemma score_bounded_and_monotone_in_depth_witness :
  Filters._compute_score "Docs" 2 "/docs/api/v1/users" = 26 /\
  Filters._compute_score "Docs" 2 "/docs/api/v1/users"
  <= Filters._compute_score "Docs" 2 "/docs/api".
Proof.
  split; [reflexivity|].
  apply (score_bounded_and_monotone_in_depth "Docs" 2 "/docs/api"
           "/docs/api/v1/users").
  - vm_compute. lia.
  - left. split; discriminate.
Defined.

(** ** The crawler, in general *)

Section RetryBounds.
Import Crawler.

Variable fetch : site.
Variable polite_delay : bool.
Variable max_retries : Z.
Variable current : string.

Lemma retry_loop_events (attempts : list nat) (resp : option response)
    (last_err : option exn) (tr : list event) :
  exists evs,
    snd (retry_loop fetch polite_delay max_retries current attempts resp
           last_err tr) = (tr ++ evs)%list /\
    (length (filter is_get evs) <= length attempts)%nat /\
    (attempts <> [] -> 1 <= length (filter is_get evs))%nat /\
    (length (filter is_backoff evs) <= length (filter is_get evs))%nat /\
    length (filter is_polite_sleep evs)
    = (if polite_delay then length (filter is_get evs) else 0%nat) /\
    Forall (fun e => event_url e = current) evs.
Proof.
  revert resp last_err tr.
  induction attempts as [|attempt rest IH]; intros resp last_err tr.
  - exists []. simpl. rewrite app_nil_r. repeat split; try lia.
    + congruence.
    + now destruct polite_delay.
    + constructor.
  - cbn [retry_loop].
    set (pre := if polite_delay then [PoliteSleep current] else []).
    assert (Htr : ((if polite_delay then (tr ++ [PoliteSleep current])%list
                    else tr) ++ [Get current attempt])%list
                  = (tr ++ (pre ++ [Get current attempt]))%list).
    { unfold pre. destruct polite_delay; now rewrite <- ?app_assoc. }
    rewrite Htr. clear Htr.
    set (tr1 := (tr ++ (pre ++ [Get current attempt]))%list).
    assert (Hstop : forall (r : option response) (e : option exn),
               exists evs,
                 snd (r, e, tr1) = (tr ++ evs)%list /\
                 (length (filter is_get evs) <= length (attempt :: rest))%nat /\
                 (attempt :: rest <> [] -> 1 <= length (filter is_get evs))%nat /\
                 (length (filter is_backoff evs)
                  <= length (filter is_get evs))%nat /\
                 length (filter is_polite_sleep evs)
                 = (if polite_delay then length (filter is_get evs)
                    else 0%nat) /\
                 Forall (fun e => event_url e = current) evs).
    { intros r e. exists (pre ++ [Get current attempt])%list.
      split; [reflexivity|]. unfold pre.
      destruct polite_delay; simpl; repeat split; try lia;
        repeat constructor. }
    assert (Hgo : forall (r : option response) (e : option exn) b,
               exists evs,
                 snd (retry_loop fetch polite_delay max_retries current rest
                        r e (tr1 ++ [BackoffSleep current b])%list)
                 = (tr ++ evs)%list /\
                 (length (filter is_get evs) <= length (attempt :: rest))%nat /\
                 (attempt :: rest <> [] -> 1 <= length (filter is_get evs))%nat /\
                 (length (filter is_backoff evs)
                  <= length (filter is_get evs))%nat /\
                 length (filter is_polite_sleep evs)
                 = (if polite_delay then length (filter is_get evs)
                    else 0%nat) /\
                 Forall (fun e => event_url e = current) evs).
    { intros r e b.
      destruct (IH r e (tr1 ++ [BackoffSleep current b])%list)
        as (evs & Heq & Hg & _ & Hb & Hp & Hall).
      exists ((pre ++ [Get current attempt]) ++ [BackoffSleep current b]
              ++ evs)%list.
      split.
      { rewrite Heq. unfold tr1. now rewrite <- !app_assoc. }
      rewrite !filter_app, !length_app. unfold pre.
      destruct polite_delay; simpl in *; repeat split; try lia.
      - repeat (constructor; [reflexivity|]). exact Hall.
      - repeat (constructor; [reflexivity|]). exact Hall. }
    destruct (fetch current attempt) as [r|msg].
    + assert (Herr : forall (o : option exn) b,
                 exists evs,
                   snd match o with
                       | Some e =>
                           if Z.leb max_retries (Z.of_nat attempt)
                           then (None, Some e, tr1)
                           else retry_loop fetch polite_delay max_retries
                                  current rest (Some r) (Some e)
                                  (tr1 ++ [BackoffSleep current
                                             (BackoffError attempt)])%list
                       | None =>
                           retry_loop fetch polite_delay max_retries current
                             rest (Some r) last_err
                             (tr1 ++ [BackoffSleep current b])%list
                       end
                   = (tr ++ evs)%list /\
                   (length (filter is_get evs)
                    <= length (attempt :: rest))%nat /\
                   (attempt :: rest <> []
                    -> 1 <= length (filter is_get evs))%nat /\
                   (length (filter is_backoff evs)
                    <= length (filter is_get evs))%nat /\
                   length (filter is_polite_sleep evs)
                   = (if polite_delay then length (filter is_get evs)
                      else 0%nat) /\
                   Forall (fun e => event_url e = current) evs).
      { intros [e|] b; [|apply Hgo].
        destruct (Z.leb max_retries (Z.of_nat attempt));
          [apply Hstop|apply Hgo]. }
      destruct (Z.eqb (status_code r) 404); [apply Hstop|].
      destruct (Z.eqb (status_code r) 429); [apply Herr|].
      destruct (existsb _ _); [apply Herr|].
      destruct (raise_for_status r); [|apply Hstop].
      destruct (Z.leb max_retries (Z.of_nat attempt));
        [apply Hstop|apply Hgo].
    + destruct (Z.leb max_retries (Z.of_nat attempt));
        [apply Hstop|apply Hgo].
Qed.

End RetryBounds.

(** X3. The retry loop for one URL makes at most [max_retries + 1] requests
    (and at least one when [max_retries] is not negative), all for that URL;
    it never backs off more often than it requests, and in polite mode it
    sleeps the politeness delay exactly once per request. *)
Theorem fetch_with_retry_is_bounded (fetch : Crawler.site)
    (polite_delay : bool) (max_retries : Z) (current : string) :
  0 <= max_retries ->
  exists resp last_err tr,
    Crawler.fetch_with_retry fetch polite_delay max_retries current
    = (resp, last_err, tr) /\
    (1 <= length (filter Crawler.is_get tr) <= Z.to_nat (max_retries + 1))%nat
    /\ (length (filter Crawler.is_backoff tr)
        <= length (filter Crawler.is_get tr))%nat
    /\ length (filter Crawler.is_polite_sleep tr)
       = (if polite_delay then length (filter Crawler.is_get tr) else 0%nat)
    /\ Forall (fun e => Crawler.event_url e = current) tr.
Proof.
  intros Hm. unfold Crawler.fetch_with_retry.
  destruct (retry_loop_events fetch polite_delay max_retries current
              (seq 0 (Z.to_nat (max_retries + 1))) None None [])
    as (evs & Heq & Hg & H1 & Hb & Hp & Hall).
  destruct (Crawler.retry_loop _ _ _ _ _ _ _ _) as [[resp last_err] tr].
  simpl in Heq. subst tr. exists resp, last_err, evs.
  rewrite length_seq in Hg. repeat split; try assumption.
  apply H1. replace (Z.to_nat (max_retries + 1)) with (S (Z.to_nat max_retries))
    by lia. discriminate.
Qed.

Lemma fetch_with_retry_is_bounded_witness :
  exists resp last_err tr,
    Crawler.fetch_with_retry Examples.unavailable_site true 2
      "https://a.com/" = (resp, last_err, tr) /\
    (1 <= length (filter Crawler.is_get tr) <= 3)%nat.
Proof.
  destruct (fetch_with_retry_is_bounded Examples.unavailable_site true 2
              "https://a.com/")
    as (resp & last_err & tr & Heq & Hg & _); [lia|].
  exists resp, last_err, tr. split; [exact Heq|exact Hg].
Defined.

Section CrawlerMonotone.
Import Crawler.

Lemma is_allowed_domain_mono (url : string) (hosts hosts' : gset string) :
  hosts ⊆ hosts' ->
  _is_allowed_domain url hosts = Ok true ->
  _is_allowed_domain url hosts' = Ok true.
Proof.
  intros Hsub. unfold _is_allowed_domain.
  destruct (urlparse url) as [u|e]; simpl; [|discriminate].
  intros [= H]. f_equal. apply andb_true_iff in H as [H1 H2].
  rewrite H1. simpl. apply bool_decide_eq_true in H2.
  apply bool_decide_eq_true. set_solver.
Qed.

End CrawlerMonotone.

Section CrawlInvariants.
Import Crawler.

Variable fetch : site.
Variable max_urls : Z.
Variable max_depth : Z.
Variable root_domain : option string.
Variable allow_same_root_subdomains : bool.
Variable polite_delay : bool.
Variable max_retries : Z.

Local Abbreviation enqueue_links :=
  (enqueue_links max_urls root_domain allow_same_root_subdomains).
Local Abbreviation visit :=
  (visit fetch max_urls max_depth root_domain allow_same_root_subdomains
     polite_delay max_retries).
Local Abbreviation crawl_loop :=
  (crawl_loop fetch max_urls max_depth root_domain allow_same_root_subdomains
     polite_delay max_retries).

Lemma enqueue_links_spec (depth : Z) (links : list string) (st st' : state) :
  enqueue_links depth links st = Ok st' ->
  visited st' = visited st /\ results st' = results st /\
  trace st' = trace st /\ failed_urls st' = failed_urls st /\
  dynamic_allowed_hosts st ⊆ dynamic_allowed_hosts st' /\
  (allow_same_root_subdomains = false ->
   dynamic_allowed_hosts st' = dynamic_allowed_hosts st).
Proof.
  revert st. induction links as [|joined rest IH]; intros st; simpl.
  - intros [= <-]. repeat split; auto.
  - destruct (urldefrag joined) as [defragged|e]; simpl; [|discriminate].
    destruct (normalize_url defragged true true true) as [abs_url|e];
      simpl; [|discriminate].
    destruct (should_skip_by_extension abs_url) as [skip|e];
      simpl; [|discriminate].
    destruct skip; [apply IH|].
    destruct (urlparse abs_url) as [u|e]; simpl; [|discriminate].
    set (hosts := if same_root root_domain allow_same_root_subdomains
                       (lower (netloc u))
                  then {[lower (netloc u)]} ∪ dynamic_allowed_hosts st
                  else dynamic_allowed_hosts st).
    assert (Hsub : dynamic_allowed_hosts st ⊆ hosts).
    { unfold hosts. destruct (same_root _ _ _); set_solver. }
    assert (Hsame : allow_same_root_subdomains = false ->
                    hosts = dynamic_allowed_hosts st).
    { intros ->. unfold hosts, same_root. reflexivity. }
    destruct (_is_allowed_domain abs_url hosts) as [allowed|e];
      simpl; [|discriminate].
    assert (Hstep : forall q c, 
               enqueue_links depth rest
                 (mkState q c (visited st) (results st) hosts
                    (failed_urls st) (trace st)) = Ok st' ->
               visited st' = visited st /\ results st' = results st /\
               trace st' = trace st /\ failed_urls st' = failed_urls st /\
               dynamic_allowed_hosts st ⊆ dynamic_allowed_hosts st' /\
               (allow_same_root_subdomains = false ->
                dynamic_allowed_hosts st' = dynamic_allowed_hosts st)).
    { intros q c H. apply IH in H as (H1 & H2 & H3 & H4 & H5 & H6).
      simpl in *. repeat split; try assumption.
      - set_solver.
      - intros Hf. rewrite (H6 Hf). now apply Hsame. }
    destruct (negb (bool_decide (abs_url ∈ visited st)) && allowed)%bool;
      [|apply Hstep].
    destruct (Z.ltb (Z.of_nat (length (results st))) max_urls);
      [|apply Hstep].
    destruct (_get_url_priority abs_url) as [priority|e];
      simpl; [|discriminate].
    apply Hstep.
Qed.

Lemma is_empty_lower (s : string) : is_empty (lower s) = is_empty s.
Proof. now destruct s. Qed.

(** What one turn of the loop does to the state. *)
Lemma visit_spec (current : string) (depth : Z) (st st' : state) :
  visit current depth st = Ok st' ->
  (current ∈ visited st -> st' = st) /\
  (current ∉ visited st ->
   visited st' = {[current]} ∪ visited st /\
   dynamic_allowed_hosts st ⊆ dynamic_allowed_hosts st' /\
   (allow_same_root_subdomains = false ->
    dynamic_allowed_hosts st' = dynamic_allowed_hosts st) /\
   (results st' = results st
    \/ results st' = (results st ++ [current])%list) /\
   exists evs,
     trace st' = (trace st ++ evs)%list /\
     ((evs = [] /\ results st' = results st)
      \/ (evs = snd (fetch_with_retry fetch polite_delay max_retries current)
          /\ _is_allowed_domain current (dynamic_allowed_hosts st') = Ok true
          /\ should_skip_by_extension current = Ok false))).
Proof.
  unfold Crawler.visit.
  destruct (bool_decide (current ∈ visited st)) eqn:Hv.
  { apply bool_decide_eq_true in Hv. intros [= <-]. split; [auto|]. easy. }
  apply bool_decide_eq_false in Hv. intros H. split; [easy|]. intros _.
  revert H. cbn [queue counter visited results dynamic_allowed_hosts
                 failed_urls trace].
  destruct (urlparse current) as [parsed|e] eqn:Hparsed; simpl;
    [|discriminate].
  destruct (_is_allowed_domain current (dynamic_allowed_hosts st))
    as [allowed|e] eqn:Hallowed; simpl; [|discriminate].
  set (admitted :=
         if allowed then Some (dynamic_allowed_hosts st)
         else if same_root root_domain allow_same_root_subdomains
                   (lower (netloc parsed))
              then Some ({[lower (netloc parsed)]} ∪ dynamic_allowed_hosts st)
              else None).
  assert (Hadm : forall hosts, admitted = Some hosts ->
             dynamic_allowed_hosts st ⊆ hosts /\
             (allow_same_root_subdomains = false ->
              hosts = dynamic_allowed_hosts st) /\
             _is_allowed_domain current hosts = Ok true).
  { intros hosts. unfold admitted. destruct allowed.
    - intros [= <-]. repeat split; auto.
    - destruct (same_root _ _ _) eqn:Hroot; [|discriminate].
      intros [= <-]. split; [set_solver|]. split.
      + intros ->. discriminate.
      + unfold _is_allowed_domain. rewrite Hparsed. simpl. f_equal.
        apply andb_true_iff. split.
        * unfold same_root in Hroot.
          destruct allow_same_root_subdomains; [|discriminate].
          destruct root_domain as [rd|]; [|discriminate]. simpl in Hroot.
          apply andb_true_iff in Hroot as [_ Hroot].
          unfold is_same_root_domain in Hroot.
          apply andb_true_iff in Hroot as [Hroot _].
          apply andb_true_iff in Hroot as [Hroot _].
          now rewrite is_empty_lower in Hroot.
        * apply bool_decide_eq_true. set_solver. }
  destruct admitted as [hosts|].
  2:{ intros [= <-]. simpl. repeat split; auto.
      exists []. rewrite app_nil_r. auto. }
  destruct (Hadm hosts eq_refl) as (Hsub & Hsame & Hok). clear Hadm.
  destruct (should_skip_by_extension current) as [skip|e] eqn:Hskip; simpl;
    [|discriminate].
  destruct skip.
  { intros [= <-]. simpl. repeat split; auto.
    exists []. rewrite app_nil_r. auto. }
  destruct (fetch_with_retry fetch polite_delay max_retries current)
    as [[resp last_err] evs] eqn:Hfetch.
  destruct resp as [resp|].
  2:{ intros [= <-]. simpl. repeat split; auto.
      exists evs. split; [reflexivity|]. right. auto. }
  destruct (_ || _)%bool.
  2:{ intros [= <-]. simpl. repeat split; auto.
      exists evs. split; [reflexivity|]. right. auto. }
  destruct (Z.leb max_depth depth).
  { intros [= <-]. simpl. repeat split; auto.
    exists evs. split; [reflexivity|]. right. auto. }
  destruct (page_links resp) as [links|].
  2:{ intros [= <-]. simpl. repeat split; auto.
      exists evs. split; [reflexivity|]. right. auto. }
  intros H. apply enqueue_links_spec in H as (H1 & H2 & H3 & H4 & H5 & H6).
  simpl in *. rewrite H1, H2, H3. repeat split; auto.
  - set_solver.
  - intros Hf. rewrite (H6 Hf). now apply Hsame.
  - exists evs. split; [reflexivity|]. right. split; [reflexivity|].
    split; [|reflexivity]. now apply (is_allowed_domain_mono _ hosts).
Qed.

Lemma fetch_events_about (current : string) (e : event) :
  e ∈ snd (fetch_with_retry fetch polite_delay max_retries current) ->
  event_url e = current.
Proof.
  unfold fetch_with_retry.
  generalize (seq 0 (Z.to_nat (max_retries + 1))).
  assert (H : forall attempts resp last_err tr,
             (forall e, e ∈ tr -> event_url e = current) ->
             forall e,
               e ∈ snd (retry_loop fetch polite_delay max_retries current
                          attempts resp last_err tr) ->
               event_url e = current).
  { induction attempts as [|attempt rest IH]; intros resp last_err tr Htr;
      [exact Htr|].
    cbn [retry_loop].
    set (tr1 := ((if polite_delay then (tr ++ [PoliteSleep current])%list
                  else tr) ++ [Get current attempt])%list).
    assert (Htr1 : forall e, e ∈ tr1 -> event_url e = current).
    { intros e0 H0. unfold tr1 in H0.
      apply elem_of_app in H0 as [H0|H0].
      - destruct polite_delay; [|now apply Htr].
        apply elem_of_app in H0 as [H0|H0]; [now apply Htr|].
        apply list_elem_of_singleton in H0. now subst.
      - apply list_elem_of_singleton in H0. now subst. }
    assert (Hgo : forall (r : option response) (err : option exn) b e0,
               e0 ∈ snd (retry_loop fetch polite_delay max_retries current
                           rest r err
                           (tr1 ++ [BackoffSleep current b])%list) ->
               event_url e0 = current).
    { intros r err b. apply IH. intros e1 H1.
      apply elem_of_app in H1 as [H1|H1]; [now apply Htr1|].
      apply list_elem_of_singleton in H1. now subst. }
    destruct (fetch current attempt) as [r|msg].
    - assert (Herr : forall (o : option exn) b e0,
                 e0 ∈ snd match o with
                          | Some e =>
                              if Z.leb max_retries (Z.of_nat attempt)
                              then (None, Some e, tr1)
                              else retry_loop fetch polite_delay max_retries
                                     current rest (Some r) (Some e)
                                     (tr1 ++ [BackoffSleep current
                                                (BackoffError attempt)])%list
                          | None =>
                              retry_loop fetch polite_delay max_retries
                                current rest (Some r) last_err
                                (tr1 ++ [BackoffSleep current b])%list
                          end ->
                 event_url e0 = current).
      { intros [e1|] b; [|apply Hgo].
        destruct (Z.leb max_retries (Z.of_nat attempt));
          [exact Htr1|apply Hgo]. }
      destruct (Z.eqb (status_code r) 404); [exact Htr1|].
      destruct (Z.eqb (status_code r) 429); [apply Herr|].
      destruct (existsb _ _); [apply Herr|].
      destruct (raise_for_status r); [|exact Htr1].
      destruct (Z.leb max_retries (Z.of_nat attempt));
        [exact Htr1|apply Hgo].
    - destruct (Z.leb max_retries (Z.of_nat attempt));
        [exact Htr1|apply Hgo]. }
  intros attempts. apply H. intros e0 H0. by apply elem_of_nil in H0.
Qed.

Lemma visit_keeps_invariant (current : string) (depth : Z) (q : list entry)
    (st st' : state) :
  crawl_invariant max_urls st ->
  Z.of_nat (length (results st)) < max_urls ->
  visit current depth
    (mkState q (counter st) (visited st) (results st)
       (dynamic_allowed_hosts st) (failed_urls st) (trace st)) = Ok st' ->
  crawl_invariant max_urls st'.
Proof.
  intros (Hnd & Hres & Hlen & Htr) Hcap Hvisit.
  apply visit_spec in Hvisit as [Hseen Hnew]. simpl in *.
  destruct (decide (current ∈ visited st)) as [Hin|Hnin].
  { rewrite (Hseen Hin).
    split; [exact Hnd|]. split; [exact Hres|]. split; [exact Hlen|exact Htr]. }
  destruct (Hnew Hnin) as (Hv & Hh & _ & Hr & evs & Ht & Hevs).
  assert (Hmono : forall e, e ∈ trace st ->
             event_url e ∈ visited st' /\
             _is_allowed_domain (event_url e) (dynamic_allowed_hosts st')
             = Ok true /\
             should_skip_by_extension (event_url e) = Ok false).
  { intros e He. destruct (Htr e He) as (H1 & H2 & H3).
    split; [rewrite Hv; set_solver|]. split; [|exact H3].
    now apply (is_allowed_domain_mono _ (dynamic_allowed_hosts st)). }
  split; [|split; [|split]].
  - destruct Hr as [-> | ->]; [exact Hnd|].
    apply NoDup_app. split; [exact Hnd|]. split; [|apply NoDup_singleton].
    intros x Hx Hx'. apply list_elem_of_singleton in Hx'. subst.
    apply Hnin. now apply Hres.
  - intros u Hu. rewrite Hv. destruct Hr as [Hr|Hr]; rewrite Hr in Hu.
    + apply Hres in Hu. set_solver.
    + apply elem_of_app in Hu as [Hu|Hu]; [apply Hres in Hu; set_solver|].
      apply list_elem_of_singleton in Hu. set_solver.
  - destruct Hr as [-> | ->]; [exact Hlen|].
    rewrite length_app. simpl. lia.
  - intros e He. rewrite Ht in He. apply elem_of_app in He as [He|He];
      [now apply Hmono|].
    destruct Hevs as [[-> _]|(-> & Hok & Hskip)];
      [by apply elem_of_nil in He|].
    rewrite (fetch_events_about current e He).
    split; [rewrite Hv; set_solver|]. now split.
Qed.

Lemma crawl_loop_keeps_invariant (fuel : nat) (st st' : state) :
  crawl_invariant max_urls st ->
  crawl_loop fuel st = Some (Ok st') ->
  crawl_invariant max_urls st'.
Proof.
  revert st. induction fuel as [|fuel IH]; intros st Hinv; simpl.
  - destruct (queue st) as [|[[[? ?] current] depth] q]; [now intros [= <-]|].
    destruct (negb _); [now intros [= <-]|discriminate].
  - destruct (queue st) as [|[[[? ?] current] depth] q]; [now intros [= <-]|].
    destruct (Z.ltb_spec (Z.of_nat (length (results st))) max_urls);
      simpl; [|now intros [= <-]].
    destruct (Crawler.visit _ _ _ _ _ _ _ current depth _) as [st1|e] eqn:Hv;
      [|discriminate].
    apply IH. now apply (visit_keeps_invariant current depth q st).
Qed.

Lemma crawl_loop_keeps_hosts (fuel : nat) (st st' : state) :
  allow_same_root_subdomains = false ->
  crawl_loop fuel st = Some (Ok st') ->
  dynamic_allowed_hosts st' = dynamic_allowed_hosts st.
Proof.
  intros Hoff. revert st. induction fuel as [|fuel IH]; intros st; simpl.
  - destruct (queue st) as [|[[[? ?] current] depth] q]; [now intros [= <-]|].
    destruct (negb _); [now intros [= <-]|discriminate].
  - destruct (queue st) as [|[[[? ?] current] depth] q]; [now intros [= <-]|].
    destruct (negb _); [now intros [= <-]|].
    destruct (Crawler.visit _ _ _ _ _ _ _ current depth _) as [st1|e] eqn:Hv;
      [|discriminate].
    intros H. rewrite (IH _ H).
    apply visit_spec in Hv as [Hseen Hnew]. simpl in *.
    destruct (decide (current ∈ visited st)) as [Hin|Hnin].
    + now rewrite (Hseen Hin).
    + destruct (Hnew Hnin) as (_ & _ & Hh & _). now apply Hh.
Qed.

Lemma crawl_site_invariant (fuel : nat) (start_url : string)
    (allowed_hosts : list string) (failed : option (list FailedURLRecord))
    (st : state) :
  crawl_site fetch max_urls max_depth root_domain allow_same_root_subdomains
    polite_delay max_retries fuel start_url allowed_hosts failed
  = Some (Ok st) ->
  crawl_invariant max_urls st /\
  (allow_same_root_subdomains = false ->
   dynamic_allowed_hosts st
   = list_to_set
       (map lower (filter (fun h => negb (is_empty h)) allowed_hosts))).
Proof.
  unfold crawl_site.
  destruct (urldefrag start_url) as [defragged|e]; simpl; [|discriminate].
  destruct (normalize_url defragged true true true) as [start|e]; simpl;
    [|discriminate].
  destruct (_get_url_priority start) as [priority|e]; simpl; [|discriminate].
  intros H. split.
  - apply (crawl_loop_keeps_invariant _ _ _) in H; [exact H|].
    split; [constructor|]. split; [intros u Hu; by apply elem_of_nil in Hu|].
    split; [simpl; lia|]. intros e He. by apply elem_of_nil in He.
  - intros Hoff. now rewrite (crawl_loop_keeps_hosts _ _ _ Hoff H).
Qed.

End CrawlInvariants.

(** X4. The list a crawl returns has no URL twice, every URL in it was
    visited, and it has at most [max_urls] entries (none when [max_urls] is
    negative). *)
Theorem crawl_results_distinct_and_capped (fetch : Crawler.site)
    (max_urls max_depth : Z) (root_domain : option string)
    (allow_same_root_subdomains polite_delay : bool) (max_retries : Z)
    (fuel : nat) (start_url : string) (allowed_hosts : list string)
    (failed : option (list Crawler.FailedURLRecord)) (st : Crawler.state) :
  Crawler.crawl_site fetch max_urls max_depth root_domain
    allow_same_root_subdomains polite_delay max_retries fuel start_url
    allowed_hosts failed = Some (Ok st) ->
  NoDup (Crawler.results st) /\
  (forall u, u ∈ Crawler.results st -> u ∈ Crawler.visited st) /\
  Z.of_nat (length (Crawler.results st)) <= Z.max max_urls 0.
Proof.
  intros H. apply crawl_site_invariant in H as [(H1 & H2 & H3 & _) _].
  auto.
Qed.

Lemma crawl_results_distinct_and_capped_witness :
  exists st,
    Crawler.crawl_site Examples.small_site 2 2 None false true 4 10
      "https://a.com/" ["a.com"] None = Some (Ok st) /\
    NoDup (Crawler.results st) /\
    Z.of_nat (length (Crawler.results st)) <= Z.max 2 0.
Proof.
  assert (H : exists st,
             Crawler.crawl_site Examples.small_site 2 2 None false true 4 10
               "https://a.com/" ["a.com"] None = Some (Ok st))
    by (vm_compute; eexists; reflexivity).
  destruct H as [st H]. exists st. split; [exact H|].
  destruct (crawl_results_distinct_and_capped _ _ _ _ _ _ _ _ _ _ _ _ H)
    as (H1 & _ & H3).
  split; [exact H1|exact H3].
Defined.

(** X5. Every request, politeness sleep and back-off of a crawl is for a
    visited URL whose host is allowed at the end of the crawl and whose path
    has none of the skipped file extensions; unless same-root subdomains are
    admitted, the allowed hosts are the lower-cased non-empty entries of
    [allowed_hosts] throughout. *)
Theorem crawl_requests_only_allowed_pages (fetch : Crawler.site)
    (max_urls max_depth : Z) (root_domain : option string)
    (allow_same_root_subdomains polite_delay : bool) (max_retries : Z)
    (fuel : nat) (start_url : string) (allowed_hosts : list string)
    (failed : option (list Crawler.FailedURLRecord)) (st : Crawler.state) :
  Crawler.crawl_site fetch max_urls max_depth root_domain
    allow_same_root_subdomains polite_delay max_retries fuel start_url
    allowed_hosts failed = Some (Ok st) ->
  (forall e, e ∈ Crawler.trace st ->
     Crawler.event_url e ∈ Crawler.visited st /\
     Crawler._is_allowed_domain (Crawler.event_url e)
       (Crawler.dynamic_allowed_hosts st) = Ok true /\
     should_skip_by_extension (Crawler.event_url e) = Ok false) /\
  (allow_same_root_subdomains = false ->
   Crawler.dynamic_allowed_hosts st
   = list_to_set
       (map lower (filter (fun h => negb (is_empty h)) allowed_hosts))).
Proof.
  intros H. apply crawl_site_invariant in H as [(_ & _ & _ & H4) H5].
  auto.
Qed.

Lemma crawl_requests_only_allowed_pages_witness :
  exists st,
    Crawler.crawl_site
      (fun url _ =>
         Examples.html_page url 200 "OK"
           ["https://a.com/p1"; "https://evil.com/x"; "https://a.com/f.pdf"])
      10 2 None false true 4 10 "https://a.com/" ["a.com"] None
    = Some (Ok st) /\
    filter Crawler.is_get (Crawler.trace st)
    = [Crawler.Get "https://a.com/" 0; Crawler.Get "https://a.com/p1" 0] /\
    forall e, e ∈ Crawler.trace st ->
      should_skip_by_extension (Crawler.event_url e) = Ok false.
Proof.
  assert (H : exists st,
             Crawler.crawl_site
               (fun url _ =>
                  Examples.html_page url 200 "OK"
                    ["https://a.com/p1"; "https://evil.com/x";
                     "https://a.com/f.pdf"])
               10 2 None false true 4 10 "https://a.com/" ["a.com"] None
             = Some (Ok st) /\
             filter Crawler.is_get (Crawler.trace st)
             = [Crawler.Get "https://a.com/" 0;
                Crawler.Get "https://a.com/p1" 0])
    by (vm_compute; eexists; split; reflexivity).
  destruct H as (st & H & Hget). exists st. split; [exact H|].
  split; [exact Hget|].
  intros e He.
  exact (proj2 (proj2 (proj1
           (crawl_requests_only_allowed_pages _ _ _ _ _ _ _ _ _ _ _ _ H)
           e He))).
Defined.

Section FailureFacts.
Import Crawler.

Variable fetch : site.
Variable max_urls : Z.
Variable max_depth : Z.
Variable root_domain : option string.
Variable allow_same_root_subdomains : bool.
Variable polite_delay : bool.
Variable max_retries : Z.
Variable current : string.

Hypothesis always_raises :
  forall attempt, is_Some (attempt_exception (fetch current attempt)).

(** An attempt that raises goes through the [except] branch. *)
Lemma retry_loop_raise_step (attempt : nat) (rest : list nat)
    (resp : option response) (last_err : option exn) (tr : list event)
    (e : exn) :
  attempt_exception (fetch current attempt) = Some e ->
  let tr1 := ((if polite_delay then (tr ++ [PoliteSleep current])%list
               else tr) ++ [Get current attempt])%list in
  exists resp',
    retry_loop fetch polite_delay max_retries current (attempt :: rest) resp
      last_err tr
    = if Z.leb max_retries (Z.of_nat attempt) then (None, Some e, tr1)
      else retry_loop fetch polite_delay max_retries current rest resp'
             (Some e)
             (tr1 ++ [BackoffSleep current (BackoffError attempt)])%list.
Proof.
  intros He tr1. cbn [retry_loop]. fold tr1. unfold attempt_exception in He.
  destruct (fetch current attempt) as [r|msg].
  - destruct (Z.eqb (status_code r) 404); [discriminate|].
    destruct (Z.eqb (status_code r) 429
              || existsb (Z.eqb (status_code r)) [500; 502; 503; 504; 520])%bool
      eqn:Hretried.
    + exists (Some r). rewrite He.
      destruct (Z.eqb (status_code r) 429); [reflexivity|].
      rewrite orb_false_l in Hretried. rewrite Hretried. reflexivity.
    + apply orb_false_iff in Hretried as [-> ->]. rewrite He.
      exists (Some r). reflexivity.
  - injection He as <-. exists resp. reflexivity.
Qed.

Lemma retry_loop_all_raise (len start : nat) (resp : option response)
    (last_err : option exn) (tr : list event) :
  Z.of_nat (start + len)%nat = max_retries + 1 -> (0 < len)%nat ->
  exists tr',
    retry_loop fetch polite_delay max_retries current (seq start len) resp
      last_err tr
    = (None, attempt_exception (fetch current (Z.to_nat max_retries)), tr').
Proof.
  revert start resp last_err tr.
  induction len as [|len IH]; intros start resp last_err tr Hsum Hpos; [lia|].
  destruct (always_raises start) as [e He].
  destruct (retry_loop_raise_step start (seq (S start) len) resp last_err tr
              e He) as (resp' & Heq).
  cbn [seq]. rewrite Heq. clear Heq.
  destruct (Z.leb_spec max_retries (Z.of_nat start)).
  - replace (Z.to_nat max_retries) with start by lia. rewrite He. eauto.
  - apply IH; lia.
Qed.

Lemma fetch_with_retry_all_raise :
  0 <= max_retries ->
  exists tr,
    fetch_with_retry fetch polite_delay max_retries current
    = (None, attempt_exception (fetch current (Z.to_nat max_retries)), tr).
Proof.
  intros Hm. unfold fetch_with_retry.
  apply retry_loop_all_raise; lia.
Qed.

Lemma visit_records_failure (depth : Z) (st : state) :
  0 <= max_retries ->
  current ∉ visited st ->
  _is_allowed_domain current (dynamic_allowed_hosts st) = Ok true ->
  should_skip_by_extension current = Ok false ->
  exists st' e,
    attempt_exception (fetch current (Z.to_nat max_retries)) = Some e /\
    visit fetch max_urls max_depth root_domain allow_same_root_subdomains
      polite_delay max_retries current depth st = Ok st' /\
    results st' = results st /\ queue st' = queue st /\
    current ∈ visited st' /\
    failed_urls st'
    = match failed_urls st with
      | Some l =>
          Some (l ++ [mkFailed current (exn_text e)
                        (guess_status_code (exn_text e))])%list
      | None => None
      end.
Proof.
  intros Hm Hv Hallowed Hskip. unfold visit.
  rewrite bool_decide_eq_false_2 by exact Hv.
  cbn [queue counter visited results dynamic_allowed_hosts failed_urls trace].
  assert (Hp : exists p, urlparse current = Ok p).
  { unfold _is_allowed_domain in Hallowed.
    destruct (urlparse current) as [p|e]; [eauto|discriminate]. }
  destruct Hp as [p Hp]. rewrite Hp, Hallowed. simpl. rewrite Hskip. simpl.
  destruct (fetch_with_retry_all_raise Hm) as (tr & Hf). rewrite Hf.
  destruct (always_raises (Z.to_nat max_retries)) as [e He]. rewrite He.
  eexists. exists e. split; [reflexivity|]. split; [reflexivity|]. simpl.
  split; [reflexivity|]. split; [reflexivity|]. split; [set_solver|].
  now destruct (failed_urls st).
Qed.

End FailureFacts.

(** X6. A URL on an allowed host, not yet visited and not a binary asset,
    for which every request ends in the [except] branch (a transport error,
    a status that [raise_for_status] rejects and the loop does not retry as
    429 or 5xx, or a back-off for 429 or 5xx that raises): the crawler gives
    up after the last attempt, keeps the URL out of the results, enqueues
    nothing, marks it visited so that it is never requested again, and
    appends one record to [failed_urls] when the caller passed a list; the
    text of the record is that of the exception of the last attempt, number
    [max_retries], and not of an earlier one.  This is for [max_retries] up
    to 34, where the sleeps between the attempts are delays the clock
    holds. *)
Theorem unreachable_url_is_recorded_and_skipped (fetch : Crawler.site)
    (max_urls max_depth : Z) (root_domain : option string)
    (allow_same_root_subdomains polite_delay : bool) (max_retries : Z)
    (current : string) (depth : Z) (st : Crawler.state) :
  (forall attempt,
     is_Some (Crawler.attempt_exception (fetch current attempt))) ->
  0 <= max_retries <= 34 ->
  current ∉ Crawler.visited st ->
  Crawler._is_allowed_domain current (Crawler.dynamic_allowed_hosts st)
  = Ok true ->
  should_skip_by_extension current = Ok false ->
  exists st' e,
    Crawler.attempt_exception (fetch current (Z.to_nat max_retries))
    = Some e /\
    Crawler.visit fetch max_urls max_depth root_domain
      allow_same_root_subdomains polite_delay max_retries current depth st
    = Ok st' /\
    Crawler.results st' = Crawler.results st /\
    Crawler.queue st' = Crawler.queue st /\
    current ∈ Crawler.visited st' /\
    Crawler.failed_urls st'
    = match Crawler.failed_urls st with
      | Some l =>
          Some (l ++ [Crawler.mkFailed current (Crawler.exn_text e)
                        (Crawler.guess_status_code (Crawler.exn_text e))])%list
      | None => None
      end.
Proof.
  intros Hraise [Hm _] Hv Hallowed Hskip.
  now apply visit_records_failure.
Qed.

Lemma unreachable_url_is_recorded_and_skipped_witness :
  exists st' e,
    Crawler.attempt_exception (Examples.flaky_site "https://a.com/p" 1%nat)
    = Some e /\
    Crawler.visit Examples.flaky_site 10 2 None false true 1
      "https://a.com/p" 0
      (Crawler.mkState [] 1 ∅ [] {["a.com"]} (Some []) [])
    = Ok st' /\
    Crawler.results st' = [] /\
    Crawler.queue st' = [] /\
    "https://a.com/p" ∈ Crawler.visited st' /\
    Crawler.failed_urls st'
    = Some [Crawler.mkFailed "https://a.com/p" (Crawler.exn_text e)
              (Crawler.guess_status_code (Crawler.exn_text e))].
Proof.
  apply (unreachable_url_is_recorded_and_skipped
           Examples.flaky_site 10 2 None false true 1 "https://a.com/p" 0
           (Crawler.mkState [] 1 ∅ [] {["a.com"]} (Some []) [])).
  - intros [|attempt]; vm_compute; eauto.
  - lia.
  - set_solver.
  - vm_compute. reflexivity.
  - vm_compute. reflexivity.
Defined.

(** ** The crawl ends *)

Section CrawlTermination.
Import Crawler.

Variable fetch : site.
Variable max_urls : Z.
Variable max_depth : Z.
Variable root_domain : option string.
Variable allow_same_root_subdomains : bool.
Variable polite_delay : bool.
Variable max_retries : Z.
Variable B : nat.

Hypothesis bounded : out_degree_at_most fetch B.

Local Abbreviation weight := (queue_turns B max_depth).

Lemma turns_pos (k : nat) : (1 <= turns B k)%nat.
Proof. destruct k; simpl; lia. Qed.

Lemma queue_turns_cons (e : entry) (q : list entry) :
  weight (e :: q)
  = (turns B (Z.to_nat (max_depth - entry_depth e)) + weight q)%nat.
Proof. reflexivity. Qed.

Lemma queue_turns_single (e : entry) :
  weight [e] = turns B (Z.to_nat (max_depth - entry_depth e)).
Proof. unfold queue_turns. simpl. lia. Qed.

Lemma queue_turns_heappush (q : list entry) (e : entry) :
  weight (heappush q e) = (weight q + weight [e])%nat.
Proof.
  unfold queue_turns. induction q as [|x q IH]; simpl.
  - lia.
  - destruct (entry_lt e x); simpl; [lia|]. rewrite IH. simpl. lia.
Qed.

Lemma enqueue_links_turns (depth : Z) (links : list string) (st st' : state) :
  enqueue_links max_urls root_domain allow_same_root_subdomains depth links st
  = Ok st' ->
  (weight (queue st')
   <= weight (queue st)
      + length links * turns B (Z.to_nat (max_depth - (depth + 1))))%nat.
Proof.
  revert st. induction links as [|joined rest IH]; intros st H.
  - simpl in H. injection H as <-. simpl. lia.
  - cbn [enqueue_links] in H.
    destruct (urldefrag joined) as [defragged|]; [|discriminate].
    cbn [mbind result_bind] in H.
    destruct (normalize_url defragged true true true) as [abs_url|];
      [|discriminate].
    cbn [mbind result_bind] in H.
    destruct (should_skip_by_extension abs_url) as [skip|]; [|discriminate].
    cbn [mbind result_bind] in H.
    destruct skip.
    { apply IH in H. simpl. lia. }
    destruct (urlparse abs_url) as [u|]; [|discriminate].
    cbn [mbind result_bind] in H.
    cbn [queue counter visited results dynamic_allowed_hosts failed_urls
         trace] in H.
    destruct (_is_allowed_domain abs_url _) as [allowed|]; [|discriminate].
    cbn [mbind result_bind] in H.
    destruct (negb (bool_decide (abs_url ∈ visited st)) && allowed)%bool.
    2:{ apply IH in H. simpl in *. lia. }
    destruct (Z.ltb (Z.of_nat (length (results st))) max_urls).
    2:{ apply IH in H. simpl in *. lia. }
    destruct (_get_url_priority abs_url) as [priority|]; [|discriminate].
    cbn [mbind result_bind] in H.
    apply IH in H. cbn [queue] in H.
    rewrite queue_turns_heappush in H.
    rewrite queue_turns_single in H. unfold entry_depth in H.
    cbn [snd] in H. simpl length. lia.
Qed.

Lemma retry_loop_response (current : string) (attempts : list nat)
    (resp : option response) (last_err : option exn) (tr : list event)
    (r : response) (last_err' : option exn) (tr' : list event) :
  (forall r0, resp = Some r0 -> exists a, fetch current a = Responds r0) ->
  retry_loop fetch polite_delay max_retries current attempts resp last_err tr
  = (Some r, last_err', tr') ->
  exists a, fetch current a = Responds r.
Proof.
  revert resp last_err tr.
  induction attempts as [|attempt rest IH]; intros resp last_err tr Hresp H.
  - simpl in H. injection H as H _ _. now apply Hresp.
  - cbn [retry_loop] in H.
    destruct (fetch current attempt) as [r0|msg] eqn:Hf.
    + assert (Hr0 : forall r1, Some r0 = Some r1 ->
                exists a, fetch current a = Responds r1).
      { intros r1 [= <-]. eauto. }
      assert (Herr : forall (o : option exn) b,
                 match o with
                 | Some e =>
                     if Z.leb max_retries (Z.of_nat attempt)
                     then (None, Some e,
                           ((if polite_delay
                             then (tr ++ [PoliteSleep current])%list
                             else tr) ++ [Get current attempt])%list)
                     else retry_loop fetch polite_delay max_retries current
                            rest (Some r0) (Some e)
                            (((if polite_delay
                               then (tr ++ [PoliteSleep current])%list
                               else tr) ++ [Get current attempt])
                             ++ [BackoffSleep current
                                   (BackoffError attempt)])%list
                 | None =>
                     retry_loop fetch polite_delay max_retries current rest
                       (Some r0) last_err
                       (((if polite_delay
                          then (tr ++ [PoliteSleep current])%list
                          else tr) ++ [Get current attempt])
                        ++ [BackoffSleep current b])%list
                 end = (Some r, last_err', tr') ->
                 exists a, fetch current a = Responds r).
      { intros [e|] b H'; [|now apply IH in H'].
        destruct (Z.leb max_retries (Z.of_nat attempt)); [discriminate|].
        now apply IH in H'. }
      destruct (Z.eqb (status_code r0) 404); [discriminate|].
      destruct (Z.eqb (status_code r0) 429); [now apply Herr in H|].
      destruct (existsb _ _); [now apply Herr in H|].
      destruct (raise_for_status r0).
      * destruct (Z.leb max_retries (Z.of_nat attempt)); [discriminate|].
        now apply IH in H.
      * injection H as <- _ _. eauto.
    + destruct (Z.leb max_retries (Z.of_nat attempt)); [discriminate|].
      now apply IH in H.
Qed.

Lemma visit_turns (current : string) (depth : Z) (st st' : state) :
  visit fetch max_urls max_depth root_domain allow_same_root_subdomains
    polite_delay max_retries current depth st = Ok st' ->
  (weight (queue st') + 1
   <= weight (queue st) + turns B (Z.to_nat (max_depth - depth)))%nat.
Proof.
  assert (Hpos : (1 <= turns B (Z.to_nat (max_depth - depth)))%nat)
    by (destruct (Z.to_nat (max_depth - depth)); simpl; lia).
  unfold visit. intros H.
  destruct (bool_decide (current ∈ visited st)).
  { injection H as <-. lia. }
  cbn [queue counter visited results dynamic_allowed_hosts failed_urls trace]
    in H.
  destruct (urlparse current) as [p|]; [|discriminate].
  cbn [mbind result_bind] in H.
  destruct (_is_allowed_domain current _) as [allowed|]; [|discriminate].
  cbn [mbind result_bind] in H.
  match type of H with
  | match ?a with _ => _ end = _ => destruct a as [hosts|]
  end.
  2:{ injection H as <-. simpl. lia. }
  destruct (should_skip_by_extension current) as [skip|]; [|discriminate].
  cbn [mbind result_bind] in H.
  destruct skip.
  { injection H as <-. simpl. lia. }
  destruct (fetch_with_retry fetch polite_delay max_retries current)
    as [[resp last_err] evs] eqn:Hf.
  cbn [queue counter visited results dynamic_allowed_hosts failed_urls trace]
    in H.
  destruct resp as [resp|].
  2:{ injection H as <-. simpl. lia. }
  destruct (_ || _)%bool.
  2:{ injection H as <-. simpl. lia. }
  destruct (Z.leb_spec max_depth depth) as [Hd|Hd].
  { injection H as <-. simpl. lia. }
  destruct (page_links resp) as [links|] eqn:Hl.
  2:{ injection H as <-. simpl. lia. }
  apply enqueue_links_turns in H. cbn [queue] in H.
  unfold fetch_with_retry in Hf.
  apply retry_loop_response in Hf as [a Ha]; [|discriminate].
  pose proof (bounded _ _ _ _ Ha Hl) as Hb.
  replace (Z.to_nat (max_depth - depth))
    with (S (Z.to_nat (max_depth - (depth + 1)))) by lia.
  simpl. nia.
Qed.

Lemma crawl_loop_terminates (fuel : nat) (st : state) :
  (weight (queue st) <= fuel)%nat ->
  exists r,
    crawl_loop fetch max_urls max_depth root_domain allow_same_root_subdomains
      polite_delay max_retries fuel st = Some r.
Proof.
  revert st. induction fuel as [|fuel IH]; intros st Hw.
  - destruct st as [q c v rs h f t]. destruct q as [|[[[p c'] u] d] q].
    + simpl. eauto.
    + exfalso. cbn [queue] in Hw. rewrite queue_turns_cons in Hw.
      pose proof (turns_pos (Z.to_nat (max_depth - entry_depth (p, c', u, d)))).
      lia.
  - destruct st as [q c v rs h f t]. destruct q as [|[[[p c'] u] d] q].
    + simpl. eauto.
    + cbn [crawl_loop queue counter visited results dynamic_allowed_hosts
           failed_urls trace].
      destruct (negb _); [eauto|].
      destruct (visit _ _ _ _ _ _ _ u d _) as [st'|e] eqn:Hv; [|eauto].
      apply IH. apply visit_turns in Hv. cbn [queue] in Hv.
      cbn [queue] in Hw. rewrite queue_turns_cons in Hw.
      unfold entry_depth in Hw.
      cbn [snd] in Hw. lia.
Qed.

Lemma crawl_site_terminates (fuel : nat) (start_url : string)
    (allowed_hosts : list string)
    (failed : option (list FailedURLRecord)) :
  (turns B (Z.to_nat max_depth) <= fuel)%nat ->
  exists r,
    crawl_site fetch max_urls max_depth root_domain allow_same_root_subdomains
      polite_delay max_retries fuel start_url allowed_hosts failed = Some r.
Proof.
  intros Hfuel. unfold crawl_site.
  match goal with
  | |- exists r, match ?a with _ => _ end = _ => destruct a as [[s pr]|e]
  end; [|eauto].
  apply crawl_loop_terminates. cbn [queue heappush].
  unfold queue_turns. simpl. unfold entry_depth. simpl.
  rewrite Z.sub_0_r. lia.
Qed.

End CrawlTermination.

(** X7. The crawl ends.  On a site none of whose pages carries more than [B]
    links, the loop of [crawl_site] makes at most
    [1 + B + B^2 + ... + B^max_depth] turns, whatever [max_urls] and the
    answers of the site are: an entry is only enqueued one level below the
    page that links to it, and never below [max_depth].  With that many
    turns allowed the function returns or raises. *)
Theorem crawl_terminates_within_depth_budget (fetch : Crawler.site)
    (max_urls max_depth : Z) (root_domain : option string)
    (allow_same_root_subdomains polite_delay : bool) (max_retries : Z)
    (B fuel : nat) (start_url : string) (allowed_hosts : list string)
    (failed : option (list Crawler.FailedURLRecord)) :
  Crawler.out_degree_at_most fetch B ->
  (Crawler.turns B (Z.to_nat max_depth) <= fuel)%nat ->
  exists r,
    Crawler.crawl_site fetch max_urls max_depth root_domain
      allow_same_root_subdomains polite_delay max_retries fuel start_url
      allowed_hosts failed = Some r.
Proof.
  intros Hb Hfuel. now apply crawl_site_terminates with B.
Qed.

Lemma crawl_terminates_within_depth_budget_witness :
  exists r,
    Crawler.crawl_site Examples.small_site 10 2 None false true 4 7
      "https://a.com/" ["a.com"] None = Some r.
Proof.
  apply (crawl_terminates_within_depth_budget Examples.small_site 10 2 None
           false true 4 2 7 "https://a.com/" ["a.com"] None).
  - intros url attempt r links Hf Hl. unfold Examples.small_site in Hf.
    destruct (String.eqb url "https://a.com/");
      injection Hf as <-; injection Hl as <-; simpl; lia.
  - simpl. lia.
Defined.

(** ** The link extractor *)

Section LinkExtractorFacts.
Import Crawler.

Lemma prefix_head (a c : ascii) (p r : string) :
  String.prefix (String a p) (String c r) = true -> a = c.
Proof. simpl. now destruct (ascii_dec a c). Qed.

Lemma prefix_tail (a c : ascii) (p r : string) :
  String.prefix (String a p) (String c r) = true -> String.prefix p r = true.
Proof. simpl. now destruct (ascii_dec a c). Qed.

Lemma prefix_weaken (p q s : string) :
  String.prefix (p +:+ q) s = true -> String.prefix p s = true.
Proof.
  revert s. induction p as [|a p IH]; intros s H.
  - now destruct s.
  - destruct s as [|c r]; [discriminate|]. simpl in *.
    destruct (ascii_dec a c); [now apply IH|discriminate].
Qed.

Lemma contains_weaken (p q s : string) :
  contains (p +:+ q) s = true -> contains p s = true.
Proof.
  induction s as [|c r IH]; simpl.
  - destruct p; [reflexivity|discriminate].
  - intros H. apply orb_true_iff in H as [H|H]; apply orb_true_iff.
    + left. change (String.prefix (p +:+ q) (String c r) = true) in H.
      apply prefix_weaken in H. exact H.
    + right. now apply IH.
Qed.

Lemma contains_drop_head (a : ascii) (p s : string) :
  contains (String a p) s = true -> contains p s = true.
Proof.
  induction s as [|c r IH]; [discriminate|].
  intros H. cbn [contains] in H. apply orb_true_iff in H as [H|H].
  - apply prefix_tail in H. cbn [contains]. apply orb_true_iff. right.
    destruct r as [|c' r'].
    + destruct p; [reflexivity|discriminate].
    + cbn [contains]. apply orb_true_iff. now left.
  - cbn [contains]. apply orb_true_iff. right. now apply IH.
Qed.

Lemma is_upper_lower_char (c : ascii) : is_upper (lower_char c) = false.
Proof. destruct c as [[] [] [] [] [] [] [] []]; vm_compute; reflexivity. Qed.

Lemma prefix_lower_no_upper (p s : string) :
  String.prefix p (lower s) = true ->
  all_chars (fun c => negb (is_upper c)) p = true.
Proof.
  revert s. induction p as [|a p IH]; intros s H; [reflexivity|].
  destruct s as [|c r]; [discriminate|]. cbn [lower] in H.
  pose proof (prefix_head _ _ _ _ H) as ->.
  apply prefix_tail in H. cbn [all_chars].
  rewrite is_upper_lower_char. simpl. now apply IH with r.
Qed.

Lemma contains_lower_no_upper (p s : string) :
  contains p (lower s) = true ->
  all_chars (fun c => negb (is_upper c)) p = true.
Proof.
  induction s as [|c r IH]; cbn [lower contains].
  - destruct p; [reflexivity|discriminate].
  - intros H. apply orb_true_iff in H as [H|H]; [|now apply IH].
    change (String.prefix p (lower (String c r)) = true) in H.
    now apply prefix_lower_no_upper in H.
Qed.

Lemma scan_attrs_spec (attrs : list attr) (href : option string)
    (has_classname_attr : bool) :
  fold_left scan_attr attrs (href, has_classname_attr)
  = (match last (filter (fun a : attr => String.eqb (lower (fst a)) "href")
                   attrs) with
     | Some (_, v) => v
     | None => href
     end,
     (has_classname_attr || existsb noisy_class attrs)%bool).
Proof.
  revert href has_classname_attr.
  induction attrs as [|[k v] attrs IH]; intros href has_cn.
  - simpl. now rewrite orb_false_r.
  - cbn [fold_left scan_attr]. rewrite filter_cons. cbn [fst].
    unfold noisy_class at 1. cbn [existsb fst snd].
    destruct (String.eqb (lower k) "href") eqn:Hk.
    + rewrite decide_True by exact I.
      rewrite IH. f_equal.
      * rewrite last_cons.
        now destruct (last (filter _ attrs)) as [[k' v']|].
      * apply String.eqb_eq in Hk. rewrite Hk. reflexivity.
    + rewrite decide_False by (intros []).
      destruct v as [v|].
      * destruct (String.eqb (lower k) "class"); simpl.
        -- destruct (is_empty v); simpl; [apply IH|].
           destruct (contains "classname" (lower v) || contains "react" (lower v))%bool;
             rewrite IH; f_equal; simpl; now rewrite ?orb_true_r.
        -- apply IH.
      * rewrite andb_false_r. simpl. apply IH.
Qed.

Lemma bad_scheme_not_navigable (h : string) :
  startswith_any ["javascript:"; "mailto:"; "tel:"; "#"] h = true ->
  is_empty h = false /\ startswith_any navigable_prefixes h = false.
Proof.
  destruct h as [|c r]; [discriminate|]. intros H. split; [reflexivity|].
  unfold startswith_any, startswith in *. cbn [existsb] in H.
  assert (Hc : c = "j"%char \/ c = "m"%char \/ c = "t"%char \/ c = "#"%char).
  { repeat (apply orb_true_iff in H as [H|H]);
      try discriminate; apply prefix_head in H; auto. }
  destruct Hc as [ -> | [ -> | [ -> | -> ] ] ]; reflexivity.
Qed.

Lemma navigable_split (h : string) :
  startswith_any navigable_prefixes h
  = (startswith_any ["http://"; "https://"; "/"; "?"] h
     || startswith_any ["./"; "../"] h)%bool.
Proof.
  unfold startswith_any, navigable_prefixes. cbn [existsb].
  rewrite !orb_false_r, !orb_assoc. reflexivity.
Qed.

Lemma no_upper_needle (p s : string) :
  all_chars (fun c => negb (is_upper c)) p = false ->
  contains p (lower s) = false.
Proof.
  intros Hp. destruct (contains p (lower s)) eqn:H; [|reflexivity].
  apply contains_lower_no_upper in H. congruence.
Qed.

End LinkExtractorFacts.

(** X8. What the link extractor keeps.  [handle_starttag] never removes a
    link, and it adds the [href] of a tag exactly when: the tag is an [a];
    the [href] is the value of its last [href] attribute and is not empty;
    no [class] attribute mentions [classname] or [react]; the [href],
    stripped and lower-cased, is empty or starts with [http://],
    [https://], [/], [?], [./] or [../], does not contain [classname], and
    contains no [@] unless it starts with [http://] or [https://].  So a
    relative link such as [about.html] is not followed, and the tests for
    [javascript:], [mailto:], [tel:], [#], [/className/] and [/page/] reject
    nothing that the other tests would keep. *)
Theorem link_extractor_keeps_navigable_hrefs (tag : string)
    (attrs : list Crawler.attr) (links : gset string) (x : string) :
  x ∈ Crawler.handle_starttag tag attrs links <->
  x ∈ links \/
  (lower tag = "a" /\ Crawler.last_href attrs = Some x /\ x <> "" /\
   existsb Crawler.noisy_class attrs = false /\
   (lower (strip x) = ""
    \/ startswith_any Crawler.navigable_prefixes (lower (strip x)) = true) /\
   contains "classname" (lower (strip x)) = false /\
   (contains "@" (lower (strip x)) = true ->
    startswith_any ["http://"; "https://"] (lower (strip x)) = true)).
Proof.
  unfold Crawler.handle_starttag.
  destruct (String.eqb (lower tag) "a") eqn:Htag; cbn [negb].
  2:{ apply String.eqb_neq in Htag. tauto. }
  apply String.eqb_eq in Htag.
  rewrite scan_attrs_spec. fold (Crawler.last_href attrs). cbn [orb].
  destruct (Crawler.last_href attrs) as [href|].
  2:{ split; [tauto|]. intros [H|(_ & H & _)]; [exact H|discriminate]. }
  destruct (is_empty href) eqn:Hne.
  { destruct href; [|discriminate].
    split; [tauto|]. intros [H|(_ & [= <-] & H & _)]; [exact H|congruence]. }
  assert (Hne' : href <> "") by (intros ->; discriminate).
  set (h := lower (strip href)).
  pose proof (bad_scheme_not_navigable h) as Hbad.
  pose proof (navigable_split h) as Hnav.
  assert (HN1 : contains "/className/" h = false)
    by (apply no_upper_needle; reflexivity).
  assert (HN2 : contains "className" h = false)
    by (apply no_upper_needle; reflexivity).
  assert (Hsub : contains "/classname/" h = true ->
                 contains "classname" h = true).
  { intros H. apply contains_drop_head in H.
    now apply (contains_weaken "classname" "/") in H. }
  rewrite HN1, HN2. cbn [orb]. rewrite orb_false_r.
  assert (Hiff : forall (keep : bool),
    (keep = true <->
     existsb Crawler.noisy_class attrs = false /\
     (h = "" \/ startswith_any Crawler.navigable_prefixes h = true) /\
     contains "classname" h = false /\
     (contains "@" h = true ->
      startswith_any ["http://"; "https://"] h = true)) ->
    (x ∈ (if keep then {[href]} ∪ links else links) <->
     x ∈ links \/
     (lower tag = "a" /\ Some href = Some x /\ x <> "" /\
      existsb Crawler.noisy_class attrs = false /\
      (lower (strip x) = ""
       \/ startswith_any Crawler.navigable_prefixes (lower (strip x)) = true) /\
      contains "classname" (lower (strip x)) = false /\
      (contains "@" (lower (strip x)) = true ->
       startswith_any ["http://"; "https://"] (lower (strip x)) = true)))).
  { intros keep Hk. destruct keep.
    - pose proof (proj1 Hk eq_refl) as Hc. rewrite elem_of_union, elem_of_singleton.
      split.
      + intros [->|H]; [|now left]. right. fold h. tauto.
      + intros [H|(_ & [= ->] & _)]; [now right|now left].
    - split; [tauto|]. intros [H|(_ & [= <-] & _ & Hc)]; [exact H|].
      fold h in Hc. apply Hk in Hc. discriminate. }
  match goal with
  | |- x ∈ ?e <-> _ =>
      replace e with
        (if (negb (startswith_any ["javascript:"; "mailto:"; "tel:"; "#"] h)
             && negb (contains "classname" h || existsb Crawler.noisy_class attrs)
             && negb (contains "/classname/" h)
             && negb (contains "@" h
                      && negb (startswith_any ["http://"; "https://"] h))
             && (is_empty h
                 || startswith_any ["http://"; "https://"; "/"; "?"] h
                 || startswith_any ["./"; "../"] h))%bool
         then {[href]} ∪ links else links)
  end.
  2:{ destruct (startswith_any ["javascript:"; "mailto:"; "tel:"; "#"] h);
        [reflexivity|].
      destruct (contains "classname" h); [reflexivity|].
      destruct (existsb Crawler.noisy_class attrs); [reflexivity|].
      destruct (contains "/classname/" h); [reflexivity|].
      rewrite andb_false_r. cbn [negb andb orb].
      destruct (contains "@" h
                && negb (startswith_any ["http://"; "https://"] h))%bool;
        [reflexivity|].
      destruct (is_empty h); [reflexivity|].
      destruct (startswith_any ["http://"; "https://"; "/"; "?"] h);
        [reflexivity|].
      destruct (startswith_any ["./"; "../"] h); reflexivity. }
  apply Hiff. rewrite Hnav.
  assert (He : is_empty h = true <-> h = "").
  { generalize h. intros []; split; simpl; intros; congruence. }
  destruct (startswith_any ["javascript:"; "mailto:"; "tel:"; "#"] h).
  { destruct (Hbad eq_refl) as [Hb1 Hb2]. rewrite Hnav in Hb2.
    rewrite Hb2. cbn. split; [discriminate|].
    intros (_ & [Hc|Hc] & _); [|discriminate].
    apply He in Hc. congruence. }
  cbn [negb andb].
  destruct (contains "classname" h) eqn:Hcn.
  { cbn. split; [discriminate|]. intros (_ & _ & Hc & _). discriminate. }
  destruct (existsb Crawler.noisy_class attrs).
  { cbn. split; [discriminate|]. intros (Hc & _). discriminate. }
  destruct (contains "/classname/" h).
  { specialize (Hsub eq_refl). discriminate. }
  cbn [negb andb orb].
  destruct (contains "@" h);
    destruct (startswith_any ["http://"; "https://"] h); cbn [negb andb];
    try (split; [discriminate|]; intros (_ & _ & _ & Hc);
         specialize (Hc eq_refl); discriminate).
  all: rewrite <- orb_assoc;
    destruct (is_empty h) eqn:Hemp; cbn [orb];
    [ split; [intros _|reflexivity];
      repeat split; auto; left; now apply He
    | split;
      [ intros Hc; repeat split; auto
      | intros (_ & [Hc|Hc] & _); [apply He in Hc; congruence|exact Hc] ] ].
Qed.

(** ** The URL normaliser, in general *)

Section NormalizeFacts.

Lemma rstrip_by_keep (p : ascii -> bool) (a : ascii) (r : string) :
  p a = false -> rstrip_by p (String a r) = String a (rstrip_by p r).
Proof. intros H. cbn [rstrip_by]. now rewrite H, andb_false_r. Qed.

Lemma strip_http (rest : string) :
  strip ("http://" +:+ rest) = "http://" +:+ rstrip_by is_space rest.
Proof.
  unfold strip, strip_by. cbv [append].
  change (lstrip_by is_space (String "h" ?r)) with (String "h" r).
  now rewrite !rstrip_by_keep by reflexivity.
Qed.

Lemma strip_https (rest : string) :
  strip ("https://" +:+ rest) = "https://" +:+ rstrip_by is_space rest.
Proof.
  unfold strip, strip_by. cbv [append].
  change (lstrip_by is_space (String "h" ?r)) with (String "h" r).
  now rewrite !rstrip_by_keep by reflexivity.
Qed.

Ltac walk_urlparse :=
  unfold urlparse, urlsplit; cbv [append];
  change (lstrip_by is_c0_control_or_space (String "h" ?r)) with (String "h" r);
  unfold remove_unsafe_bytes; simpl;
  destruct (_splitnetloc _) as [netloc0 rest0];
  destruct (_ || _)%bool; [try reflexivity; try discriminate|];
  destruct (has_char "[" netloc0 && has_char "]" netloc0)%bool;
  [destruct (_check_bracketed_netloc netloc0) as [[]|];
   [|try reflexivity; try discriminate]|];
  simpl;
  (destruct (split_once "#" rest0) as [[u0 f0]|];
   [destruct (split_once "?" u0) as [[u1 q1]|]
   |destruct (split_once "?" rest0) as [[u1 q1]|]]);
  simpl;
  (destruct (_checknetloc netloc0) as [[]|];
   [|try reflexivity; try discriminate]);
  simpl;
  match goal with
  | |- context [has_char ";" ?u] =>
      destruct (has_char ";" u); [destruct (_splitparams u)|]
  end.

Lemma urlparse_http (y : string) :
  urlparse ("http://" +:+ y)
  = match urlparse ("https://" +:+ y) with
    | Ok p => Ok (mkParse "http" (netloc p) (path p) (params p) (query p)
                    (fragment p))
    | Raised e => Raised e
    end.
Proof. walk_urlparse; reflexivity. Qed.

Lemma urlparse_https_scheme (y : string) (p : ParseResult) :
  urlparse ("https://" +:+ y) = Ok p -> scheme p = "https".
Proof. walk_urlparse; intros [= <-]; reflexivity. Qed.

Lemma normalize_http_https (rest : string)
    (drop_fragment strip_trailing_slash : bool) :
  normalize_url ("http://" +:+ rest) true drop_fragment strip_trailing_slash
  = normalize_url ("https://" +:+ rest) true drop_fragment strip_trailing_slash.
Proof.
  unfold normalize_url. rewrite strip_http, strip_https, urlparse_http.
  destruct (urlparse ("https://" +:+ rstrip_by is_space rest)) as [p|e] eqn:Hp;
    [|reflexivity].
  apply urlparse_https_scheme in Hp. cbn [mbind result_bind scheme netloc path
    params query fragment]. rewrite Hp. reflexivity.
Qed.

(** Where the fragment mark can and cannot be. *)

Lemma has_char_app (c : ascii) (a b : string) :
  has_char c (a +:+ b) = (has_char c a || has_char c b)%bool.
Proof.
  induction a as [|x a IH]; [reflexivity|].
  change (String x a +:+ b) with (String x (a +:+ b)).
  cbn [has_char]. now rewrite IH, orb_assoc.
Qed.

Lemma has_char_lower_hash (s : string) :
  has_char "#" (lower s) = has_char "#" s.
Proof.
  induction s as [|a r IH]; [reflexivity|]. cbn [lower has_char].
  rewrite IH. f_equal.
  destruct a as [[] [] [] [] [] [] [] []]; vm_compute; reflexivity.
Qed.

Lemma split_once_head_free (c : ascii) (s h t : string) :
  split_once c s = Some (h, t) -> has_char c h = false.
Proof.
  revert h t. induction s as [|a r IH]; intros h t; simpl; [discriminate|].
  destruct (Ascii.eqb a c) eqn:Ha.
  - now intros [= <- <-].
  - destruct (split_once c r) as [[h' t']|]; [|discriminate].
    intros [= <- <-]. simpl. rewrite Ha. now apply IH with t'.
Qed.

Lemma split_once_none_free (c : ascii) (s : string) :
  split_once c s = None -> has_char c s = false.
Proof.
  induction s as [|a r IH]; simpl; [reflexivity|].
  destruct (Ascii.eqb a c); [discriminate|].
  destruct (split_once c r) as [[h t]|]; [discriminate|]. exact IH.
Qed.

Lemma span_until_tail (p : ascii -> bool) (s : string) :
  s = fst (span_until p s) +:+ snd (span_until p s).
Proof.
  induction s as [|a r IH]; simpl; [reflexivity|].
  destruct (p a); [reflexivity|].
  destruct (span_until p r) as [h t]. simpl in *.
  change (String a h +:+ t) with (String a (h +:+ t)). now rewrite <- IH.
Qed.

Lemma scheme_chars_free (s : string) :
  all_chars is_scheme_char s = true -> has_char "#" s = false.
Proof.
  induction s as [|a r IH]; simpl; [reflexivity|].
  intros H. apply andb_true_iff in H as [Ha Hr]. rewrite (IH Hr), orb_false_r.
  apply Ascii.eqb_neq. intros ->. discriminate.
Qed.

Lemma has_char_rsplit_once (c d : ascii) (s h t : string) :
  rsplit_once d s = Some (h, t) -> has_char c s = false ->
  has_char c h = false /\ has_char c t = false.
Proof.
  revert h t. induction s as [|a r IH]; simpl; [discriminate|].
  intros h t Hs H. apply orb_false_iff in H as [Ha Hr].
  destruct (rsplit_once d r) as [[h' t']|].
  - injection Hs as <- <-. destruct (IH h' t' eq_refl Hr) as [Hh Ht].
    split; [simpl; now rewrite Ha|assumption].
  - destruct (Ascii.eqb a d); [|discriminate]. injection Hs as <- <-.
    now split.
Qed.

Lemma has_char_take (c : ascii) (n : nat) (s : string) :
  has_char c s = false -> has_char c (take n s) = false.
Proof.
  revert s. induction n as [|n IH]; intros [|a r]; simpl; try easy.
  intros H. apply orb_false_iff in H as [Ha Hr]. rewrite Ha. now apply IH.
Qed.

Lemma splitparams_free (url : string) :
  has_char "#" url = false ->
  has_char "#" (fst (_splitparams url)) = false /\
  has_char "#" (snd (_splitparams url)) = false.
Proof.
  intros H. unfold _splitparams.
  destruct (rsplit_once "/" url) as [[before after]|] eqn:Hr.
  - destruct (has_char_rsplit_once "#" _ _ _ _ Hr H) as [Hb Ha].
    destruct (split_once ";" after) as [[a1 a2]|] eqn:Hs.
    + destruct (has_char_split_once "#" _ _ _ _ Hs Ha) as [H1 H2].
      cbn [fst snd]. rewrite !has_char_app, Hb, H1. now split.
    + now split.
  - destruct (split_once ";" url) as [[a1 a2]|] eqn:Hs.
    + exact (has_char_split_once "#" _ _ _ _ Hs H).
    + cbn [fst snd]. split; [now apply has_char_take|exact H].
Qed.

Lemma urlsplit_no_hash (url : string) (r : SplitResult) :
  urlsplit url = Ok r ->
  has_char "#" (s_scheme r) = false /\ has_char "#" (s_netloc r) = false /\
  has_char "#" (s_path r) = false /\ has_char "#" (s_query r) = false.
Proof.
  unfold urlsplit.
  set (u0 := remove_unsafe_bytes (lstrip_by is_c0_control_or_space url)).
  set (sp := match split_once ":" u0 with
             | Some (pre, post) =>
                 match pre with
                 | String c0 _ =>
                     if (is_ascii_alpha c0 && all_chars is_scheme_char pre)%bool
                     then (lower pre, post) else ("", u0)
                 | EmptyString => ("", u0)
                 end
             | None => ("", u0)
             end).
  assert (Hsch : has_char "#" (fst sp) = false).
  { subst sp. destruct (split_once ":" u0) as [[pre post]|]; [|reflexivity].
    destruct pre as [|c0 pre']; [reflexivity|].
    destruct (is_ascii_alpha c0 && all_chars is_scheme_char (String c0 pre'))%bool
      eqn:E; [|reflexivity].
    apply andb_true_iff in E as [_ E]. cbn [fst].
    rewrite has_char_lower_hash. now apply scheme_chars_free. }
  destruct sp as [sch u1]. cbn [fst] in Hsch.
  assert (Htail : forall netloc0 u2,
    has_char "#" netloc0 = false ->
    (let '(url0, fragment0) :=
       match split_once "#" u2 with
       | Some (u, f) => (u, f)
       | None => (u2, "")
       end in
     let '(url1, query0) :=
       match split_once "?" url0 with
       | Some (u, q) => (u, q)
       | None => (url0, "")
       end in
     _ ← _checknetloc netloc0;
     Ok (mkSplit sch netloc0 url1 query0 fragment0)) = Ok r ->
    has_char "#" (s_scheme r) = false /\ has_char "#" (s_netloc r) = false /\
    has_char "#" (s_path r) = false /\ has_char "#" (s_query r) = false).
  { intros netloc0 u2 Hn H.
    assert (H0 : exists url0 fragment0,
               match split_once "#" u2 with
               | Some (u, f) => (u, f)
               | None => (u2, "")
               end = (url0, fragment0) /\ has_char "#" url0 = false).
    { destruct (split_once "#" u2) as [[u f]|] eqn:E.
      - exists u, f. split; [reflexivity|]. now apply split_once_head_free in E.
      - exists u2, "". split; [reflexivity|]. now apply split_once_none_free. }
    destruct H0 as (url0 & fragment0 & E0 & Hu). rewrite E0 in H.
    destruct (split_once "?" url0) as [[u q]|] eqn:E;
      destruct (_checknetloc netloc0) as [[]|]; try discriminate;
      cbn [mbind result_bind] in H.
    - destruct (has_char_split_once "#" _ _ _ _ E Hu) as [H1 H2].
      injection H as <-. now cbn.
    - injection H as <-. now cbn. }
  destruct (String.eqb (take 2 u1) "//").
  - pose proof (span_until_head_free "#"
        (fun c => Ascii.eqb c "/" || Ascii.eqb c "?" || Ascii.eqb c "#")%bool
        (drop 2 u1) eq_refl) as Hn.
    unfold _splitnetloc. destruct (span_until _ (drop 2 u1)) as [netloc0 rest0].
    cbn [fst] in Hn.
    destruct (_ || _)%bool; [discriminate|].
    destruct (has_char "[" netloc0 && has_char "]" netloc0)%bool.
    + destruct (_check_bracketed_netloc netloc0) as [[]|]; [|discriminate].
      cbn [mbind result_bind]. now apply Htail.
    + cbn [mbind result_bind]. now apply Htail.
  - cbn [mbind result_bind]. now apply Htail.
Qed.

Lemma urlparse_no_hash (url : string) (p : ParseResult) :
  urlparse url = Ok p ->
  has_char "#" (scheme p) = false /\ has_char "#" (netloc p) = false /\
  has_char "#" (path p) = false /\ has_char "#" (params p) = false /\
  has_char "#" (query p) = false.
Proof.
  unfold urlparse. destruct (urlsplit url) as [r|] eqn:Hr; [|discriminate].
  apply urlsplit_no_hash in Hr as (H1 & H2 & H3 & H4).
  cbn [mbind result_bind].
  destruct (mem (s_scheme r) uses_params && has_char ";" (s_path r))%bool.
  - destruct (splitparams_free _ H3) as [Ha Hb].
    destruct (_splitparams (s_path r)) as [u pa]. intros [= <-].
    now cbn.
  - intros [= <-]. now cbn.
Qed.

Lemma urlunparse_no_hash (sch nl pa prm q : string) :
  has_char "#" sch = false -> has_char "#" nl = false ->
  has_char "#" pa = false -> has_char "#" prm = false ->
  has_char "#" q = false ->
  has_char "#" (urlunparse sch nl pa prm q "") = false.
Proof.
  intros H1 H2 H3 H4 H5. unfold urlunparse, urlunsplit. cbn [is_empty negb].
  set (u := if negb (is_empty prm) then pa +:+ ";" +:+ prm else pa).
  assert (Hu : has_char "#" u = false).
  { subst u. destruct (negb (is_empty prm)); [|exact H3].
    now rewrite !has_char_app, H3, H4. }
  clearbody u.
  repeat match goal with
         | |- context [if ?b then _ else _] => destruct b
         end;
    rewrite ?has_char_app, ?H1, ?H2, ?H5, ?Hu; reflexivity.
Qed.

Lemma normalize_no_hash (url : string) (prefer_https sts : bool) (n : string) :
  normalize_url url prefer_https true sts = Ok n -> has_char "#" n = false.
Proof.
  unfold normalize_url.
  destruct (urlparse (strip url)) as [p|] eqn:Hp; [|discriminate].
  apply urlparse_no_hash in Hp as (H1 & H2 & H3 & H4 & H5).
  cbn [mbind result_bind]. intros [= <-].
  apply urlunparse_no_hash; try assumption.
  - destruct (prefer_https && _)%bool; [reflexivity|].
    destruct (is_empty (scheme p)); [reflexivity|assumption].
  - now rewrite has_char_lower_hash.
  - assert (Hp' : has_char "#" (if is_empty (path p) then "/" else path p)
                  = false)
      by (destruct (is_empty (path p)); [reflexivity|assumption]).
    destruct (_ && _)%bool; [|exact Hp'].
    now apply has_char_rstrip_by.
Qed.

End NormalizeFacts.

(** X9. With [prefer_https], the [http://] and the [https://] spelling of
    the same address have the same normal form (or both fail to parse),
    whatever the address and the other two options are: the two spellings
    cannot both survive a de-duplication on normal forms. *)
Theorem http_and_https_spellings_normalise_alike (rest : string)
    (drop_fragment strip_trailing_slash : bool) :
  normalize_url ("http://" +:+ rest) true drop_fragment strip_trailing_slash
  = normalize_url ("https://" +:+ rest) true drop_fragment strip_trailing_slash.
Proof. apply normalize_http_https. Qed.

(** X10. With [drop_fragment], the normal form of a URL contains no [#]:
    neither the fragment nor its mark survives, wherever the other
    components come from. *)
Theorem normal_form_has_no_fragment (url : string)
    (prefer_https strip_trailing_slash : bool) (n : string) :
  normalize_url url prefer_https true strip_trailing_slash = Ok n ->
  has_char "#" n = false.
Proof. apply normalize_no_hash. Qed.

Lemma normal_form_has_no_fragment_witness :
  normalize_url " http://A.com/docs/#install " true true true
  = Ok "https://a.com/docs" /\
  has_char "#" "https://a.com/docs" = false.
Proof.
  assert (H : normalize_url " http://A.com/docs/#install " true true true
              = Ok "https://a.com/docs") by (vm_compute; reflexivity).
  split; [exact H|].
  exact (normal_form_has_no_fragment " http://A.com/docs/#install " true true
           "https://a.com/docs" H).
Defined.

(** ** The classifier and the per-group limits, in general *)

Section ClassifierOutput.
Import Filters.

Variable re_search : string -> string -> bool.
Variable title : string -> string.

Lemma lookup_group_nonempty (first g : string)
    (table : list (list string * string)) :
  Forall (fun e => snd e <> "") table ->
  lookup_group first table = Some g -> g <> "".
Proof.
  induction 1 as [|[names g'] table Hg _ IH]; simpl; [discriminate|].
  destruct (mem first names); [|exact IH]. now intros [= <-].
Qed.

Lemma group_table_nonempty : Forall (fun e => snd e <> "") group_table.
Proof. unfold group_table. repeat constructor; discriminate. Qed.

Lemma auto_group_nonempty (path : string) :
  _auto_group_from_path title path <> "".
Proof.
  unfold _auto_group_from_path.
  destruct (String.eqb path "/"); [discriminate|].
  destruct (segments path) as [|seg0 others]; [discriminate|].
  match goal with
  | |- match lookup_group ?f _ with _ => _ end <> _ =>
      destruct (lookup_group f group_table) as [g|] eqn:Hg
  end.
  - exact (lookup_group_nonempty _ _ _ group_table_nonempty Hg).
  - match goal with
    | |- (if is_empty ?n then _ else _) <> _ => destruct n; simpl; discriminate
    end.
Qed.

Lemma group_and_priority_nonempty (cfg : Config) (u path g : string) (prio : Z) :
  group_and_priority re_search title cfg u path = Ok (g, prio) -> g <> "".
Proof.
  unfold group_and_priority.
  destruct (List.find _ (include cfg)) as [r|].
  - intros [= <- _]. destruct (group r) as [[|c g']|]; simpl; discriminate.
  - destruct (auto_group cfg); [|intros [= <- _]; discriminate].
    destruct (urlparse u) as [parsed|]; [|discriminate].
    cbn [mbind result_bind].
    destruct (_ || _)%bool.
    + destruct (_ || _)%bool; [intros [= <- _]; discriminate|].
      destruct (_ || _)%bool; intros [= <- _]; discriminate.
    + intros [= <- _]. apply auto_group_nonempty.
Qed.

Lemma relative_path_nonempty (base_url u path : string) :
  _relative_path base_url u = Ok path -> path <> "".
Proof.
  unfold _relative_path.
  destruct (urlparse base_url); [|discriminate]. cbn [mbind result_bind].
  destruct (urlparse u) as [p|]; [|discriminate]. cbn [mbind result_bind].
  intros [= <-]. destruct (UrlParse.path p); simpl; discriminate.
Qed.

Lemma lang_at_length (s l : string) : lang_at s = Some l -> l <> "".
Proof.
  unfold lang_at. intros H.
  repeat match type of H with
         | match ?x with _ => _ end = _ => destruct x; try discriminate
         | (if ?b then _ else _) = _ => destruct b; try discriminate
         end; injection H as <-; discriminate.
Qed.

Lemma lang_search_nonempty (s l : string) : lang_search s = Some l -> l <> "".
Proof.
  induction s as [|c r IH].
  - simpl. discriminate.
  - cbn [lang_search]. destruct (lang_at (String c r)) eqn:E.
    + intros [= <-]. now apply lang_at_length in E.
    + exact IH.
Qed.

Lemma lower_nonempty (s : string) : s <> "" -> lower s <> "".
Proof. now destruct s. Qed.

Lemma detect_language_nonempty (path l : string) :
  _detect_language_prefix path = Some l -> is_empty l = false.
Proof.
  unfold _detect_language_prefix.
  destruct (lang_at path) eqn:E1.
  - intros [= <-]. apply lang_at_length, lower_nonempty in E1.
    now destruct (lower s).
  - destruct (lang_search path) eqn:E2; [|discriminate].
    intros [= <-]. apply lang_search_nonempty, lower_nonempty in E2.
    now destruct (lower s).
Qed.

Lemma classify_entry (cfg : Config) (u : string) (p : PageEntry) :
  classify re_search title cfg u = Ok (Some p) -> entry_of re_search cfg u p.
Proof.
  unfold classify.
  destruct (_relative_path (base_url cfg) u) as [path|] eqn:Hpath;
    [|discriminate].
  cbn [mbind result_bind].
  destruct (auto_filter_languages cfg && _)%bool eqn:Hlang; [discriminate|].
  destruct (is_excluded re_search cfg path) eqn:Hex; [discriminate|].
  destruct (group_and_priority re_search title cfg u path) as [[g prio]|]
    eqn:Hg; [|discriminate].
  cbn [mbind result_bind]. intros [= <-]. unfold entry_of.
  cbn [p_url p_path p_group p_priority p_score].
  repeat split; try assumption.
  - now apply relative_path_nonempty in Hpath.
  - intros Hon l Hl. rewrite Hon, Hl in Hlang. cbn [andb] in Hlang.
    rewrite (detect_language_nonempty _ _ Hl) in Hlang. cbn [negb andb] in Hlang.
    apply negb_false_iff, String.eqb_eq in Hlang. exact Hlang.
  - now apply group_and_priority_nonempty in Hg.
Qed.

Lemma classify_all_entries (cfg : Config) (urls : list string)
    (entries : list PageEntry) :
  classify_all re_search title cfg urls = Ok entries ->
  sublist (map p_url entries) urls /\
  Forall (fun p => entry_of re_search cfg (p_url p) p) entries.
Proof.
  revert entries. induction urls as [|u rest IH]; intros entries.
  - intros [= <-]. split; constructor.
  - cbn [classify_all].
    destruct (classify re_search title cfg u) as [e|] eqn:He; [|discriminate].
    cbn [mbind result_bind].
    destruct (classify_all re_search title cfg rest) as [es|]; [|discriminate].
    cbn [mbind result_bind]. destruct (IH es eq_refl) as [Hs Hf].
    destruct e as [p|]; intros [= <-].
    + pose proof (classify_entry _ _ _ He) as Hp.
      assert (Hu : p_url p = u) by apply Hp. split.
      * cbn [map]. rewrite Hu. now constructor.
      * constructor; [now rewrite Hu|exact Hf].
    + split; [now constructor|exact Hf].
Qed.

End ClassifierOutput.

(** X11. What the classifier returns.  The URLs of the entries are, up to
    the order, a sub-list of the input: no URL is invented, none yields two
    entries, and a URL given twice is classified twice.  Every entry
    carries the path component of its URL ([/] when that is empty), which no
    exclusion applies to; when language filtering is on, a language code
    found in the path is the default language; the group name is not empty,
    and the score is the one [_compute_score] gives for the entry's group,
    priority and path. *)
Theorem classifier_entries_are_well_formed
    (re_search : string -> string -> bool) (title : string -> string)
    (cfg : Filters.Config) (urls : list string)
    (pages : list Filters.PageEntry) :
  Filters.filter_and_group_urls re_search title cfg urls = Ok pages ->
  (exists kept, sublist kept urls /\ map Filters.p_url pages ≡ₚ kept) /\
  (forall p, p ∈ pages ->
     Filters.entry_of re_search cfg (Filters.p_url p) p).
Proof.
  unfold Filters.filter_and_group_urls.
  destruct (Filters.classify_all re_search title cfg urls) as [entries|]
    eqn:He; [|discriminate].
  cbn [mbind result_bind]. intros [= <-].
  destruct (classify_all_entries _ _ _ _ _ He) as [Hs Hf].
  pose proof (sorted_perm Filters.page_key Filters.key_lt entries) as Hperm.
  split.
  - exists (map Filters.p_url entries). split; [exact Hs|].
    now apply Permutation_map.
  - intros p Hp. rewrite Hperm in Hp. rewrite Forall_forall in Hf.
    now apply Hf.
Qed.

Lemma classifier_entries_are_well_formed_witness :
  exists pages,
    Filters.filter_and_group_urls Examples.literal_search
      Examples.ascii_title Examples.blog_config
      ["https://example.com/de/preise/"; "https://example.com/pricing";
       "https://example.com/blog/a"] = Ok pages /\
    (exists kept,
        sublist kept
          ["https://example.com/de/preise/"; "https://example.com/pricing";
           "https://example.com/blog/a"]
        /\ map Filters.p_url pages ≡ₚ kept) /\
    (forall p, p ∈ pages ->
       Filters.entry_of Examples.literal_search Examples.blog_config
         (Filters.p_url p) p).
Proof.
  assert (H : exists pages,
             Filters.filter_and_group_urls Examples.literal_search
               Examples.ascii_title Examples.blog_config
               ["https://example.com/de/preise/"; "https://example.com/pricing";
                "https://example.com/blog/a"] = Ok pages)
    by (vm_compute; eexists; reflexivity).
  destruct H as [pages H]. exists pages. split; [exact H|].
  exact (classifier_entries_are_well_formed Examples.literal_search
           Examples.ascii_title Examples.blog_config _ pages H).
Defined.

Section GroupLimitFacts.
Import Filters Generator.

Lemma in_group_apply_group_limits (group_limits : gmap string Z)
    (default_limit : option Z) (g : string) (pages : list PageEntry) :
  in_group g (apply_group_limits group_limits default_limit pages)
  ≡ₚ limit_group group_limits default_limit g (in_group g pages).
Proof.
  assert (Hg : forall q, q ∈ in_group g pages -> p_group q = g).
  { intros q Hq. unfold in_group in Hq.
    now apply list_elem_of_filter in Hq as [Hq _]. }
  unfold apply_group_limits.
  destruct (negb (bool_decide (group_limits = ∅)) || _)%bool eqn:Hact.
  - unfold in_group at 1.
    rewrite (filter_sorted page_key key_lt key_lt_strict_total).
    rewrite sorted_perm.
    fold (in_group g
            (flat_map (fun '(gname, gpages) =>
                         limit_group group_limits default_limit gname gpages)
                      (group_pages pages))).
    rewrite (in_group_flat_map g (limit_group group_limits default_limit));
      [|apply limit_group_subset|apply well_grouped_group_pages].
    rewrite group_entry_group_pages.
    unfold in_group at 1. rewrite filter_all; [reflexivity|].
    intros q Hq. apply Hg. now apply limit_group_subset in Hq.
  - apply orb_false_iff in Hact as [He Hd].
    apply negb_false_iff, bool_decide_eq_true in He. subst group_limits.
    unfold limit_group. rewrite lookup_empty.
    destruct default_limit as [l|]; [|reflexivity].
    apply negb_false_iff, Z.eqb_eq in Hd. subst l. reflexivity.
Qed.

Lemma group_limits_keep_top (group_limits : gmap string Z)
    (default_limit : option Z) (g : string) (pages : list PageEntry) :
  exists kept dropped,
    in_group g pages ≡ₚ (kept ++ dropped)%list /\
    in_group g (apply_group_limits group_limits default_limit pages) ≡ₚ kept /\
    (forall p q, p ∈ kept -> q ∈ dropped -> p_score q <= p_score p) /\
    length kept
    = match limit_of group_limits default_limit g with
      | Some k =>
          if Z.ltb 0 k
          then Nat.min (Z.to_nat k) (length (in_group g pages))
          else length (in_group g pages)
      | None => length (in_group g pages)
      end.
Proof.
  pose proof (in_group_apply_group_limits group_limits default_limit g pages)
    as Hout.
  unfold limit_group in Hout. fold (limit_of group_limits default_limit g) in Hout.
  set (gp := in_group g pages) in *.
  assert (Hall : exists kept dropped,
             gp ≡ₚ (kept ++ dropped)%list /\ gp ≡ₚ kept /\
             (forall p q, p ∈ kept -> q ∈ dropped -> p_score q <= p_score p) /\
             length kept = length gp).
  { exists gp, []. rewrite app_nil_r. repeat split; try reflexivity.
    intros p q _ Hq. by apply elem_of_nil in Hq. }
  destruct (limit_of group_limits default_limit g) as [k|].
  2:{ destruct Hall as (kept & dropped & H1 & H2 & H3 & H4).
      exists kept, dropped. repeat split; try assumption. now rewrite Hout. }
  destruct (Z.leb_spec k 0) as [Hk|Hk].
  { destruct Hall as (kept & dropped & H1 & H2 & H3 & H4).
    exists kept, dropped. destruct (Z.ltb_spec 0 k); [lia|].
    repeat split; try assumption. now rewrite Hout. }
  destruct (Z.ltb_spec 0 k); [|lia].
  set (L := sorted (fun p => - p_score p) Z.ltb gp) in *.
  exists (firstn (Z.to_nat k) L), (skipn (Z.to_nat k) L).
  pose proof (sorted_perm (fun p => - p_score p) Z.ltb gp) as Hperm.
  fold L in Hperm.
  split; [now rewrite take_drop|]. split; [exact Hout|]. split.
  - intros p q Hp Hq.
    pose proof (firstn_before_skipn (fun p => - p_score p) Z.ltb
                  (Z.to_nat k) L p q
                  (sorted_ordered _ _ Z_ltb_strict_total gp) Hp Hq) as Ho.
    unfold ordered in Ho. apply Z.ltb_ge in Ho. lia.
  - rewrite length_take. now rewrite (Permutation_length Hperm).
Qed.

End GroupLimitFacts.

(** X12. The per-group limits, in general.  For every group, the entries
    of the group split into those kept and those dropped: the kept ones are
    the entries of the group in the result, no dropped entry has a higher
    score than a kept one, and the number kept is the smaller of the limit
    of the group and the size of the group when that limit (its own, or the
    default) is positive, and the size of the group otherwise. *)
Theorem group_limits_keep_top_scores (group_limits : gmap string Z)
    (default_limit : option Z) (g : string)
    (pages : list Filters.PageEntry) :
  exists kept dropped,
    Generator.in_group g pages ≡ₚ (kept ++ dropped)%list /\
    Generator.in_group g
      (Generator.apply_group_limits group_limits default_limit pages)
    ≡ₚ kept /\
    (forall p q, p ∈ kept -> q ∈ dropped ->
                 Filters.p_score q <= Filters.p_score p) /\
    length kept
    = match Generator.limit_of group_limits default_limit g with
      | Some k =>
          if Z.ltb 0 k
          then Nat.min (Z.to_nat k) (length (Generator.in_group g pages))
          else length (Generator.in_group g pages)
      | None => length (Generator.in_group g pages)
      end.
Proof. apply group_limits_keep_top. Qed.

(** ** From the classifier to the pages that are rendered *)

Section SelectionFacts.
Import Filters Generator.

Lemma classifier_entries_from_input
    (re_search : string -> string -> bool) (title : string -> string)
    (cfg : Config) (urls : list string) (pages : list PageEntry) :
  filter_and_group_urls re_search title cfg urls = Ok pages ->
  (forall p, p ∈ pages -> p_url p ∈ urls) /\
  (forall p, p ∈ pages -> entry_of re_search cfg (p_url p) p).
Proof.
  unfold filter_and_group_urls.
  destruct (classify_all re_search title cfg urls) as [entries|] eqn:He;
    [|discriminate].
  cbn [mbind result_bind]. intros [= <-].
  destruct (classify_all_entries _ _ _ _ _ He) as [Hs Hf].
  pose proof (sorted_perm page_key key_lt entries) as Hperm.
  split; intros p Hp; rewrite Hperm in Hp.
  - eapply elem_of_sublist; [|exact Hs].
    now apply (list_elem_of_fmap_2 p_url).
  - rewrite Forall_forall in Hf. now apply Hf.
Qed.


Variable re_search : string -> string -> bool.
Variable title : string -> string.

Lemma StronglySorted_filter {A : Type} (R : A -> A -> Prop) (P : A -> Prop)
    `{Pdec : !forall x, Decision (P x)} (l : list A) :
  StronglySorted R l -> StronglySorted R (filter P l).
Proof.
  induction 1 as [|a l Hs IH Ha]; [constructor|].
  rewrite filter_cons. destruct (decide (P a)); [|exact IH].
  constructor; [exact IH|].
  rewrite Forall_forall in Ha. rewrite Forall_forall. intros x Hx.
  apply Ha. now apply list_elem_of_filter in Hx as [_ Hx].
Qed.

Lemma apply_group_limits_subset (group_limits : gmap string Z)
    (default_limit : option Z) (pages : list PageEntry) (p : PageEntry) :
  p ∈ apply_group_limits group_limits default_limit pages -> p ∈ pages.
Proof.
  intros Hp.
  assert (Hg : p ∈ in_group (p_group p)
                     (apply_group_limits group_limits default_limit pages)).
  { unfold in_group. apply list_elem_of_filter. now split. }
  rewrite in_group_apply_group_limits in Hg.
  apply limit_group_subset in Hg. unfold in_group in Hg.
  now apply list_elem_of_filter in Hg as [_ Hg].
Qed.

Lemma apply_group_limits_nonempty (group_limits : gmap string Z)
    (default_limit : option Z) (pages : list PageEntry) :
  pages <> [] -> apply_group_limits group_limits default_limit pages <> [].
Proof.
  destruct pages as [|p0 rest]; [congruence|]. intros _ Hnil.
  destruct (group_limits_keep_top group_limits default_limit (p_group p0)
              (p0 :: rest)) as (kept & dropped & H1 & H2 & _ & H4).
  rewrite Hnil in H2. unfold in_group at 1 in H2. rewrite filter_nil in H2.
  apply Permutation_nil in H2. subst kept. cbn [length] in H4.
  assert (Hin : (0 < length (in_group (p_group p0) (p0 :: rest)))%nat).
  { unfold in_group. rewrite filter_cons_True by reflexivity. simpl. lia. }
  destruct (limit_of group_limits default_limit (p_group p0)) as [k|]; [|lia].
  destruct (Z.ltb_spec 0 k); lia.
Qed.

Lemma select_pages_spec (cfg : Config) (profiles : gmap string (list string))
    (group_limits : gmap string Z) (default_limit : option Z)
    (urls : list string) (max_pages : option Z) (profile : option string)
    (only_groups : option (list string)) (pages : list PageEntry) :
  select_pages re_search title cfg profiles group_limits default_limit urls
    max_pages profile only_groups = Ok (Some pages) ->
  pages <> [] /\
  StronglySorted (ordered page_key key_lt) pages /\
  (forall m, max_pages = Some m -> 0 < m ->
             (length pages <= Z.to_nat m)%nat) /\
  (forall p, p ∈ pages ->
     p_url p ∈ urls /\ entry_of re_search cfg (p_url p) p /\
     forall groups, groups_set profiles profile only_groups = Some groups ->
                    p_group p ∈ groups).
Proof.
  unfold select_pages.
  destruct (filter_and_group_urls re_search title cfg urls) as [all|] eqn:Hall;
    [|discriminate].
  cbn [mbind result_bind].
  pose proof (filter_and_group_urls_sorted _ _ _ _ _ Hall) as Hsorted.
  destruct (classifier_entries_from_input re_search title _ _ _ Hall)
    as [Hurl Hent].
  destruct all as [|p0 all']; [discriminate|].
  set (all := p0 :: all') in *.
  remember (_apply_group_profile profiles all profile only_groups) as sel
    eqn:Esel.
  assert (Hsel_sorted : StronglySorted (ordered page_key key_lt) sel).
  { rewrite Esel. unfold _apply_group_profile.
    destruct (groups_set _ _ _); [|exact Hsorted].
    now apply StronglySorted_filter. }
  assert (Hsel_sub : forall p, p ∈ sel ->
            p ∈ all /\
            forall groups, groups_set profiles profile only_groups = Some groups ->
                           p_group p ∈ groups).
  { rewrite Esel. unfold _apply_group_profile. intros p Hp.
    destruct (groups_set _ _ _) as [groups|].
    - apply list_elem_of_filter in Hp as [Hm Hp]. split; [exact Hp|].
      intros ? [= <-]. apply Is_true_true in Hm. unfold mem in Hm.
      apply existsb_exists in Hm as (x & Hx & Heq).
      apply String.eqb_eq in Heq. subst x. now apply list_elem_of_In.
    - split; [exact Hp|]. discriminate. }
  clear Esel. destruct sel as [|q0 sel']; [discriminate|].
  set (sel := q0 :: sel') in *.
  set (lim := apply_group_limits group_limits default_limit sel).
  assert (Hlim_ne : lim <> []).
  { apply apply_group_limits_nonempty. discriminate. }
  assert (Hlim_sorted : StronglySorted (ordered page_key key_lt) lim)
    by now apply apply_group_limits_sorted.
  assert (Hlim_sub : forall p, p ∈ lim -> p ∈ sel)
    by (intros p; apply apply_group_limits_subset).
  match goal with
  | |- Ok (Some ?t) = _ -> _ => set (final := t)
  end.
  assert (Hfinal : final <> [] /\
                   StronglySorted (ordered page_key key_lt) final /\
                   (forall m, max_pages = Some m -> 0 < m ->
                              (length final <= Z.to_nat m)%nat) /\
                   forall p, p ∈ final -> p ∈ lim).
  { subst final. destruct max_pages as [m|].
    - destruct (Z.ltb_spec 0 m) as [Hm|Hm].
      + repeat split.
        * destruct lim; [congruence|].
          destruct (Z.to_nat m) eqn:E; [lia|]. discriminate.
        * now apply firstn_ordered.
        * intros ? [= <-] _. rewrite length_take. lia.
        * intros p. apply (subseteq_take (Z.to_nat m)).
      + repeat split; auto. intros ? [= <-] ?. lia.
    - repeat split; auto. discriminate. }
  clearbody final. intros [= <-].
  destruct Hfinal as (H1 & H2 & H3 & H4).
  split; [exact H1|]. split; [exact H2|]. split; [exact H3|].
  intros p Hp. destruct (Hsel_sub p (Hlim_sub p (H4 p Hp))) as [Ha Hg].
  split; [now apply Hurl|]. split; [now apply Hent|exact Hg].
Qed.

End SelectionFacts.

(** X13. The pages that [_generate_llms_from_urls] goes on to print or
    render, after the group selection, the per-group limits and the cut to
    [max_pages]: the list is not empty, it is sorted by
    (group ascending, score descending, path ascending), it has at most
    [max_pages] entries when that is positive, and each of its entries is an
    entry the classifier made for one of the input URLs, in one of the
    selected groups when a selection applies. *)
Theorem selected_pages_are_sorted_bounded_and_classified
    (re_search : string -> string -> bool) (title : string -> string)
    (cfg : Filters.Config) (profiles : gmap string (list string))
    (group_limits : gmap string Z) (default_limit : option Z)
    (urls : list string) (max_pages : option Z) (profile : option string)
    (only_groups : option (list string)) (pages : list Filters.PageEntry) :
  Generator.select_pages re_search title cfg profiles group_limits
    default_limit urls max_pages profile only_groups = Ok (Some pages) ->
  pages <> [] /\
  StronglySorted (ordered Filters.page_key Filters.key_lt) pages /\
  (forall m, max_pages = Some m -> 0 < m ->
             (length pages <= Z.to_nat m)%nat) /\
  (forall p, p ∈ pages ->
     Filters.p_url p ∈ urls /\
     Filters.entry_of re_search cfg (Filters.p_url p) p /\
     forall groups,
       Generator.groups_set profiles profile only_groups = Some groups ->
       Filters.p_group p ∈ groups).
Proof. apply select_pages_spec. Qed.

Lemma selected_pages_are_sorted_bounded_and_classified_witness :
  exists pages,
    Generator.select_pages Examples.literal_search Examples.ascii_title
      Examples.blog_config ∅ {["Blog" := 3]} None Examples.site_urls
      (Some 4) None (Some ["Blog"; "Docs"]) = Ok (Some pages) /\
    length pages = 4%nat /\
    StronglySorted (ordered Filters.page_key Filters.key_lt) pages.
Proof.
  assert (H : exists pages,
             Generator.select_pages Examples.literal_search
               Examples.ascii_title Examples.blog_config ∅ {["Blog" := 3]}
               None Examples.site_urls (Some 4) None (Some ["Blog"; "Docs"])
             = Ok (Some pages) /\ length pages = 4%nat)
    by (vm_compute; eexists; split; reflexivity).
  destruct H as (pages & H & Hlen). exists pages.
  split; [exact H|]. split; [exact Hlen|].
  exact (proj1 (proj2 (selected_pages_are_sorted_bounded_and_classified
                         Examples.literal_search Examples.ascii_title
                         Examples.blog_config ∅ {["Blog" := 3]} None
                         Examples.site_urls (Some 4) None
                         (Some ["Blog"; "Docs"]) pages H))).
Defined.

(** ** The sitemap reader, in general *)

Section SitemapFailures.
Import Sitemap.

Variable w : gmap string xml_doc.

Lemma candidates_loop_raises
    (expand : string -> gset string -> fueled (list string * gset string))
    (candidates : list string) (seen : gset string) (urls : list string)
    (e : exn) :
  expand_candidates expand candidates seen urls = Some (Raised e) ->
  exists c seen', c ∈ candidates /\ endswith ".xml" c = true /\
                  expand c seen' = Some (Raised e).
Proof.
  revert seen urls. induction candidates as [|c rest IH]; intros seen urls.
  - discriminate.
  - cbn [expand_candidates]. destruct (endswith ".xml" c) eqn:Hx.
    + destruct (expand c seen) as [[[sub seen1]|e1]|] eqn:Hc.
      * intros H. destruct (IH _ _ H) as (c' & s' & H1 & H2 & H3).
        exists c', s'. split; [now apply list_elem_of_further|now split].
      * intros [= <-]. exists c, seen.
        split; [apply list_elem_of_here|now split].
      * discriminate.
    + intros H. destruct (IH _ _ H) as (c' & s' & H1 & H2 & H3).
      exists c', s'. split; [now apply list_elem_of_further|now split].
Qed.

Lemma expand_raises (fuel : nat) (url : string) (seen : gset string)
    (e : exn) :
  _expand_sitemap_index fuel w url seen = Some (Raised e) ->
  exists s, e = FetchError s /\ w !! s = None /\
            (s = url \/ listed_sitemap w s).
Proof.
  revert url seen. induction fuel as [|fuel IH]; intros url seen; [discriminate|].
  cbn [_expand_sitemap_index].
  destruct (decide (url ∈ seen)); [discriminate|].
  unfold _fetch_xml. destruct (w !! url) as [doc|] eqn:Hdoc.
  - intros H. apply candidates_loop_raises in H as (c & seen' & Hc & Hx & H).
    apply IH in H as (s & -> & Hs & [->|Hl]).
    + exists c. split; [reflexivity|]. split; [exact Hs|]. right.
      now exists url, doc.
    + exists s. now repeat split; [|right].
  - intros [= <-]. exists url. split; [reflexivity|]. split; [exact Hdoc|].
    now left.
Qed.

Lemma collect_raises (fuel : nat) (url : string) (seen : gset string)
    (e : exn) :
  _collect_from_sitemap_source fuel w url seen = Some (Raised e) ->
  exists s, e = FetchError s /\ w !! s = None /\ listed_sitemap w s.
Proof.
  unfold _collect_from_sitemap_source, _fetch_xml.
  destruct (w !! url) as [doc|] eqn:Hdoc; [|discriminate].
  destruct (existsb _ _); [|discriminate].
  intros H. apply candidates_loop_raises in H as (c & seen' & Hc & Hx & H).
  apply expand_raises in H as (s & -> & Hs & [->|Hl]).
  - exists c. split; [reflexivity|]. split; [exact Hs|]. now exists url, doc.
  - now exists s.
Qed.

Lemma collect_ok (fuel : nat) (url : string) (seen : gset string) :
  (size (dom w ∖ seen) < fuel)%nat ->
  exists r,
    _collect_from_sitemap_source fuel w url seen = Some r /\
    (w !! url = None -> r = Ok ([], seen)) /\
    forall urls seen', r = Ok (urls, seen') ->
      seen ⊆ seen' /\
      forall u, u ∈ urls <->
        leaf_of w url u
        \/ exists s, s ∈ seen' /\ (s ∉ seen) /\ leaf_of w s u.
Proof.
  intros Hsz. unfold _collect_from_sitemap_source, _fetch_xml.
  destruct (w !! url) as [doc|] eqn:Hdoc.
  - destruct (existsb (endswith ".xml") (_parse_sitemap_xml doc)) eqn:Hany.
    + destruct (candidates_loop_ok w fuel (expand_ok w fuel)
                  (_parse_sitemap_xml doc) seen [] Hsz) as (r & Hr & Hspec).
      exists r. split; [exact Hr|]. split; [discriminate|].
      intros urls seen' ->. destruct (Hspec urls seen' eq_refl) as [Hsub Hl].
      split; [exact Hsub|]. intros u. rewrite Hl. split.
      * intros [H|[[H Hx]|H]]; [by apply elem_of_nil in H| |by right].
        left. now exists doc.
      * intros [(doc' & Hd & Hu & Hx)|H]; [|by right; right].
        rewrite Hdoc in Hd. injection Hd as <-. right; left. by split.
    + eexists. split; [reflexivity|]. split; [discriminate|].
      intros urls seen' [= <- <-]. split; [done|]. intros u. split.
      * intros Hu. left. exists doc. split; [done|]. split; [done|].
        destruct (endswith ".xml" u) eqn:Hx; [|done].
        assert (existsb (endswith ".xml") (_parse_sitemap_xml doc) = true).
        { apply existsb_exists. exists u. split; [|done].
          now apply list_elem_of_In. }
        congruence.
      * intros [(doc' & Hd & Hu & Hx)|(s & H1 & H2 & _)]; [|done].
        rewrite Hdoc in Hd. now injection Hd as <-.
  - eexists. split; [reflexivity|]. split; [done|].
    intros urls seen' [= <- <-]. split; [done|]. intros u. split.
    + intros H. by apply elem_of_nil in H.
    + intros [(doc' & Hd & _)|(s & H1 & H2 & _)]; [congruence|done].
Qed.

End SitemapFailures.

(** X14. The only failure of the sitemap reader is a sitemap that cannot be
    fetched.  When [_expand_sitemap_index] raises, the error is the fetch
    error of a URL that the web does not answer for: the URL it was called
    on, or a URL ending in [.xml] that a fetched document lists.  When
    [_collect_from_sitemap_source] raises, it is for such a listed URL,
    never for the URL of the source itself. *)
Theorem sitemap_errors_name_a_missing_sitemap
    (w : gmap string Sitemap.xml_doc) (fuel : nat) (url : string)
    (seen : gset string) (e : exn) :
  (Sitemap._expand_sitemap_index fuel w url seen = Some (Raised e) ->
   exists s, e = FetchError s /\ w !! s = None /\
             (s = url \/ Sitemap.listed_sitemap w s)) /\
  (Sitemap._collect_from_sitemap_source fuel w url seen = Some (Raised e) ->
   exists s, e = FetchError s /\ w !! s = None /\
             Sitemap.listed_sitemap w s).
Proof.
  split; [apply expand_raises|apply collect_raises].
Qed.

Lemma sitemap_errors_name_a_missing_sitemap_witness :
  Sitemap._collect_from_sitemap_source 1 Examples.broken_child_web
    "https://a.com/sitemap.xml" ∅
  = Some (Raised (FetchError "https://a.com/child.xml")) /\
  exists s, FetchError "https://a.com/child.xml" = FetchError s /\
            Examples.broken_child_web !! s = None /\
            Sitemap.listed_sitemap Examples.broken_child_web s.
Proof.
  assert (H : Sitemap._collect_from_sitemap_source 1
                Examples.broken_child_web "https://a.com/sitemap.xml" ∅
              = Some (Raised (FetchError "https://a.com/child.xml")))
    by (vm_compute; reflexivity).
  split; [exact H|].
  exact (proj2 (sitemap_errors_name_a_missing_sitemap
                  Examples.broken_child_web 1 "https://a.com/sitemap.xml" ∅
                  (FetchError "https://a.com/child.xml")) H).
Defined.

(** X15. Reading one sitemap source ends, on every finite web: with room
    for one nested call per sitemap not yet seen, and one more,
    [_collect_from_sitemap_source] returns or raises.  A source that cannot
    be fetched gives the empty list and leaves the set of seen sitemaps as
    it was.  When the function returns, that set has only grown, and the
    URLs returned are the page URLs listed by the source's own document and
    by the sitemaps seen during the call. *)
Theorem sitemap_source_collection_terminates
    (w : gmap string Sitemap.xml_doc) (fuel : nat) (url : string)
    (seen : gset string) :
  (size (dom w ∖ seen) < fuel)%nat ->
  exists r,
    Sitemap._collect_from_sitemap_source fuel w url seen = Some r /\
    (w !! url = None -> r = Ok ([], seen)) /\
    forall urls seen', r = Ok (urls, seen') ->
      seen ⊆ seen' /\
      forall u, u ∈ urls <->
        Sitemap.leaf_of w url u
        \/ exists s, s ∈ seen' /\ (s ∉ seen) /\ Sitemap.leaf_of w s u.
Proof. apply collect_ok. Qed.

Lemma sitemap_source_collection_terminates_witness :
  (size (dom Examples.cyclic_web ∖ (∅ : gset string)) < 3)%nat /\
  exists r,
    Sitemap._collect_from_sitemap_source 3 Examples.cyclic_web
      "https://a.com/a.xml" ∅ = Some r /\
    (Examples.cyclic_web !! "https://a.com/a.xml" = None -> r = Ok ([], ∅)) /\
    forall urls seen', r = Ok (urls, seen') ->
      ∅ ⊆ seen' /\
      forall u, u ∈ urls <->
        Sitemap.leaf_of Examples.cyclic_web "https://a.com/a.xml" u
        \/ exists s, s ∈ seen' /\ (s ∉ (∅ : gset string))
                     /\ Sitemap.leaf_of Examples.cyclic_web s u.
Proof.
  assert (H : (size (dom Examples.cyclic_web ∖ (∅ : gset string)) < 3)%nat)
    by (vm_compute; constructor).
  split; [exact H|].
  exact (sitemap_source_collection_terminates Examples.cyclic_web 3
           "https://a.com/a.xml" ∅ H).
Defined.

(** ** The traffic and the first result of a crawl *)

Section CrawlBudget.
Import Crawler.

Variable fetch : site.
Variable max_urls : Z.
Variable max_depth : Z.
Variable root_domain : option string.
Variable allow_same_root_subdomains : bool.
Variable polite_delay : bool.
Variable max_retries : Z.
Variable B : nat.

Hypothesis bounded : out_degree_at_most fetch B.

Local Abbreviation gets := (fun st : state => length (filter is_get (trace st))).
Local Abbreviation R := (Z.to_nat (max_retries + 1)).

Lemma fetch_with_retry_gets (current : string) :
  (length (filter is_get
             (snd (fetch_with_retry fetch polite_delay max_retries current)))
   <= R)%nat.
Proof.
  unfold fetch_with_retry.
  destruct (retry_loop_events fetch polite_delay max_retries current
              (seq 0 R) None None []) as (evs & He & Hg & _).
  rewrite He. simpl. now rewrite length_seq in Hg.
Qed.

Lemma visit_gets (current : string) (depth : Z) (st st' : state) :
  visit fetch max_urls max_depth root_domain allow_same_root_subdomains
    polite_delay max_retries current depth st = Ok st' ->
  (gets st' <= gets st + R)%nat.
Proof.
  intros H.
  destruct (visit_spec _ _ _ _ _ _ _ _ _ _ _ H) as [Hin Hout].
  destruct (decide (current ∈ visited st)) as [Hv|Hv].
  - rewrite (Hin Hv). lia.
  - destruct (Hout Hv) as (_ & _ & _ & _ & evs & -> & [[-> _]|[-> _]]).
    + rewrite app_nil_r. lia.
    + rewrite filter_app, length_app.
      pose proof (fetch_with_retry_gets current). lia.
Qed.

Lemma crawl_loop_gets (fuel : nat) (st st' : state) :
  crawl_loop fetch max_urls max_depth root_domain allow_same_root_subdomains
    polite_delay max_retries fuel st = Some (Ok st') ->
  (gets st' <= gets st + R * queue_turns B max_depth (queue st))%nat.
Proof.
  revert st. induction fuel as [|fuel IH]; intros st.
  - destruct st as [q c v rs h f t]. destruct q as [|[[[p c'] u] d] q]; simpl.
    + intros [= <-]. simpl. lia.
    + destruct (negb _); [|discriminate]. intros [= <-]. simpl. lia.
  - destruct st as [q c v rs h f t]. destruct q as [|[[[p c'] u] d] q].
    + simpl. intros [= <-]. simpl. lia.
    + cbn [crawl_loop queue counter visited results dynamic_allowed_hosts
           failed_urls trace].
      destruct (negb _); [intros [= <-]; simpl; lia|].
      destruct (visit _ _ _ _ _ _ _ u d _) as [st1|e] eqn:Hv; [|discriminate].
      intros H. apply IH in H.
      pose proof (visit_gets _ _ _ _ Hv) as Hg.
      pose proof (visit_turns fetch max_urls max_depth root_domain
                    allow_same_root_subdomains polite_delay max_retries B
                    bounded _ _ _ _ Hv) as Ht.
      cbn [queue trace] in Hg, Ht.
      rewrite queue_turns_cons. unfold entry_depth. cbn [snd]. nia.
Qed.

Lemma crawl_site_gets (fuel : nat) (start_url : string)
    (allowed_hosts : list string) (failed : option (list FailedURLRecord))
    (st : state) :
  crawl_site fetch max_urls max_depth root_domain allow_same_root_subdomains
    polite_delay max_retries fuel start_url allowed_hosts failed = Some (Ok st) ->
  (gets st <= R * turns B (Z.to_nat max_depth))%nat.
Proof.
  unfold crawl_site.
  match goal with
  | |- match ?a with _ => _ end = _ -> _ => destruct a as [[s pr]|e]
  end; [|discriminate].
  intros H. apply crawl_loop_gets in H. cbn [trace queue heappush] in H.
  rewrite queue_turns_single in H. unfold entry_depth in H. cbn [snd] in H.
  rewrite Z.sub_0_r in H. simpl in H. lia.
Qed.

End CrawlBudget.

Section CrawlStart.
Import Crawler.

Variable fetch : site.
Variable max_urls : Z.
Variable max_depth : Z.
Variable root_domain : option string.
Variable allow_same_root_subdomains : bool.
Variable polite_delay : bool.
Variable max_retries : Z.

Lemma enqueue_links_results (depth : Z) (links : list string) (st st' : state) :
  enqueue_links max_urls root_domain allow_same_root_subdomains depth links st
  = Ok st' -> results st' = results st.
Proof.
  intros H. now apply enqueue_links_spec in H as (_ & H & _).
Qed.

Lemma visit_results_grow (current : string) (depth : Z) (st st' : state) :
  visit fetch max_urls max_depth root_domain allow_same_root_subdomains
    polite_delay max_retries current depth st = Ok st' ->
  results st `prefix_of` results st'.
Proof.
  intros H.
  destruct (visit_spec _ _ _ _ _ _ _ _ _ _ _ H) as [Hin Hout].
  destruct (decide (current ∈ visited st)) as [Hv|Hv].
  - now rewrite (Hin Hv).
  - destruct (Hout Hv) as (_ & _ & _ & [->| ->] & _); [done|].
    now apply prefix_app_r.
Qed.

Lemma crawl_loop_results_grow (fuel : nat) (st st' : state) :
  crawl_loop fetch max_urls max_depth root_domain allow_same_root_subdomains
    polite_delay max_retries fuel st = Some (Ok st') ->
  results st `prefix_of` results st'.
Proof.
  revert st. induction fuel as [|fuel IH]; intros st.
  - destruct st as [q c v rs h f t]. destruct q as [|[[[p c'] u] d] q]; simpl.
    + now intros [= <-].
    + destruct (negb _); [|discriminate]. now intros [= <-].
  - destruct st as [q c v rs h f t]. destruct q as [|[[[p c'] u] d] q].
    + simpl. now intros [= <-].
    + cbn [crawl_loop queue counter visited results dynamic_allowed_hosts
           failed_urls trace].
      destruct (negb _); [now intros [= <-]|].
      destruct (visit _ _ _ _ _ _ _ u d _) as [st1|e] eqn:Hv; [|discriminate].
      intros H. apply IH in H. apply visit_results_grow in Hv.
      cbn [results] in Hv. now transitivity (results st1).
Qed.

Lemma retry_loop_first_answer (current : string) (r : response)
    (rest : list nat) (resp : option response) (last_err : option exn)
    (tr : list event) :
  fetch current 0%nat = Responds r -> status_code r < 400 ->
  fst (fst (retry_loop fetch polite_delay max_retries current (0%nat :: rest)
              resp last_err tr)) = Some r.
Proof.
  intros Hf Hs. cbn [retry_loop]. rewrite Hf.
  assert (H404 : Z.eqb (status_code r) 404 = false) by (apply Z.eqb_neq; lia).
  assert (H429 : Z.eqb (status_code r) 429 = false) by (apply Z.eqb_neq; lia).
  rewrite H404, H429.
  assert (H5 : existsb (Z.eqb (status_code r)) [500; 502; 503; 504; 520]
               = false).
  { cbn [existsb]. repeat (rewrite (proj2 (Z.eqb_neq _ _)) by lia).
    reflexivity. }
  rewrite H5. unfold raise_for_status.
  destruct (Z.leb_spec 400 (status_code r)); [lia|].
  destruct (Z.leb_spec 500 (status_code r)); [lia|]. reflexivity.
Qed.

Lemma visit_keeps_answered_page (current : string) (depth : Z) (st st' : state) :
  0 <= max_retries ->
  current ∉ visited st ->
  _is_allowed_domain current (dynamic_allowed_hosts st) = Ok true ->
  should_skip_by_extension current = Ok false ->
  answers_with_page (fetch current 0%nat) ->
  visit fetch max_urls max_depth root_domain allow_same_root_subdomains
    polite_delay max_retries current depth st = Ok st' ->
  (results st ++ [current])%list `prefix_of` results st'.
Proof.
  intros Hm Hv Hallowed Hskip Hans. unfold visit.
  rewrite bool_decide_eq_false_2 by exact Hv.
  cbn [queue counter visited results dynamic_allowed_hosts failed_urls trace].
  assert (Hp : exists p, urlparse current = Ok p).
  { unfold _is_allowed_domain in Hallowed.
    destruct (urlparse current) as [p|e]; [eauto|discriminate]. }
  destruct Hp as [p Hp]. rewrite Hp, Hallowed. simpl. rewrite Hskip. simpl.
  destruct (fetch current 0%nat) as [r|] eqn:Hf; [|contradiction].
  destruct Hans as [Hs Hct].
  unfold fetch_with_retry.
  replace (Z.to_nat (max_retries + 1)) with (S (Z.to_nat max_retries)) by lia.
  cbn [seq].
  pose proof (retry_loop_first_answer current r (seq 1 (Z.to_nat max_retries))
                None None [] Hf Hs) as Hr.
  destruct (retry_loop _ _ _ _ _ _ _ _) as [[resp last_err] evs].
  cbn [fst] in Hr. subst resp. cbn [results trace queue counter visited
    dynamic_allowed_hosts failed_urls].
  cbn zeta in Hct. rewrite Hct.
  destruct (Z.leb max_depth depth); [now intros [= <-]|].
  destruct (page_links r) as [links|]; [|now intros [= <-]].
  intros H. apply enqueue_links_results in H. cbn [results] in H.
  now rewrite H.
Qed.

End CrawlStart.

(** X16. The request budget of a crawl.  On a site none of whose pages
    carries more than [B] links, a crawl that returns has made at most
    [(max_retries + 1) * (1 + B + ... + B^max_depth)] requests, whatever
    [max_urls] is: pages that fail or are not HTML use up requests without
    counting as results, so the depth limit is what bounds the traffic. *)
Theorem crawl_request_budget (fetch : Crawler.site)
    (max_urls max_depth : Z) (root_domain : option string)
    (allow_same_root_subdomains polite_delay : bool) (max_retries : Z)
    (B fuel : nat) (start_url : string) (allowed_hosts : list string)
    (failed : option (list Crawler.FailedURLRecord)) (st : Crawler.state) :
  Crawler.out_degree_at_most fetch B ->
  Crawler.crawl_site fetch max_urls max_depth root_domain
    allow_same_root_subdomains polite_delay max_retries fuel start_url
    allowed_hosts failed = Some (Ok st) ->
  (length (filter Crawler.is_get (Crawler.trace st))
   <= Z.to_nat (max_retries + 1) * Crawler.turns B (Z.to_nat max_depth))%nat.
Proof.
  intros Hb H. exact (crawl_site_gets _ _ _ _ _ _ _ _ Hb _ _ _ _ _ H).
Qed.

Lemma crawl_request_budget_witness :
  exists st,
    Crawler.crawl_site Examples.unavailable_site 10 2 None false true 4 7
      "https://a.com/" ["a.com"] None = Some (Ok st) /\
    (length (filter Crawler.is_get (Crawler.trace st)) <= 5 * 1)%nat.
Proof.
  assert (H : exists st,
             Crawler.crawl_site Examples.unavailable_site 10 2 None false
               true 4 7 "https://a.com/" ["a.com"] None = Some (Ok st))
    by (vm_compute; eexists; reflexivity).
  destruct H as [st H]. exists st. split; [exact H|].
  apply (crawl_request_budget Examples.unavailable_site 10 2 None false true
           4 0 7 "https://a.com/" ["a.com"] None st); [|exact H].
  intros url attempt r links Hf Hl. unfold Examples.unavailable_site in Hf.
  injection Hf as <-. injection Hl as <-. simpl. lia.
Defined.

(** X17. The start page comes first.  When the start URL, without its
    fragment and normalised, is on an allowed host and is not a binary
    asset, [max_urls] is positive, and the first request for it is answered
    with a status below 400 and an HTML content type (or none), a crawl that
    returns has that URL as its first result. *)
Theorem start_page_is_first_result (fetch : Crawler.site)
    (max_urls max_depth : Z) (root_domain : option string)
    (allow_same_root_subdomains polite_delay : bool) (max_retries : Z)
    (fuel : nat) (start_url : string) (allowed_hosts : list string)
    (failed : option (list Crawler.FailedURLRecord)) (st : Crawler.state)
    (defragged start : string) :
  Crawler.crawl_site fetch max_urls max_depth root_domain
    allow_same_root_subdomains polite_delay max_retries fuel start_url
    allowed_hosts failed = Some (Ok st) ->
  urldefrag start_url = Ok defragged ->
  normalize_url defragged true true true = Ok start ->
  0 <= max_retries -> 0 < max_urls ->
  Crawler._is_allowed_domain start
    (list_to_set (map lower (filter (fun h => negb (is_empty h)) allowed_hosts)))
  = Ok true ->
  should_skip_by_extension start = Ok false ->
  Crawler.answers_with_page (fetch start 0%nat) ->
  exists rest, Crawler.results st = start :: rest.
Proof.
  intros H Hd Hn Hm Hmax Hallowed Hskip Hans.
  unfold Crawler.crawl_site in H. rewrite Hd in H. cbn [mbind result_bind] in H.
  rewrite Hn in H. cbn [mbind result_bind] in H.
  destruct (Crawler._get_url_priority start) as [pr|]; [|discriminate].
  cbn [mbind result_bind Crawler.heappush] in H.
  destruct fuel as [|fuel].
  { cbn [Crawler.crawl_loop Crawler.queue Crawler.results length] in H.
    destruct (Z.ltb_spec (Z.of_nat 0) max_urls); [discriminate|lia]. }
  cbn [Crawler.crawl_loop Crawler.queue Crawler.results length
       Crawler.counter Crawler.visited Crawler.dynamic_allowed_hosts
       Crawler.failed_urls Crawler.trace] in H.
  destruct (Z.ltb_spec (Z.of_nat 0) max_urls); [|lia]. cbn [negb] in H.
  match type of H with
  | match ?v with _ => _ end = _ => destruct v as [st1|] eqn:Hv
  end; [|discriminate].
  apply crawl_loop_results_grow in H.
  apply visit_keeps_answered_page in Hv;
    [|assumption|set_solver|assumption|assumption|assumption].
  cbn [Crawler.results app] in Hv.
  destruct Hv as [k1 Hk1]. destruct H as [k2 Hk2].
  exists (k1 ++ k2)%list. rewrite Hk2, Hk1. reflexivity.
Qed.

Lemma start_page_is_first_result_witness :
  exists st rest,
    Crawler.crawl_site Examples.small_site 10 2 None false true 4 7
      "https://A.com#top" ["a.com"] None = Some (Ok st) /\
    Crawler.results st = "https://a.com/" :: rest.
Proof.
  assert (H : exists st,
             Crawler.crawl_site Examples.small_site 10 2 None false true 4 7
               "https://A.com#top" ["a.com"] None = Some (Ok st))
    by (vm_compute; eexists; reflexivity).
  destruct H as [st H].
  destruct (start_page_is_first_result Examples.small_site 10 2 None false
              true 4 7 "https://A.com#top" ["a.com"] None st
              "https://A.com" "https://a.com/" H) as [rest Hrest].
  - vm_compute. reflexivity.
  - vm_compute. reflexivity.
  - lia.
  - lia.
  - vm_compute. reflexivity.
  - vm_compute. reflexivity.
  - split; [simpl; lia|vm_compute; reflexivity].
  - exists st, rest. now split.
Defined.

(** ** Include rules and the built-in excludes *)

Section DefaultExcludeFacts.
Import Filters.

Variable re_search : string -> string -> bool.

Lemma default_excludes_not_anchored (r : FilterRule) :
  r ∈ _default_exclude_rules -> exact_anchored r = false.
Proof.
  intros Hr. apply list_elem_of_In in Hr.
  assert (H : forallb (fun r => negb (exact_anchored r)) _default_exclude_rules
              = true) by (vm_compute; reflexivity).
  rewrite forallb_forall in H. apply negb_true_iff. now apply H.
Qed.

Lemma included_path_not_excluded (cfg : Config) (path : string) :
  (forall r, r ∈ exclude cfg -> exact_anchored r = false) ->
  existsb (_match_rule re_search path) (include cfg) = true ->
  is_excluded re_search cfg path = false.
Proof.
  intros Huser Hinc.
  destruct (is_excluded re_search cfg path) eqn:Hex; [|reflexivity].
  apply is_excluded_spec in Hex as (r & Hr & _ & Ha).
  specialize (Ha Hinc). unfold exclude_rules in Hr.
  assert (Hno : exact_anchored r = false).
  { destruct (use_default_excludes cfg); [|now apply Huser].
    apply elem_of_app in Hr as [Hr|Hr];
      [now apply default_excludes_not_anchored|now apply Huser]. }
  congruence.
Qed.

End DefaultExcludeFacts.

(** X18. The built-in exclude rules never remove a page that an include rule
    matches: none of them both starts with [^] and ends with [$].  So when
    no exclude rule of the configuration is anchored at both ends either, a
    path matched by an include rule is not excluded, with the built-in rules
    switched on or off. *)
Theorem include_match_overrides_default_excludes
    (re_search : string -> string -> bool) (cfg : Filters.Config)
    (path : string) :
  (forall r, r ∈ Filters.exclude cfg -> Filters.exact_anchored r = false) ->
  existsb (Filters._match_rule re_search path) (Filters.include cfg) = true ->
  Filters.is_excluded re_search cfg path = false.
Proof. apply included_path_not_excluded. Qed.

Lemma include_match_overrides_default_excludes_witness :
  Filters.is_excluded Examples.literal_search
    (Filters.mkConfig "https://example.com" "en"
       [Filters.mkRule "^/search-api" (Some "Docs") 5]
       [Filters.mkRule "/tag/" None 0] true true true)
    "/search-api/tag/intro.xml" = false.
Proof.
  apply (include_match_overrides_default_excludes Examples.literal_search
           (Filters.mkConfig "https://example.com" "en"
              [Filters.mkRule "^/search-api" (Some "Docs") 5]
              [Filters.mkRule "/tag/" None 0] true true true)
           "/search-api/tag/intro.xml").
  - intros r Hr. cbn [Filters.exclude] in Hr.
    apply list_elem_of_singleton in Hr. subst r. reflexivity.
  - vm_compute. reflexivity.
Defined.

(** ** The order of the collected URLs *)

Section DedupOrder.
Import Sitemap.

Variable allowed_domains : list string.
Variable global_max : Z.

Local Abbreviation N := (Z.to_nat (Z.max global_max 1)).

Lemma first_occurrences_after_extends (acc l : list string) :
  exists more, first_occurrences_after acc l = (acc ++ more)%list.
Proof.
  revert acc. induction l as [|n l IH]; intros acc.
  - exists []. now rewrite app_nil_r.
  - unfold first_occurrences_after. cbn [fold_left].
    destruct (decide (n ∈ acc)).
    + apply IH.
    + destruct (IH (acc ++ [n])%list) as [more Hm].
      exists (n :: more). unfold first_occurrences_after in Hm. rewrite Hm.
      now rewrite <- app_assoc.
Qed.

Lemma take_full_prefix (acc l : list string) :
  length acc = N ->
  firstn N (first_occurrences_after acc l) = acc.
Proof.
  intros Hlen. destruct (first_occurrences_after_extends acc l) as [more ->].
  rewrite take_app_le by lia. apply take_ge. lia.
Qed.

Lemma dedup_loop_order (collected unique out : list string)
    (normalized_seen : gset string) :
  (forall n, n ∈ normalized_seen <-> n ∈ unique) ->
  (length unique < N)%nat ->
  dedup_loop allowed_domains global_max collected unique normalized_seen
  = Ok out ->
  out = firstn N (first_occurrences_after unique
                  (canonical_list allowed_domains collected)).
Proof.
  revert unique normalized_seen.
  induction collected as [|u rest IH]; intros unique seen Hseen Hlen.
  - simpl. intros [= <-]. symmetry. apply take_ge. lia.
  - cbn [dedup_loop canonical_list flat_map].
    fold (canonical_list allowed_domains rest).
    destruct (_is_allowed_domain allowed_domains u) as [allowed|];
      [|discriminate].
    cbn [mbind result_bind]. destruct allowed; cbn [negb].
    2:{ cbn [app]. now apply IH. }
    destruct (normalize_url u true true true) as [n|]; [|discriminate].
    cbn [mbind result_bind app].
    unfold first_occurrences_after. cbn [fold_left].
    fold (first_occurrences_after
            (if decide (n ∈ unique) then unique else (unique ++ [n])%list)
            (canonical_list allowed_domains rest)).
    destruct (decide (n ∈ seen)) as [Hin|Hnin].
    + rewrite decide_True by now apply Hseen.
      destruct (Z.leb_spec global_max (Z.of_nat (length unique))) as [Hb|Hb].
      * intros [= <-]. symmetry. apply take_full_prefix.
        assert (0 < length unique)%nat; [|lia].
        apply Hseen in Hin. destruct unique; [by apply elem_of_nil in Hin|].
        simpl. lia.
      * now apply IH.
    + rewrite decide_False by (intros H; now apply Hseen in H).
      destruct (Z.leb_spec global_max (Z.of_nat (length (unique ++ [n]))))
        as [Hb|Hb].
      * intros [= <-]. symmetry. apply take_full_prefix.
        rewrite length_app in *. simpl in *. lia.
      * apply IH.
        -- intros m. rewrite elem_of_union, elem_of_singleton, elem_of_app,
             list_elem_of_singleton, Hseen. tauto.
        -- rewrite length_app in *. simpl in *. lia.
Qed.

Lemma dedup_and_truncate_order (collected out : list string) :
  dedup_and_truncate allowed_domains global_max collected = Ok out ->
  out = firstn N (first_occurrences (canonical_list allowed_domains collected)).
Proof.
  unfold dedup_and_truncate. apply dedup_loop_order.
  - intros n. split; intros H; [set_solver|by apply elem_of_nil in H].
  - simpl. lia.
Qed.

End DedupOrder.

(** X19. Which URLs survive the final pass of the source collector: the
    canonical forms of the collected URLs that pass the same-site filter,
    each at its first occurrence and in the order of collection, cut after
    the first [max(global_max, 1)] of them.  So the global budget drops the
    URLs collected last, and a later source never displaces an earlier
    one. *)
Theorem dedup_keeps_first_occurrences (allowed_domains : list string)
    (global_max : Z) (collected out : list string) :
  Sitemap.dedup_and_truncate allowed_domains global_max collected = Ok out ->
  out = firstn (Z.to_nat (Z.max global_max 1))
          (Sitemap.first_occurrences
             (Sitemap.canonical_list allowed_domains collected)).
Proof. apply dedup_and_truncate_order. Qed.

Lemma dedup_keeps_first_occurrences_witness :
  Sitemap.dedup_and_truncate ["a.com"] 2
    ["http://a.com/b/"; "https://evil.com/x"; "https://a.com/a";
     "https://A.com/b#top"; "https://a.com/c"]
  = Ok ["https://a.com/b"; "https://a.com/a"] /\
  ["https://a.com/b"; "https://a.com/a"]
  = firstn (Z.to_nat (Z.max 2 1))
      (Sitemap.first_occurrences
         (Sitemap.canonical_list ["a.com"]
            ["http://a.com/b/"; "https://evil.com/x"; "https://a.com/a";
             "https://A.com/b#top"; "https://a.com/c"])).
Proof.
  assert (H : Sitemap.dedup_and_truncate ["a.com"] 2
                ["http://a.com/b/"; "https://evil.com/x"; "https://a.com/a";
                 "https://A.com/b#top"; "https://a.com/c"]
              = Ok ["https://a.com/b"; "https://a.com/a"])
    by (vm_compute; reflexivity).
  split; [exact H|].
  exact (dedup_keeps_first_occurrences ["a.com"] 2 _ _ H).
Defined.

(** ** What is written to llms.txt *)

Section RenderFacts.
Import Filters Generator.

Variable summary : string -> string * string.

Local Abbreviation key_of := (fun r : RenderedPage => _url_key (r_url r)).

Lemma StronglySorted_app {A : Type} (R : A -> A -> Prop) (l1 l2 : list A) :
  StronglySorted R l1 -> StronglySorted R l2 ->
  (forall x y, x ∈ l1 -> y ∈ l2 -> R x y) ->
  StronglySorted R (l1 ++ l2).
Proof.
  induction 1 as [|a l1 Hs IH Ha]; intros H2 Hx; [exact H2|].
  cbn [app]. constructor.
  - apply IH; [exact H2|]. intros x y Hx1 Hy. apply Hx; [|exact Hy].
    now apply list_elem_of_further.
  - rewrite Forall_app. split; [exact Ha|].
    rewrite Forall_forall. intros y Hy. apply Hx; [apply list_elem_of_here|exact Hy].
Qed.

Lemma render_group_spec (g : string) (gpages : list PageEntry)
    (seen : gset (string * string)) (lines : list string)
    (rendered : list RenderedPage) (seen' : gset (string * string))
    (lines' : list string) (rendered' : list RenderedPage) :
  render_group summary g gpages seen lines rendered
  = Ok (seen', lines', rendered') ->
  keys_agree seen rendered ->
  (forall p, p ∈ gpages -> p_group p = g) ->
  keys_agree seen' rendered' /\
  (forall p, p ∈ gpages ->
     exists r, r ∈ rendered' /\ key_of r = _url_key (p_url p)) /\
  exists new,
    rendered' = (rendered ++ new)%list /\
    forall r, r ∈ new -> exists p, p ∈ gpages /\ r = rendered_from summary p.
Proof.
  revert seen lines rendered.
  induction gpages as [|p rest IH]; intros seen lines rendered H Hk Hg.
  - injection H as <- <- <-. split; [exact Hk|]. split.
    + intros p Hp. by apply elem_of_nil in Hp.
    + exists []. rewrite app_nil_r. split; [reflexivity|].
      intros r Hr. by apply elem_of_nil in Hr.
  - cbn [render_group] in H.
    destruct (_url_key (p_url p)) as [key|] eqn:Hkey; [|discriminate].
    cbn [mbind result_bind] in H.
    assert (Hrest : forall q, q ∈ rest -> p_group q = g)
      by (intros q Hq; apply Hg; now apply list_elem_of_further).
    destruct (decide (key ∈ seen)) as [Hin|Hnin].
    + destruct (IH _ _ _ H Hk Hrest) as (Hk' & Hcov & new & Hnew & Hfrom).
      split; [exact Hk'|]. split.
      * intros q Hq. apply elem_of_cons in Hq as [->|Hq]; [|now apply Hcov].
        apply Hk in Hin as (r & Hr & Hrk). exists r. split; [|congruence].
        rewrite Hnew. apply elem_of_app. now left.
      * exists new. split; [exact Hnew|]. intros r Hr.
        destruct (Hfrom r Hr) as (q & Hq & ->). exists q.
        split; [now apply list_elem_of_further|reflexivity].
    + destruct (summary (p_url p)) as [title desc] eqn:Hsum.
      set (r0 := mkRendered (p_url p) g (p_path p) (p_score p) title desc) in *.
      assert (Hr0 : r0 = rendered_from summary p).
      { unfold rendered_from, r0. rewrite Hsum, (Hg p (list_elem_of_here _ _)).
        reflexivity. }
      assert (Hk1 : keys_agree ({[key]} ∪ seen) (rendered ++ [r0])).
      { destruct Hk as [Hk1 Hk2]. split.
        - intros k. rewrite elem_of_union, elem_of_singleton, Hk1. split.
          + intros [->|(r & Hr & Hrk)].
            * exists r0. split; [apply elem_of_app; right; apply list_elem_of_here
                                |exact Hkey].
            * exists r. split; [apply elem_of_app; now left|exact Hrk].
          + intros (r & Hr & Hrk). apply elem_of_app in Hr as [Hr|Hr].
            * right. now exists r.
            * apply list_elem_of_singleton in Hr. subst r. left.
              cbn in Hrk. congruence.
        - rewrite map_app. apply NoDup_app. split; [exact Hk2|]. split.
          + intros x Hx Hx0. apply list_elem_of_singleton in Hx0. subst x.
            apply list_elem_of_fmap in Hx as (r & Hrk & Hr).
            apply Hnin, Hk1. exists r. split; [exact Hr|].
            cbn in Hrk. congruence.
          + apply NoDup_singleton. }
      destruct (IH _ _ _ H Hk1 Hrest) as (Hk' & Hcov & new & Hnew & Hfrom).
      split; [exact Hk'|]. split.
      * intros q Hq. apply elem_of_cons in Hq as [->|Hq]; [|now apply Hcov].
        exists r0. split.
        -- rewrite Hnew. apply elem_of_app. left. apply elem_of_app. right.
           apply list_elem_of_here.
        -- reflexivity.
      * exists (r0 :: new). split; [now rewrite Hnew, <- app_assoc|].
        intros r Hr. apply elem_of_cons in Hr as [->|Hr].
        -- exists p. split; [apply list_elem_of_here|exact Hr0].
        -- destruct (Hfrom r Hr) as (q & Hq & ->). exists q.
           split; [now apply list_elem_of_further|reflexivity].
Qed.

Lemma render_groups_spec (groups : list (string * list PageEntry))
    (names : list string) (seen : gset (string * string))
    (lines : list string) (rendered : list RenderedPage)
    (lines' : list string) (rendered' : list RenderedPage) :
  render_groups summary names groups seen lines rendered
  = Ok (lines', rendered') ->
  keys_agree seen rendered ->
  (forall g p, p ∈ group_entry g groups -> p_group p = g) ->
  StronglySorted (ordered _group_sort_key group_key_lt) names ->
  StronglySorted (ordered _group_sort_key group_key_lt)
    (map r_group rendered) ->
  (forall r g, r ∈ rendered -> g ∈ names ->
               ordered _group_sort_key group_key_lt (r_group r) g) ->
  rendered `prefix_of` rendered' /\
  NoDup (map key_of rendered') /\
  StronglySorted (ordered _group_sort_key group_key_lt)
    (map r_group rendered') /\
  (forall g p, g ∈ names -> p ∈ group_entry g groups ->
     exists r, r ∈ rendered' /\ key_of r = _url_key (p_url p)) /\
  (forall r, r ∈ rendered' ->
     r ∈ rendered
     \/ exists g p, g ∈ names /\ p ∈ group_entry g groups
                    /\ r = rendered_from summary p).
Proof.
  revert seen lines rendered.
  induction names as [|g rest IH];
    intros seen lines rendered H Hk Hg Hnames Hsorted Hbefore.
  - injection H as <- <-. split; [done|]. split; [apply Hk|].
    split; [exact Hsorted|].
    split; [intros g p Hg'; by apply elem_of_nil in Hg'|]. now left.
  - cbn [render_groups] in H.
    destruct (render_group summary g (group_entry g groups) seen _ rendered)
      as [[[seen1 lines1] rendered1]|] eqn:Hrg; [|discriminate].
    cbn [mbind result_bind] in H.
    destruct (render_group_spec _ _ _ _ _ _ _ _ Hrg Hk (Hg g))
      as (Hk1 & Hcov1 & new & Hnew & Hfrom1).
    apply StronglySorted_inv in Hnames as [Hrest Hfirst].
    rewrite Forall_forall in Hfirst.
    assert (Hnewg : forall r, r ∈ new -> r_group r = g).
    { intros r Hr. destruct (Hfrom1 r Hr) as (p & Hp & ->).
      cbn. now apply Hg. }
    assert (Hself : ordered _group_sort_key group_key_lt g g).
    { unfold ordered.
      destruct (group_key_lt (_group_sort_key g) (_group_sort_key g)) eqn:E;
        [|reflexivity].
      pose proof (lt_asym _ (lex_lt_strict_total Z.ltb String.ltb
                               Z_ltb_strict_total string_ltb_strict_total)
                    _ _ E) as E'.
      unfold group_key_lt in E. congruence. }
    assert (Hsorted1 : StronglySorted (ordered _group_sort_key group_key_lt)
                         (map r_group rendered1)).
    { rewrite Hnew, map_app. apply StronglySorted_app; [exact Hsorted| |].
      - clear -Hnewg Hself. induction new as [|r new IH]; [constructor|].
        cbn [map]. constructor.
        + apply IH. intros r' Hr'. apply Hnewg. now apply list_elem_of_further.
        + rewrite Forall_forall. intros x Hx.
          apply list_elem_of_fmap in Hx as (r' & -> & Hr').
          rewrite (Hnewg r (list_elem_of_here _ _)).
          rewrite (Hnewg r' (list_elem_of_further _ _ _ Hr')). exact Hself.
      - intros x y Hx Hy.
        apply list_elem_of_fmap in Hx as (r1 & -> & Hr1).
        apply list_elem_of_fmap in Hy as (r2 & -> & Hr2).
        rewrite (Hnewg r2 Hr2). apply Hbefore; [exact Hr1|apply list_elem_of_here]. }
    assert (Hbefore1 : forall r g', r ∈ rendered1 -> g' ∈ rest ->
              ordered _group_sort_key group_key_lt (r_group r) g').
    { intros r g' Hr Hg'. rewrite Hnew in Hr. apply elem_of_app in Hr as [Hr|Hr].
      - apply Hbefore; [exact Hr|now apply list_elem_of_further].
      - rewrite (Hnewg r Hr). now apply Hfirst. }
    destruct (IH _ _ _ H Hk1 Hg Hrest Hsorted1 Hbefore1)
      as (Hpre & Hnd & Hs & Hcov & Hfrom).
    split.
    { transitivity rendered1; [|exact Hpre]. rewrite Hnew.
      now apply prefix_app_r. }
    split; [exact Hnd|]. split; [exact Hs|]. split.
    + intros g' p Hg' Hp. apply elem_of_cons in Hg' as [->|Hg'].
      * destruct (Hcov1 p Hp) as (r & Hr & Hrk). exists r.
        split; [|exact Hrk]. destruct Hpre as [more ->].
        apply elem_of_app. now left.
      * now apply (Hcov g').
    + intros r Hr. destruct (Hfrom r Hr) as [Hr1|(g' & p & Hg' & Hp & ->)].
      * rewrite Hnew in Hr1. apply elem_of_app in Hr1 as [Hr1|Hr1]; [now left|].
        right. destruct (Hfrom1 r Hr1) as (p & Hp & ->). exists g, p.
        split; [apply list_elem_of_here|now split].
      * right. exists g', p. split; [now apply list_elem_of_further|now split].
Qed.

Lemma group_pages_member (pages : list PageEntry) (p : PageEntry) :
  p ∈ pages -> p_group p ∈ map fst (group_pages pages).
Proof.
  intros Hp. destruct (decide (p_group p ∈ map fst (group_pages pages)))
    as [H|H]; [exact H|].
  apply group_entry_absent in H. rewrite group_entry_group_pages in H.
  assert (Hin : p ∈ in_group (p_group p) pages).
  { unfold in_group. apply list_elem_of_filter. now split. }
  rewrite H in Hin. by apply elem_of_nil in Hin.
Qed.

Lemma render_spec (base_url : string) (description : option string)
    (pages : list PageEntry) (lines : list string)
    (rendered : list RenderedPage) :
  render summary base_url description pages = Ok (lines, rendered) ->
  NoDup (map key_of rendered) /\
  StronglySorted (ordered _group_sort_key group_key_lt)
    (map r_group rendered) /\
  (forall p, p ∈ pages ->
     exists r, r ∈ rendered /\ key_of r = _url_key (p_url p)) /\
  (forall r, r ∈ rendered ->
     exists p, p ∈ pages /\ r = rendered_from summary p).
Proof.
  unfold render.
  destruct (count_groups _ _ _ _) as [c|]; [|discriminate].
  cbn [mbind result_bind]. intros H.
  assert (Hg : forall g p, p ∈ group_entry g (group_pages pages) ->
                           p ∈ pages /\ p_group p = g).
  { intros g p Hp. rewrite group_entry_group_pages in Hp. unfold in_group in Hp.
    apply list_elem_of_filter in Hp as [Hp1 Hp2]. now split. }
  destruct (render_groups_spec _ _ _ _ _ _ _ H) as (_ & Hnd & Hs & Hcov & Hfrom).
  - split; [|constructor]. intros k. split; [set_solver|].
    intros (r & Hr & _). by apply elem_of_nil in Hr.
  - intros g p Hp. now apply Hg.
  - apply sorted_ordered. apply lex_lt_strict_total;
      [apply Z_ltb_strict_total|apply string_ltb_strict_total].
  - constructor.
  - intros r g Hr. by apply elem_of_nil in Hr.
  - split; [exact Hnd|]. split; [exact Hs|]. split.
    + intros p Hp. apply (Hcov (p_group p)).
      * unfold sorted_group_names. rewrite sorted_perm.
        now apply group_pages_member.
      * rewrite group_entry_group_pages. unfold in_group.
        apply list_elem_of_filter. now split.
    + intros r Hr. destruct (Hfrom r Hr) as [Hr0|(g & p & _ & Hp & ->)].
      * by apply elem_of_nil in Hr0.
      * exists p. split; [now apply Hg in Hp|reflexivity].
Qed.

Lemma count_group_total (g : string) (gpages : list PageEntry)
    (seen : gset (string * string)) (counts : gmap string Z) :
  (forall p, p ∈ gpages -> is_ok (_url_key (p_url p)) = true) ->
  is_ok (count_group g gpages seen counts) = true.
Proof.
  revert seen counts. induction gpages as [|p rest IH]; intros seen counts Hok;
    [reflexivity|].
  cbn [count_group].
  pose proof (Hok p (list_elem_of_here _ _)) as Hp.
  destruct (_url_key (p_url p)) as [key|]; [|discriminate].
  cbn [mbind result_bind].
  destruct (decide (key ∈ seen)); apply IH; intros q Hq; apply Hok;
    now apply list_elem_of_further.
Qed.

Lemma count_groups_total (names : list string)
    (groups : list (string * list PageEntry))
    (seen : gset (string * string)) (counts : gmap string Z) :
  (forall g p, p ∈ group_entry g groups -> is_ok (_url_key (p_url p)) = true) ->
  is_ok (count_groups names groups seen counts) = true.
Proof.
  intros Hok. revert seen counts.
  induction names as [|g rest IH]; intros seen counts; [reflexivity|].
  cbn [count_groups].
  pose proof (count_group_total g (group_entry g groups) seen counts (Hok g))
    as Hg.
  destruct (count_group _ _ _ _) as [[seen1 counts1]|]; [|discriminate].
  cbn [mbind result_bind]. apply IH.
Qed.

Lemma render_group_total (g : string) (gpages : list PageEntry)
    (seen : gset (string * string)) (lines : list string)
    (rendered : list RenderedPage) :
  (forall p, p ∈ gpages -> is_ok (_url_key (p_url p)) = true) ->
  is_ok (render_group summary g gpages seen lines rendered) = true.
Proof.
  revert seen lines rendered.
  induction gpages as [|p rest IH]; intros seen lines rendered Hok;
    [reflexivity|].
  cbn [render_group].
  pose proof (Hok p (list_elem_of_here _ _)) as Hp.
  destruct (_url_key (p_url p)) as [key|]; [|discriminate].
  cbn [mbind result_bind].
  assert (Hrest : forall q, q ∈ rest -> is_ok (_url_key (p_url q)) = true)
    by (intros q Hq; apply Hok; now apply list_elem_of_further).
  destruct (decide (key ∈ seen)); [now apply IH|].
  destruct (summary (p_url p)). now apply IH.
Qed.

Lemma render_groups_total (names : list string)
    (groups : list (string * list PageEntry))
    (seen : gset (string * string)) (lines : list string)
    (rendered : list RenderedPage) :
  (forall g p, p ∈ group_entry g groups -> is_ok (_url_key (p_url p)) = true) ->
  is_ok (render_groups summary names groups seen lines rendered) = true.
Proof.
  intros Hok. revert seen lines rendered.
  induction names as [|g rest IH]; intros seen lines rendered; [reflexivity|].
  cbn [render_groups].
  pose proof (render_group_total g (group_entry g groups) seen
                (lines ++ ["## " +:+ g; ""])%list rendered (Hok g)) as Hg.
  destruct (render_group _ _ _ _ _ _) as [[[seen1 lines1] rendered1]|];
    [|discriminate].
  cbn [mbind result_bind]. apply IH.
Qed.

Lemma render_total (base_url : string) (description : option string)
    (pages : list PageEntry) :
  (forall p, p ∈ pages -> is_ok (_url_key (p_url p)) = true) ->
  is_ok (render summary base_url description pages) = true.
Proof.
  intros Hok. unfold render.
  assert (Hg : forall g p, p ∈ group_entry g (group_pages pages) ->
                           is_ok (_url_key (p_url p)) = true).
  { intros g p Hp. rewrite group_entry_group_pages in Hp. unfold in_group in Hp.
    apply list_elem_of_filter in Hp as [_ Hp]. now apply Hok. }
  pose proof (count_groups_total (sorted_group_names (group_pages pages))
                (group_pages pages) ∅ ∅ Hg) as Hc.
  destruct (count_groups _ _ _ _); [|discriminate].
  cbn [mbind result_bind]. now apply render_groups_total.
Qed.

Lemma url_key_of_entry (re_search : string -> string -> bool) (cfg : Config)
    (p : PageEntry) :
  entry_of re_search cfg (p_url p) p -> is_ok (_url_key (p_url p)) = true.
Proof.
  intros (_ & Hpath & _). unfold _relative_path in Hpath.
  destruct (urlparse (base_url cfg)); [|discriminate].
  cbn [mbind result_bind] in Hpath. unfold _url_key.
  destruct (urlparse (p_url p)); [reflexivity|discriminate].
Qed.

End RenderFacts.

(** X20. What [llms.txt] lists.  The pages rendered have pairwise different
    URL keys (host and path without a final slash: scheme, query and
    fragment do not count); they come group by group, the groups in the
    order of decreasing weight and then of name; every page handed over is
    represented by a rendered page with its URL key; and every rendered page
    is one of the pages handed over, with the title and description of its
    URL. *)
Theorem rendered_pages_are_distinct_and_complete
    (summary : string -> string * string) (base_url : string)
    (description : option string) (pages : list Filters.PageEntry)
    (lines : list string) (rendered : list Generator.RenderedPage) :
  Generator.render summary base_url description pages = Ok (lines, rendered) ->
  NoDup (map (fun r => Generator._url_key (Generator.r_url r)) rendered) /\
  StronglySorted
    (ordered Generator._group_sort_key Generator.group_key_lt)
    (map Generator.r_group rendered) /\
  (forall p, p ∈ pages ->
     exists r, r ∈ rendered /\
               Generator._url_key (Generator.r_url r)
               = Generator._url_key (Filters.p_url p)) /\
  (forall r, r ∈ rendered ->
     exists p, p ∈ pages /\ r = Generator.rendered_from summary p).
Proof. apply render_spec. Qed.

Lemma rendered_pages_are_distinct_and_complete_witness :
  exists lines rendered,
    Generator.render (fun u => (u, "Page at " +:+ u)) "https://example.com"
      (Some "An example site.")
      [Examples.page "Blog" "https://example.com/blog/" "/blog/" 25;
       Examples.page "Blog" "http://example.com/blog?page=2" "/blog" 25;
       Examples.page "Pricing" "https://example.com/pricing" "/pricing" 30]
    = Ok (lines, rendered) /\
    map Generator.r_url rendered
    = ["https://example.com/pricing"; "https://example.com/blog/"] /\
    NoDup (map (fun r => Generator._url_key (Generator.r_url r)) rendered).
Proof.
  assert (H : exists lines rendered,
             Generator.render (fun u => (u, "Page at " +:+ u))
               "https://example.com" (Some "An example site.")
               [Examples.page "Blog" "https://example.com/blog/" "/blog/" 25;
                Examples.page "Blog" "http://example.com/blog?page=2" "/blog"
                  25;
                Examples.page "Pricing" "https://example.com/pricing"
                  "/pricing" 30]
             = Ok (lines, rendered) /\
             map Generator.r_url rendered
             = ["https://example.com/pricing"; "https://example.com/blog/"])
    by (vm_compute; eexists; eexists; split; reflexivity).
  destruct H as (lines & rendered & H & Hurls).
  exists lines, rendered. split; [exact H|]. split; [exact Hurls|].
  exact (proj1 (rendered_pages_are_distinct_and_complete _ _ _ _ _ _ H)).
Defined.

(** X21. Rendering cannot fail on what the selection hands over: every page
    that comes out of the classifier has a URL that [urlparse] accepts, so
    [_url_key] raises on none of them and both passes over the groups run to
    their end. *)
Theorem rendering_cannot_fail_on_selected_pages
    (re_search : string -> string -> bool) (title : string -> string)
    (summary : string -> string * string)
    (cfg : Filters.Config) (profiles : gmap string (list string))
    (group_limits : gmap string Z) (default_limit : option Z)
    (urls : list string) (max_pages : option Z) (profile : option string)
    (only_groups : option (list string)) (description : option string)
    (pages : list Filters.PageEntry) :
  Generator.select_pages re_search title cfg profiles group_limits
    default_limit urls max_pages profile only_groups = Ok (Some pages) ->
  is_ok (Generator.render summary (Filters.base_url cfg) description pages)
  = true.
Proof.
  intros H. apply render_total. intros p Hp.
  apply select_pages_spec in H as (_ & _ & _ & H).
  destruct (H p Hp) as (_ & He & _).
  exact (url_key_of_entry _ _ _ He).
Qed.

Lemma rendering_cannot_fail_on_selected_pages_witness :
  exists pages,
    Generator.select_pages Examples.literal_search Examples.ascii_title
      Examples.blog_config ∅ {["Blog" := 3]} None Examples.site_urls
      (Some 4) None None = Ok (Some pages) /\
    is_ok (Generator.render (fun u => (u, "Page at " +:+ u))
             (Filters.base_url Examples.blog_config) None pages) = true.
Proof.
  assert (H : exists pages,
             Generator.select_pages Examples.literal_search
               Examples.ascii_title Examples.blog_config ∅ {["Blog" := 3]}
               None Examples.site_urls (Some 4) None None = Ok (Some pages))
    by (vm_compute; eexists; reflexivity).
  destruct H as (pages & H). exists pages. split; [exact H|].
  exact (rendering_cannot_fail_on_selected_pages Examples.literal_search
           Examples.ascii_title (fun u => (u, "Page at " +:+ u))
           Examples.blog_config ∅ {["Blog" := 3]} None Examples.site_urls
           (Some 4) None None None pages H).
Defined.

(** ** The hosts a crawl may reach *)

Section CrawlHosts.
Import Crawler.

Variable fetch : site.
Variable max_urls : Z.
Variable max_depth : Z.
Variable root_domain : option string.
Variable allow_same_root_subdomains : bool.
Variable polite_delay : bool.
Variable max_retries : Z.

Local Abbreviation same_root :=
  (same_root root_domain allow_same_root_subdomains).
Local Abbreviation widened :=
  (widened root_domain allow_same_root_subdomains).

Lemma widened_refl (hosts : gset string) : widened hosts hosts.
Proof. intros h Hh. now left. Qed.

Lemma widened_trans (a b c : gset string) :
  widened a b -> widened b c -> widened a c.
Proof.
  intros Hab Hbc h Hh. destruct (Hbc h Hh) as [H|H]; [now apply Hab|now right].
Qed.

Lemma enqueue_links_widened (depth : Z) (links : list string) (st st' : state) :
  enqueue_links max_urls root_domain allow_same_root_subdomains depth links st
  = Ok st' ->
  widened (dynamic_allowed_hosts st) (dynamic_allowed_hosts st').
Proof.
  revert st. induction links as [|joined rest IH]; intros st H.
  - injection H as <-. apply widened_refl.
  - cbn [enqueue_links] in H.
    destruct (urldefrag joined) as [defragged|]; [|discriminate].
    cbn [mbind result_bind] in H.
    destruct (normalize_url defragged true true true) as [abs_url|];
      [|discriminate].
    cbn [mbind result_bind] in H.
    destruct (should_skip_by_extension abs_url) as [skip|]; [|discriminate].
    cbn [mbind result_bind] in H.
    destruct skip; [now apply IH|].
    destruct (urlparse abs_url) as [u|]; [|discriminate].
    cbn [mbind result_bind] in H.
    cbn [queue counter visited results dynamic_allowed_hosts failed_urls
         trace] in H.
    set (host := lower (netloc u)) in *.
    assert (Hw : widened (dynamic_allowed_hosts st)
                   (if same_root host then {[host]} ∪ dynamic_allowed_hosts st
                    else dynamic_allowed_hosts st)).
    { destruct (same_root host) eqn:Hs; [|apply widened_refl].
      intros h Hh. apply elem_of_union in Hh as [Hh|Hh]; [|now left].
      apply elem_of_singleton in Hh. subst h. now right. }
    destruct (_is_allowed_domain abs_url _) as [allowed|]; [|discriminate].
    cbn [mbind result_bind] in H.
    destruct (negb (bool_decide (abs_url ∈ visited st)) && allowed)%bool.
    2:{ apply IH in H. cbn [dynamic_allowed_hosts] in H.
        exact (widened_trans _ _ _ Hw H). }
    destruct (Z.ltb (Z.of_nat (length (results st))) max_urls).
    2:{ apply IH in H. cbn [dynamic_allowed_hosts] in H.
        exact (widened_trans _ _ _ Hw H). }
    destruct (_get_url_priority abs_url) as [priority|]; [|discriminate].
    cbn [mbind result_bind] in H.
    apply IH in H. cbn [dynamic_allowed_hosts] in H.
    exact (widened_trans _ _ _ Hw H).
Qed.

Lemma visit_widened (current : string) (depth : Z) (st st' : state) :
  visit fetch max_urls max_depth root_domain allow_same_root_subdomains
    polite_delay max_retries current depth st = Ok st' ->
  widened (dynamic_allowed_hosts st) (dynamic_allowed_hosts st').
Proof.
  unfold visit. intros H.
  destruct (bool_decide (current ∈ visited st)).
  { injection H as <-. apply widened_refl. }
  cbn [queue counter visited results dynamic_allowed_hosts failed_urls trace]
    in H.
  destruct (urlparse current) as [p|]; [|discriminate].
  cbn [mbind result_bind] in H.
  destruct (_is_allowed_domain current _) as [allowed|]; [|discriminate].
  cbn [mbind result_bind] in H.
  set (host := lower (netloc p)) in *.
  assert (Hadm : forall hosts,
             (if allowed then Some (dynamic_allowed_hosts st)
              else if same_root host
                   then Some ({[host]} ∪ dynamic_allowed_hosts st)
                   else None) = Some hosts ->
             widened (dynamic_allowed_hosts st) hosts).
  { intros hosts Hh. destruct allowed.
    - injection Hh as <-. apply widened_refl.
    - destruct (same_root host) eqn:Hs; [|discriminate].
      injection Hh as <-. intros h Hin.
      apply elem_of_union in Hin as [Hin|Hin]; [|now left].
      apply elem_of_singleton in Hin. subst h. now right. }
  match type of H with
  | match ?a with _ => _ end = _ => destruct a as [hosts|]
  end.
  2:{ injection H as <-. apply widened_refl. }
  specialize (Hadm hosts eq_refl).
  destruct (should_skip_by_extension current) as [skip|]; [|discriminate].
  cbn [mbind result_bind] in H.
  destruct skip.
  { injection H as <-. exact Hadm. }
  destruct (fetch_with_retry fetch polite_delay max_retries current)
    as [[resp last_err] evs].
  cbn [queue counter visited results dynamic_allowed_hosts failed_urls trace]
    in H.
  destruct resp as [resp|].
  2:{ injection H as <-. exact Hadm. }
  destruct (_ || _)%bool.
  2:{ injection H as <-. exact Hadm. }
  destruct (Z.leb max_depth depth).
  { injection H as <-. exact Hadm. }
  destruct (page_links resp) as [links|].
  2:{ injection H as <-. exact Hadm. }
  apply enqueue_links_widened in H. cbn [dynamic_allowed_hosts] in H.
  exact (widened_trans _ _ _ Hadm H).
Qed.

Lemma crawl_loop_widened (fuel : nat) (st st' : state) :
  crawl_loop fetch max_urls max_depth root_domain allow_same_root_subdomains
    polite_delay max_retries fuel st = Some (Ok st') ->
  widened (dynamic_allowed_hosts st) (dynamic_allowed_hosts st').
Proof.
  revert st. induction fuel as [|fuel IH]; intros st.
  - destruct st as [q c v rs h f t]. destruct q as [|[[[p c'] u] d] q]; simpl.
    + intros [= <-]. apply widened_refl.
    + destruct (negb _); [|discriminate]. intros [= <-]. apply widened_refl.
  - destruct st as [q c v rs h f t]. destruct q as [|[[[p c'] u] d] q].
    + simpl. intros [= <-]. apply widened_refl.
    + cbn [crawl_loop queue counter visited results dynamic_allowed_hosts
           failed_urls trace].
      destruct (negb _); [intros [= <-]; apply widened_refl|].
      destruct (visit _ _ _ _ _ _ _ u d _) as [st1|e] eqn:Hv; [|discriminate].
      intros H. apply IH in H. apply visit_widened in Hv.
      cbn [dynamic_allowed_hosts] in Hv. exact (widened_trans _ _ _ Hv H).
Qed.

Lemma crawl_site_widened (fuel : nat) (start_url : string)
    (allowed_hosts : list string) (failed : option (list FailedURLRecord))
    (st : state) :
  crawl_site fetch max_urls max_depth root_domain allow_same_root_subdomains
    polite_delay max_retries fuel start_url allowed_hosts failed = Some (Ok st) ->
  widened
    (list_to_set (map lower (filter (fun h => negb (is_empty h)) allowed_hosts)))
    (dynamic_allowed_hosts st).
Proof.
  unfold crawl_site.
  match goal with
  | |- match ?a with _ => _ end = _ -> _ => destruct a as [[s pr]|e]
  end; [|discriminate].
  intros H. now apply crawl_loop_widened in H.
Qed.

End CrawlHosts.

Section SameRoot.

Lemma prefix_spec (p s : string) :
  String.prefix p s = true <-> exists t, s = p +:+ t.
Proof.
  revert s. induction p as [|a p IH]; intros s.
  - split; [intros _; now exists s|]. now destruct s.
  - destruct s as [|c r].
    + split; [discriminate|]. intros [t Ht]. discriminate.
    + simpl. destruct (ascii_dec a c) as [->|Hne].
      * rewrite IH. split; intros [t Ht]; exists t.
        -- change (String c p +:+ t) with (String c (p +:+ t)). now rewrite Ht.
        -- change (String c p +:+ t) with (String c (p +:+ t)) in Ht.
           now injection Ht.
      * split; [discriminate|]. intros [t Ht].
        change (String a p +:+ t) with (String a (p +:+ t)) in Ht.
        injection Ht as Ht _. congruence.
Qed.

Lemma append_nil_r (s : string) : s +:+ "" = s.
Proof.
  induction s as [|a s IH]; [reflexivity|].
  change (String a s +:+ "") with (String a (s +:+ "")). now rewrite IH.
Qed.

Lemma append_length (s t : string) :
  String.length (s +:+ t) = (String.length s + String.length t)%nat.
Proof.
  induction s as [|a s IH]; [reflexivity|].
  change (String a s +:+ t) with (String a (s +:+ t)). simpl. now rewrite IH.
Qed.

Lemma endswith_spec (p s : string) :
  endswith p s = true <-> exists pre, s = pre +:+ p.
Proof.
  induction s as [|a r IH].
  - simpl. split.
    + intros H. destruct p; [|discriminate]. now exists "".
    + intros [pre Hpre]. destruct pre; [|discriminate].
      change ("" +:+ p) with p in Hpre. now subst p.
  - cbn [endswith]. rewrite orb_true_iff, IH, String.eqb_eq. split.
    + intros [<-|[pre ->]].
      * now exists "".
      * now exists (String a pre).
    + intros [pre Hpre]. destruct pre as [|c pre].
      * left. exact Hpre.
      * right. change (String c pre +:+ p) with (String c (pre +:+ p)) in Hpre.
        injection Hpre as _ ->. now exists pre.
Qed.

Lemma is_same_root_domain_spec (host root_domain : string) :
  is_same_root_domain host root_domain = true <->
  lower host <> "" /\ lower root_domain <> "" /\
  (lower host = lower root_domain
   \/ exists sub, lower host = sub +:+ "." +:+ lower root_domain).
Proof.
  unfold is_same_root_domain.
  rewrite !andb_true_iff, orb_true_iff, !negb_true_iff, String.eqb_eq,
    endswith_spec.
  assert (He : forall s, is_empty s = false <-> s <> "")
    by (intros []; split; simpl; congruence).
  rewrite !He. tauto.
Qed.

End SameRoot.

(** X22. Where sub-domain discovery can lead.  The set of allowed hosts of a
    crawl only grows, and only by hosts of the root domain: a host in the
    final set is one of the caller's allowed hosts (lower-cased), or
    [allow_same_root_subdomains] is set and the host is not empty and is the
    root domain or ends with a dot followed by the root domain.  A host
    that merely ends with the letters of the root domain is never let
    in. *)
Theorem crawl_widens_hosts_only_within_root_domain (fetch : Crawler.site)
    (max_urls max_depth : Z) (root_domain : option string)
    (allow_same_root_subdomains polite_delay : bool) (max_retries : Z)
    (fuel : nat) (start_url : string) (allowed_hosts : list string)
    (failed : option (list Crawler.FailedURLRecord)) (st : Crawler.state)
    (h : string) :
  Crawler.crawl_site fetch max_urls max_depth root_domain
    allow_same_root_subdomains polite_delay max_retries fuel start_url
    allowed_hosts failed = Some (Ok st) ->
  h ∈ Crawler.dynamic_allowed_hosts st ->
  h ∈ (list_to_set
         (map lower (filter (fun h => negb (is_empty h)) allowed_hosts))
       : gset string)
  \/ (allow_same_root_subdomains = true /\
      exists rd, root_domain = Some rd /\ lower h <> "" /\
                 (lower h = lower rd
                  \/ exists sub, lower h = sub +:+ "." +:+ lower rd)).
Proof.
  intros H Hh. apply crawl_site_widened in H.
  destruct (H h Hh) as [Hin|Hs]; [now left|]. right.
  unfold Crawler.same_root in Hs. apply andb_true_iff in Hs as [Ha Hs].
  split; [exact Ha|]. destruct root_domain as [rd|]; [|discriminate].
  apply andb_true_iff in Hs as [_ Hs].
  apply is_same_root_domain_spec in Hs as (H1 & _ & H3).
  exists rd. now repeat split.
Qed.

Lemma crawl_widens_hosts_only_within_root_domain_witness :
  exists st,
    Crawler.crawl_site
      (fun url _ =>
         if String.eqb url "https://a.com/"
         then Examples.html_page url 200 "OK"
                ["https://docs.a.com/guide"; "https://evil-a.com/"]
         else Examples.html_page url 200 "OK" [])
      10 2 (Some "a.com") true false 0 5 "https://a.com/" ["a.com"] None
    = Some (Ok st) /\
    Crawler.dynamic_allowed_hosts st = {["a.com"; "docs.a.com"]} /\
    ("docs.a.com" ∈ (list_to_set
                       (map lower
                          (filter (fun h => negb (is_empty h)) ["a.com"]))
                     : gset string)
     \/ (true = true /\
         exists rd, Some "a.com" = Some rd /\ lower "docs.a.com" <> "" /\
                    (lower "docs.a.com" = lower rd
                     \/ exists sub,
                          lower "docs.a.com" = sub +:+ "." +:+ lower rd))).
Proof.
  assert (H : exists st,
             Crawler.crawl_site
               (fun url _ =>
                  if String.eqb url "https://a.com/"
                  then Examples.html_page url 200 "OK"
                         ["https://docs.a.com/guide"; "https://evil-a.com/"]
                  else Examples.html_page url 200 "OK" [])
               10 2 (Some "a.com") true false 0 5 "https://a.com/" ["a.com"]
               None = Some (Ok st) /\
             Crawler.dynamic_allowed_hosts st = {["a.com"; "docs.a.com"]})
    by (vm_compute; eexists; split; reflexivity).
  destruct H as (st & H & Hhosts). exists st.
  split; [exact H|]. split; [exact Hhosts|].
  apply (crawl_widens_hosts_only_within_root_domain _ _ _ _ _ _ _ _ _ _ _ st
           "docs.a.com" H).
  rewrite Hhosts. set_solver.
Defined.

(** ** The root domain of a host *)

Section RootDomain.

Local Abbreviation dot := (Ascii.eqb ".").
Local Abbreviation nonempty := (fun p : string => negb (is_empty p)).
Local Abbreviation lowered := (all_chars (fun c => negb (is_upper c))).

(** Lower case *)

Lemma lowered_lower (s : string) : lowered (lower s) = true.
Proof.
  induction s as [|a r IH]; [reflexivity|]. cbn [lower all_chars].
  now rewrite is_upper_lower_char, IH.
Qed.

Lemma lower_lowered (s : string) : lowered s = true -> lower s = s.
Proof.
  induction s as [|a r IH]; [reflexivity|]. cbn [lower all_chars].
  intros H. apply andb_true_iff in H as [Ha Hr]. rewrite (IH Hr).
  unfold lower_char. apply negb_true_iff in Ha. now rewrite Ha.
Qed.

Lemma all_chars_app (P : ascii -> bool) (a b : string) :
  all_chars P (a +:+ b) = (all_chars P a && all_chars P b)%bool.
Proof.
  induction a as [|x a IH]; [reflexivity|].
  change (String x a +:+ b) with (String x (a +:+ b)).
  cbn [all_chars]. now rewrite IH, andb_assoc.
Qed.

Lemma all_chars_lstrip_by (P p : ascii -> bool) (s : string) :
  all_chars P s = true -> all_chars P (lstrip_by p s) = true.
Proof.
  induction s as [|a r IH]; [reflexivity|]. cbn [all_chars lstrip_by].
  intros H. apply andb_true_iff in H as [Ha Hr].
  destruct (p a); [now apply IH|]. cbn [all_chars]. now rewrite Ha, Hr.
Qed.

Lemma all_chars_rstrip_by (P p : ascii -> bool) (s : string) :
  all_chars P s = true -> all_chars P (rstrip_by p s) = true.
Proof.
  induction s as [|a r IH]; [reflexivity|]. cbn [all_chars rstrip_by].
  intros H. apply andb_true_iff in H as [Ha Hr].
  destruct (is_empty (rstrip_by p r) && p a)%bool; [reflexivity|].
  cbn [all_chars]. now rewrite Ha, IH.
Qed.

Lemma all_chars_split (P : ascii -> bool) (c : ascii) (s : string) :
  all_chars P s = true -> Forall (fun l => all_chars P l = true) (split c s).
Proof.
  induction s as [|a r IH]; cbn [split all_chars].
  - intros _. now repeat constructor.
  - intros H. apply andb_true_iff in H as [Ha Hr]. specialize (IH Hr).
    destruct (split c r) as [|h t]; [now repeat constructor|].
    apply Forall_cons in IH as [Hh Ht].
    destruct (Ascii.eqb a c).
    + constructor; [reflexivity|]. now constructor.
    + constructor; [|exact Ht]. cbn [all_chars]. now rewrite Ha, Hh.
Qed.

(** Labels *)

Lemma split_labels_free (c : ascii) (s : string) :
  Forall (fun l => has_char c l = false) (split c s).
Proof.
  induction s as [|a r IH]; cbn [split].
  - now repeat constructor.
  - destruct (split c r) as [|h t]; [now repeat constructor|].
    apply Forall_cons in IH as [Hh Ht].
    destruct (Ascii.eqb a c) eqn:Ha.
    + constructor; [reflexivity|]. now constructor.
    + constructor; [|exact Ht]. cbn [has_char]. now rewrite Ha, Hh.
Qed.

Lemma split_not_nil (c : ascii) (s : string) : split c s <> [].
Proof.
  destruct s as [|a r]; cbn [split]; [discriminate|].
  destruct (split c r); [discriminate|]. destruct (Ascii.eqb a c); discriminate.
Qed.

Lemma split_free (c : ascii) (s : string) :
  has_char c s = false -> split c s = [s].
Proof.
  induction s as [|a r IH]; [reflexivity|]. cbn [has_char split].
  intros H. apply orb_false_iff in H as [Ha Hr]. rewrite (IH Hr), Ha.
  reflexivity.
Qed.

Lemma split_app (c : ascii) (x y : string) :
  has_char c x = false ->
  split c (x +:+ String c y) = x :: split c y.
Proof.
  induction x as [|a x IH]; intros H.
  - change ("" +:+ String c y) with (String c y). cbn [split].
    pose proof (split_not_nil c y) as Hn.
    destruct (split c y) as [|h t]; [congruence|].
    now rewrite Ascii.eqb_refl.
  - cbn [has_char] in H. apply orb_false_iff in H as [Ha Hx].
    change (String a x +:+ String c y) with (String a (x +:+ String c y)).
    cbn [split]. rewrite (IH Hx), Ha. reflexivity.
Qed.

(** Stripping *)

Lemma lstrip_by_free (p : ascii -> bool) (s : string) :
  all_chars (fun c => negb (p c)) s = true -> lstrip_by p s = s.
Proof.
  destruct s as [|a r]; [reflexivity|]. cbn [all_chars lstrip_by].
  intros H. apply andb_true_iff in H as [Ha _].
  apply negb_true_iff in Ha. now rewrite Ha.
Qed.

Lemma rstrip_by_free (p : ascii -> bool) (s : string) :
  all_chars (fun c => negb (p c)) s = true -> rstrip_by p s = s.
Proof.
  induction s as [|a r IH]; [reflexivity|]. cbn [all_chars rstrip_by].
  intros H. apply andb_true_iff in H as [Ha Hr].
  apply negb_true_iff in Ha. now rewrite (IH Hr), Ha, andb_false_r.
Qed.

Lemma rstrip_by_app_keep (p : ascii -> bool) (s y : string) :
  rstrip_by p y = y -> y <> "" -> rstrip_by p (s +:+ y) = s +:+ y.
Proof.
  intros Hy Hne. induction s as [|a s IH]; [exact Hy|].
  change (String a s +:+ y) with (String a (s +:+ y)).
  cbn [rstrip_by]. rewrite IH.
  destruct (s +:+ y) eqn:E; [|reflexivity].
  destruct s; [|discriminate]. now destruct y.
Qed.

Lemma free_as_all_chars (c : ascii) (s : string) :
  has_char c s = false ->
  all_chars (fun a => negb (Ascii.eqb c a)) s = true.
Proof.
  induction s as [|a r IH]; [reflexivity|]. cbn [has_char all_chars].
  intros H. apply orb_false_iff in H as [Ha Hr].
  rewrite (IH Hr), andb_true_r. rewrite Ascii.eqb_sym. now rewrite Ha.
Qed.

Lemma rstrip_by_idem (p : ascii -> bool) (s : string) :
  rstrip_by p (rstrip_by p s) = rstrip_by p s.
Proof.
  induction s as [|a r IH]; [reflexivity|]. cbn [rstrip_by].
  destruct (is_empty (rstrip_by p r) && p a)%bool eqn:E; [reflexivity|].
  cbn [rstrip_by]. rewrite IH, E. reflexivity.
Qed.

Lemma lstrip_by_clean (p : ascii -> bool) (s : string) :
  starts_clean p (lstrip_by p s).
Proof.
  unfold starts_clean. induction s as [|a r IH]; [reflexivity|].
  cbn [lstrip_by]. destruct (p a) eqn:Ha; [exact IH|].
  cbn [lstrip_by]. now rewrite Ha.
Qed.

Lemma rstrip_by_keeps_clean (p : ascii -> bool) (s : string) :
  starts_clean p s -> starts_clean p (rstrip_by p s).
Proof.
  unfold starts_clean. destruct s as [|a r]; [reflexivity|].
  cbn [lstrip_by rstrip_by]. destruct (p a) eqn:Ha.
  - intros H. exfalso.
    assert (Hlen : forall t, (String.length (lstrip_by p t)
                              <= String.length t)%nat).
    { induction t as [|b t IHt]; [reflexivity|]. cbn [lstrip_by].
      destruct (p b); simpl; lia. }
    pose proof (Hlen r) as Hl. rewrite H in Hl. simpl in Hl. lia.
  - intros _. rewrite andb_false_r. cbn [lstrip_by]. now rewrite Ha.
Qed.

Lemma strip_by_clean (p : ascii -> bool) (s : string) :
  starts_clean p (strip_by p s) /\
  rstrip_by p (strip_by p s) = strip_by p s.
Proof.
  unfold strip_by. split.
  - apply rstrip_by_keeps_clean, lstrip_by_clean.
  - apply rstrip_by_idem.
Qed.

Lemma split_has_label (c : ascii) (s : string) :
  s <> "" -> rstrip_by (Ascii.eqb c) s = s ->
  existsb nonempty (split c s) = true.
Proof.
  induction s as [|a r IH]; [congruence|]. intros _ H.
  cbn [rstrip_by] in H.
  destruct (is_empty (rstrip_by (Ascii.eqb c) r) && Ascii.eqb c a)%bool eqn:E;
    [discriminate|].
  injection H as Hr. cbn [split].
  pose proof (split_not_nil c r) as Hn.
  destruct (split c r) as [|h t] eqn:Hs; [congruence|].
  destruct r as [|b r'].
  - cbn in E. cbn in Hs. injection Hs as <- <-.
    rewrite Ascii.eqb_sym, E. reflexivity.
  - specialize (IH ltac:(discriminate) Hr).
    destruct (Ascii.eqb a c); cbn [existsb is_empty negb] in *;
      [exact IH|reflexivity].
Qed.

Lemma dotted_has_two_labels (c : ascii) (s : string) :
  has_char c s = true -> starts_clean (Ascii.eqb c) s ->
  rstrip_by (Ascii.eqb c) s = s ->
  (2 <= length (filter (fun p => negb (is_empty p)) (split c s)))%nat.
Proof.
  intros Hc Hstart Hend.
  destruct (split_once c s) as [[x rest]|] eqn:Hsp.
  2:{ apply split_once_none_free in Hsp. congruence. }
  assert (Hx : has_char c x = false) by now apply split_once_head_free in Hsp.
  assert (Hs : s = x +:+ String c rest).
  { clear -Hsp. revert x rest Hsp. induction s as [|a r IH]; intros x rest;
      cbn [split_once]; [discriminate|].
    destruct (Ascii.eqb a c) eqn:Ha.
    - intros [= <- <-]. apply Ascii.eqb_eq in Ha. now subst a.
    - destruct (split_once c r) as [[h t]|]; [|discriminate].
      intros [= <- <-]. rewrite (IH h t eq_refl) at 1. reflexivity. }
  assert (Hxne : x <> "").
  { intros ->. change ("" +:+ String c rest) with (String c rest) in Hs.
    subst s. unfold starts_clean in Hstart. cbn [lstrip_by] in Hstart.
    rewrite Ascii.eqb_refl in Hstart.
    assert (Hlen : forall t, (String.length (lstrip_by (Ascii.eqb c) t)
                              <= String.length t)%nat).
    { induction t as [|b t IHt]; [reflexivity|]. cbn [lstrip_by].
      destruct (Ascii.eqb c b); simpl; lia. }
    pose proof (Hlen rest) as Hl. rewrite Hstart in Hl. simpl in Hl. lia. }
  assert (Hrest : rest <> "" /\ rstrip_by (Ascii.eqb c) rest = rest).
  { subst s. clear -Hend. induction x as [|a x IH].
    - change ("" +:+ String c rest) with (String c rest) in Hend.
      cbn [rstrip_by] in Hend. rewrite Ascii.eqb_refl, andb_true_r in Hend.
      destruct (is_empty (rstrip_by (Ascii.eqb c) rest)) eqn:E;
        [discriminate|].
      injection Hend as Hend. split; [|exact Hend].
      intros ->. discriminate.
    - change (String a x +:+ String c rest)
        with (String a (x +:+ String c rest)) in Hend.
      cbn [rstrip_by] in Hend.
      destruct (is_empty (rstrip_by (Ascii.eqb c) (x +:+ String c rest))
                && Ascii.eqb c a)%bool; [discriminate|].
      injection Hend as Hend. now apply IH. }
  destruct Hrest as [Hrne Hrend].
  rewrite Hs, (split_app c x rest Hx).
  rewrite filter_cons_True by (destruct x; [congruence|exact I]).
  cbn [length].
  pose proof (split_has_label c rest Hrne Hrend) as Hl.
  apply existsb_exists in Hl as (l & Hin & Hl).
  assert (l ∈ filter nonempty (split c rest)).
  { apply list_elem_of_filter. split; [now apply Is_true_true|].
    now apply list_elem_of_In. }
  destruct (filter nonempty (split c rest)); [by apply elem_of_nil in H|].
  simpl. lia.
Qed.

Lemma last_two_of_many {A : Type} (l : list A) :
  (2 <= length l)%nat ->
  exists x y, skipn (length l - 2) l = [x; y] /\ x ∈ l /\ y ∈ l.
Proof.
  intros Hlen.
  assert (H : length (skipn (length l - 2) l) = 2%nat)
    by (rewrite length_skipn; lia).
  destruct (skipn (length l - 2) l) as [|x [|y [|z t]]] eqn:E;
    try discriminate.
  exists x, y. split; [reflexivity|].
  assert (Hsub : forall a, a ∈ [x; y] -> a ∈ l).
  { intros a Ha. rewrite <- E in Ha. now apply (subseteq_drop (length l - 2) l). }
  split; apply Hsub; set_solver.
Qed.

Lemma root_of_two_labels (x y : string) :
  x <> "" -> y <> "" -> has_char "." x = false -> has_char "." y = false ->
  lowered x = true -> lowered y = true ->
  root_domain_from_host (x +:+ "." +:+ y) = x +:+ "." +:+ y.
Proof.
  intros Hx Hy Hfx Hfy Hlx Hly. unfold root_domain_from_host.
  change (x +:+ "." +:+ y) with (x +:+ String "." y).
  assert (Hlow : lower (x +:+ String "." y) = x +:+ String "." y).
  { apply lower_lowered. rewrite all_chars_app. cbn [all_chars].
    now rewrite Hlx, Hly. }
  rewrite Hlow.
  assert (Hstrip : strip_by dot (x +:+ String "." y) = x +:+ String "." y).
  { unfold strip_by.
    assert (Hl : lstrip_by dot (x +:+ String "." y) = x +:+ String "." y).
    { destruct x as [|a x']; [congruence|].
      change (String a x' +:+ String "." y)
        with (String a (x' +:+ String "." y)).
      cbn [lstrip_by]. cbn [has_char] in Hfx.
      apply orb_false_iff in Hfx as [Ha _]. rewrite Ascii.eqb_sym in Ha.
      now rewrite Ha. }
    rewrite Hl. apply rstrip_by_app_keep; [|discriminate].
    cbn [rstrip_by].
    rewrite (rstrip_by_free dot y (free_as_all_chars "." y Hfy)).
    destruct y; [congruence|reflexivity]. }
  rewrite Hstrip, (split_app "." x y Hfx), (split_free "." y Hfy).
  rewrite filter_cons_True by (destruct x; [congruence|exact I]).
  rewrite filter_cons_True by (destruct y; [congruence|exact I]).
  rewrite filter_nil. reflexivity.
Qed.

Lemma root_of_one_label (s : string) :
  has_char "." s = false -> lowered s = true -> root_domain_from_host s = s.
Proof.
  intros Hf Hl. unfold root_domain_from_host. rewrite (lower_lowered s Hl).
  assert (Hstrip : strip_by dot s = s).
  { unfold strip_by.
    rewrite (lstrip_by_free dot s (free_as_all_chars "." s Hf)).
    apply (rstrip_by_free dot s (free_as_all_chars "." s Hf)). }
  rewrite Hstrip, (split_free "." s Hf).
  destruct s; reflexivity.
Qed.

Lemma root_domain_shape (host : string) :
  let r := root_domain_from_host host in
  lower r = r /\
  (has_char "." r = false
   \/ exists x y, r = x +:+ "." +:+ y /\ x <> "" /\ y <> "" /\
                  has_char "." x = false /\ has_char "." y = false) /\
  root_domain_from_host r = r.
Proof.
  cbv zeta.
  set (host' := strip_by dot (lower host)).
  set (parts := filter nonempty (split "." host')).
  assert (Hr : root_domain_from_host host
               = if Nat.leb 2 (length parts) then join "." (last_two parts)
                 else host') by reflexivity.
  assert (Hlow : lowered host' = true).
  { unfold host', strip_by.
    apply all_chars_rstrip_by, all_chars_lstrip_by, lowered_lower. }
  assert (Hparts : forall p, p ∈ parts ->
            p <> "" /\ has_char "." p = false /\ lowered p = true).
  { intros p Hp. unfold parts in Hp.
    apply list_elem_of_filter in Hp as [Hne Hp].
    pose proof (split_labels_free "." host') as Hfree.
    pose proof (all_chars_split _ "." host' Hlow) as Hl.
    rewrite Forall_forall in Hfree, Hl.
    split; [|split; [now apply Hfree|now apply Hl]].
    intros ->. exact Hne. }
  destruct (Nat.leb_spec 2 (length parts)) as [Hlen|Hlen].
  - destruct (last_two_of_many parts Hlen) as (x & y & Hxy & Hx & Hy).
    unfold last_two in Hr. rewrite Hxy in Hr. cbn [join] in Hr.
    destruct (Hparts x Hx) as (Hx1 & Hx2 & Hx3).
    destruct (Hparts y Hy) as (Hy1 & Hy2 & Hy3).
    rewrite Hr. split.
    { apply lower_lowered.
      change (x +:+ "." +:+ y) with (x +:+ String "." y).
      rewrite all_chars_app. cbn [all_chars]. now rewrite Hx3, Hy3. }
    split.
    { right. exists x, y. now repeat split. }
    now apply root_of_two_labels.
  - assert (Hfree : has_char "." host' = false).
    { destruct (has_char "." host') eqn:E; [|reflexivity].
      destruct (strip_by_clean dot (lower host)) as [H1 H2].
      pose proof (dotted_has_two_labels "." host' E H1 H2) as H.
      fold parts in H. lia. }
    rewrite Hr. split; [now apply lower_lowered|]. split; [now left|].
    now apply root_of_one_label.
Qed.

End RootDomain.

(** X23. The root domain of a host is in normal form: it is in lower case;
    it is either free of dots (a single label, or nothing) or made of two
    non-empty labels joined by one dot; and taking the root domain again
    changes nothing.  A host with three significant labels or more always
    loses all but the last two. *)
Theorem root_domain_is_canonical (host : string) :
  let r := root_domain_from_host host in
  lower r = r /\
  (has_char "." r = false
   \/ exists x y, r = x +:+ "." +:+ y /\ x <> "" /\ y <> "" /\
                  has_char "." x = false /\ has_char "." y = false) /\
  root_domain_from_host r = r.
Proof. apply root_domain_shape. Qed.

(** ** The loop over the sources *)

Section CollectFacts.
Import SitemapSources.

Variable w : gmap string Sitemap.xml_doc.
Variable fetch : Crawler.site.
Variable allowed_domains : list string.
Variable global_max : Z.
Variable root_domain : string.
Variable enable_auto_subdomains : bool.
Variable polite_crawl : bool.

Local Abbreviation collect_loop :=
  (collect_loop w fetch allowed_domains global_max root_domain
     enable_auto_subdomains polite_crawl).

Lemma collect_loop_grows (fuel : nat) (sources : list SourceConfig)
    (collected : list string) (seen : gset string)
    (failed : option (list Crawler.FailedURLRecord))
    (collected' : list string) (seen' : gset string)
    (failed' : option (list Crawler.FailedURLRecord)) :
  collect_loop fuel sources collected seen failed
  = Some (Ok (collected', seen', failed')) ->
  collected `prefix_of` collected'.
Proof.
  revert collected seen failed.
  induction sources as [|src rest IH]; intros collected seen failed.
  - now intros [= <- <- <-].
  - cbn [SitemapSources.collect_loop].
    destruct (Z.leb global_max (Z.of_nat (length collected)));
      [now intros [= <- <- <-]|].
    destruct (String.eqb (src_type src) "sitemap").
    { destruct (Sitemap._collect_from_sitemap_source _ _ _ _)
        as [[[urls seen1]|]|]; try discriminate.
      intros H. apply IH in H. etransitivity; [|exact H].
      now apply prefix_app_r. }
    destruct (String.eqb (src_type src) "crawl").
    { destruct (Z.leb _ 0); [apply IH|].
      destruct (Crawler.crawl_site _ _ _ _ _ _ _ _ _ _ _) as [[st|]|];
        try discriminate.
      intros H. apply IH in H. etransitivity; [|exact H].
      now apply prefix_app_r. }
    destruct (String.eqb (src_type src) "static"); [|apply IH].
    intros H. apply IH in H. etransitivity; [|exact H].
    now apply prefix_app_r.
Qed.

Lemma collect_loop_crawl_budget (fuel : nat) (sources : list SourceConfig)
    (collected : list string) (seen : gset string)
    (failed : option (list Crawler.FailedURLRecord))
    (collected' : list string) (seen' : gset string)
    (failed' : option (list Crawler.FailedURLRecord)) :
  Forall (fun src => src_type src = "crawl") sources ->
  collect_loop fuel sources collected seen failed
  = Some (Ok (collected', seen', failed')) ->
  Z.of_nat (length collected')
  <= Z.max global_max (Z.of_nat (length collected)) /\
  seen' = seen.
Proof.
  revert collected seen failed.
  induction sources as [|src rest IH]; intros collected seen failed Hall.
  - intros [= <- <- <-]. split; [lia|reflexivity].
  - apply Forall_cons in Hall as [Hsrc Hrest].
    cbn [SitemapSources.collect_loop]. rewrite Hsrc.
    change (String.eqb "crawl" "sitemap") with false.
    change (String.eqb "crawl" "crawl") with true. cbv iota.
    destruct (Z.leb_spec global_max (Z.of_nat (length collected))) as [Hb|Hb];
      [intros [= <- <- <-]; split; [lia|reflexivity]|].
    destruct (Z.leb_spec (Z.max (global_max - Z.of_nat (length collected)) 0) 0)
      as [Hr|Hr]; [lia|].
    match goal with
    | |- match Crawler.crawl_site _ ?m _ _ _ _ _ _ _ _ _ with _ => _ end = _ -> _ =>
        set (per_source_max := m)
    end.
    destruct (Crawler.crawl_site _ _ _ _ _ _ _ _ _ _ _) as [[st|]|] eqn:Hc;
      try discriminate.
    intros H. destruct (IH _ _ _ Hrest H) as [Hlen Hseen].
    split; [|exact Hseen].
    apply crawl_site_invariant in Hc as [(_ & _ & Hcap & _) _].
    rewrite length_app in Hlen.
    assert (Hm : per_source_max
                 <= Z.max (global_max - Z.of_nat (length collected)) 0).
    { subst per_source_max.
      destruct (Z.ltb_spec
                  (Z.max (global_max - Z.of_nat (length collected)) 0)
                  (if Z.eqb (src_max_urls src) 0 then global_max
                   else src_max_urls src)); lia. }
    lia.
Qed.

End CollectFacts.

(** X24. The loop over the sources only appends to the list of collected
    URLs, and crawl sources respect the global budget: each crawl is given
    at most what is left of [max_urls], so a configuration with crawl
    sources only never collects more than [max_urls] URLs (beyond what was
    there before), and leaves the set of seen sitemaps alone. *)
Theorem crawl_sources_respect_global_budget
    (w : gmap string Sitemap.xml_doc) (fetch : Crawler.site)
    (allowed_domains : list string) (global_max : Z) (root_domain : string)
    (enable_auto_subdomains polite_crawl : bool) (fuel : nat)
    (sources : list SitemapSources.SourceConfig)
    (collected : list string) (seen : gset string)
    (failed : option (list Crawler.FailedURLRecord))
    (collected' : list string) (seen' : gset string)
    (failed' : option (list Crawler.FailedURLRecord)) :
  SitemapSources.collect_loop w fetch allowed_domains global_max root_domain
    enable_auto_subdomains polite_crawl fuel sources collected seen failed
  = Some (Ok (collected', seen', failed')) ->
  collected `prefix_of` collected' /\
  (Forall (fun src => SitemapSources.src_type src = "crawl") sources ->
   Z.of_nat (length collected')
   <= Z.max global_max (Z.of_nat (length collected)) /\
   seen' = seen).
Proof.
  intros H. split.
  - exact (collect_loop_grows _ _ _ _ _ _ _ _ _ _ _ _ _ _ _ H).
  - intros Hall.
    exact (collect_loop_crawl_budget _ _ _ _ _ _ _ _ _ _ _ _ _ _ _ Hall H).
Qed.

Lemma crawl_sources_respect_global_budget_witness :
  exists collected' seen' failed',
    SitemapSources.collect_loop ∅ Examples.small_site ["a.com"] 2 "a.com"
      false true 7
      [SitemapSources.mkSource "crawl" "https://a.com/" 2 0 [];
       SitemapSources.mkSource "crawl" "https://a.com/p2" 2 50 []]
      [] ∅ None
    = Some (Ok (collected', seen', failed')) /\
    Z.of_nat (length collected') <= Z.max 2 (Z.of_nat 0).
Proof.
  assert (H : exists collected' seen' failed',
             SitemapSources.collect_loop ∅ Examples.small_site ["a.com"] 2
               "a.com" false true 7
               [SitemapSources.mkSource "crawl" "https://a.com/" 2 0 [];
                SitemapSources.mkSource "crawl" "https://a.com/p2" 2 50 []]
               [] ∅ None
             = Some (Ok (collected', seen', failed')))
    by (vm_compute; do 3 eexists; reflexivity).
  destruct H as (collected' & seen' & failed' & H).
  exists collected', seen', failed'. split; [exact H|].
  apply (proj2 (crawl_sources_respect_global_budget _ _ _ _ _ _ _ _ _ _ _ _
                  _ _ _ H)).
  repeat constructor.
Defined.

(** ** Pages that are not found *)

Section NotFoundFacts.
Import Crawler.

Variable fetch : site.
Variable max_urls : Z.
Variable max_depth : Z.
Variable root_domain : option string.
Variable allow_same_root_subdomains : bool.
Variable polite_delay : bool.
Variable max_retries : Z.

Lemma fetch_with_retry_not_found (current : string) (r : response) :
  0 <= max_retries ->
  fetch current 0%nat = Responds r -> status_code r = 404 ->
  exists tr,
    fetch_with_retry fetch polite_delay max_retries current = (None, None, tr).
Proof.
  intros Hm Hf Hs. unfold fetch_with_retry.
  replace (Z.to_nat (max_retries + 1)) with (S (Z.to_nat max_retries)) by lia.
  cbn [seq retry_loop]. rewrite Hf, Hs. cbn [Z.eqb Pos.eqb]. eauto.
Qed.

Lemma visit_not_found (current : string) (depth : Z) (st : state)
    (r : response) :
  0 <= max_retries ->
  current ∉ visited st ->
  _is_allowed_domain current (dynamic_allowed_hosts st) = Ok true ->
  should_skip_by_extension current = Ok false ->
  fetch current 0%nat = Responds r -> status_code r = 404 ->
  exists st',
    visit fetch max_urls max_depth root_domain allow_same_root_subdomains
      polite_delay max_retries current depth st = Ok st' /\
    results st' = results st /\ queue st' = queue st /\
    current ∈ visited st' /\
    failed_urls st'
    = match failed_urls st with
      | Some l => Some (l ++ [mkFailed current "None" None])%list
      | None => None
      end.
Proof.
  intros Hm Hv Hallowed Hskip Hf Hs. unfold visit.
  rewrite bool_decide_eq_false_2 by exact Hv.
  cbn [queue counter visited results dynamic_allowed_hosts failed_urls trace].
  assert (Hp : exists p, urlparse current = Ok p).
  { unfold _is_allowed_domain in Hallowed.
    destruct (urlparse current) as [p|e]; [eauto|discriminate]. }
  destruct Hp as [p Hp]. rewrite Hp, Hallowed. simpl. rewrite Hskip. simpl.
  destruct (fetch_with_retry_not_found current r Hm Hf Hs) as [tr Htr].
  rewrite Htr. eexists. split; [reflexivity|]. simpl.
  split; [reflexivity|]. split; [reflexivity|]. split; [set_solver|].
  now destruct (failed_urls st).
Qed.

End NotFoundFacts.

(** X25. What is recorded for a page that is not found.  A URL on an allowed
    host, not yet visited and not a binary asset, whose first request is
    answered 404: the crawler keeps it out of the results, enqueues nothing,
    marks it visited, and, when the caller passed a list, appends a record
    whose error text is [None] and whose status code is missing, since no
    exception was raised from which the code could be read. *)
Theorem not_found_page_is_recorded_without_status (fetch : Crawler.site)
    (max_urls max_depth : Z) (root_domain : option string)
    (allow_same_root_subdomains polite_delay : bool) (max_retries : Z)
    (current : string) (depth : Z) (st : Crawler.state)
    (r : Crawler.response) :
  0 <= max_retries ->
  current ∉ Crawler.visited st ->
  Crawler._is_allowed_domain current (Crawler.dynamic_allowed_hosts st)
  = Ok true ->
  should_skip_by_extension current = Ok false ->
  fetch current 0%nat = Crawler.Responds r ->
  Crawler.status_code r = 404 ->
  exists st',
    Crawler.visit fetch max_urls max_depth root_domain
      allow_same_root_subdomains polite_delay max_retries current depth st
    = Ok st' /\
    Crawler.results st' = Crawler.results st /\
    Crawler.queue st' = Crawler.queue st /\
    current ∈ Crawler.visited st' /\
    Crawler.failed_urls st'
    = match Crawler.failed_urls st with
      | Some l => Some (l ++ [Crawler.mkFailed current "None" None])%list
      | None => None
      end.
Proof. apply visit_not_found. Qed.

Lemma not_found_page_is_recorded_without_status_witness :
  exists st',
    Crawler.visit (fun url _ => Examples.html_page url 404 "Not Found" [])
      10 2 None false true 4 "https://a.com/gone" 1
      (Crawler.mkState [] 1 ∅ [] {["a.com"]} (Some []) [])
    = Ok st' /\
    Crawler.results st' = [] /\
    Crawler.queue st' = [] /\
    "https://a.com/gone" ∈ Crawler.visited st' /\
    Crawler.failed_urls st'
    = Some [Crawler.mkFailed "https://a.com/gone" "None" None].
Proof.
  apply (not_found_page_is_recorded_without_status
           (fun url _ => Examples.html_page url 404 "Not Found" [])
           10 2 None false true 4 "https://a.com/gone" 1
           (Crawler.mkState [] 1 ∅ [] {["a.com"]} (Some []) [])
           (Crawler.mkResponse 404 None (Some "text/html") "Not Found"
              "https://a.com/gone" (Some []) None)).
  - lia.
  - set_solver.
  - vm_compute. reflexivity.
  - vm_compute. reflexivity.
  - reflexivity.
  - reflexivity.
Defined.

(** ** Sitemaps declared in robots.txt *)

Section RobotsFacts.
Import Sitemap.

Lemma normalize_and_dedup_spec (sitemaps out : list string)
    (seen : gset string) (result : list string) :
  (forall n, n ∈ seen <-> n ∈ out) ->
  normalize_and_dedup sitemaps out seen = Ok result ->
  exists ns,
    Forall2 (fun sm n => normalize_url sm true true false = Ok n) sitemaps ns /\
    result = first_occurrences_after out ns.
Proof.
  revert out seen. induction sitemaps as [|sm rest IH]; intros out seen Hseen.
  - intros [= <-]. exists []. split; [constructor|reflexivity].
  - cbn [normalize_and_dedup].
    destruct (normalize_url sm true true false) as [n|] eqn:Hn; [|discriminate].
    cbn [mbind result_bind].
    destruct (decide (n ∈ seen)) as [Hin|Hnin]; intros H.
    + destruct (IH _ _ Hseen H) as (ns & Hns & ->).
      exists (n :: ns). split; [now constructor|].
      unfold first_occurrences_after. cbn [fold_left].
      now rewrite decide_True by now apply Hseen.
    + destruct (IH (out ++ [n])%list ({[n]} ∪ seen)) with (2 := H)
        as (ns & Hns & ->).
      { intros m. rewrite elem_of_union, elem_of_singleton, elem_of_app,
          list_elem_of_singleton, Hseen. tauto. }
      exists (n :: ns). split; [now constructor|].
      unfold first_occurrences_after. cbn [fold_left].
      rewrite decide_False by (intros Hc; now apply Hseen in Hc).
      reflexivity.
Qed.

Lemma first_occurrences_after_NoDup (acc l : list string) :
  NoDup acc -> NoDup (first_occurrences_after acc l).
Proof.
  revert acc. induction l as [|n l IH]; intros acc Hacc; [exact Hacc|].
  unfold first_occurrences_after. cbn [fold_left].
  destruct (decide (n ∈ acc)); [now apply IH|].
  apply IH. apply NoDup_app. split; [exact Hacc|]. split.
  - intros x Hx Hx'. apply list_elem_of_singleton in Hx'. now subst x.
  - apply NoDup_singleton.
Qed.

Lemma first_occurrences_after_elem (acc l : list string) (x : string) :
  x ∈ first_occurrences_after acc l <-> x ∈ acc \/ x ∈ l.
Proof.
  revert acc. induction l as [|n l IH]; intros acc.
  - cbn. rewrite elem_of_nil. tauto.
  - unfold first_occurrences_after. cbn [fold_left].
    destruct (decide (n ∈ acc)) as [Hin|Hnin].
    + fold (first_occurrences_after acc l). rewrite IH, elem_of_cons.
      split; [tauto|]. intros [H|[->|H]]; tauto.
    + fold (first_occurrences_after (acc ++ [n]) l).
      rewrite IH, elem_of_app, list_elem_of_singleton, elem_of_cons. tauto.
Qed.

Lemma discover_spec (robots : string -> option string) (base_url : string)
    (out : list string) :
  _discover_sitemaps_from_robots robots base_url = Ok out ->
  NoDup out /\
  forall n, n ∈ out ->
    has_char "#" n = false /\
    exists parsed text sm,
      urlparse base_url = Ok parsed /\
      robots (scheme parsed +:+ "://" +:+ netloc parsed +:+ "/robots.txt")
      = Some text /\
      sm ∈ declared_sitemaps text /\
      normalize_url sm true true false = Ok n.
Proof.
  unfold _discover_sitemaps_from_robots.
  destruct (urlparse base_url) as [parsed|]; [|discriminate].
  cbn [mbind result_bind].
  destruct (is_empty (scheme parsed) || is_empty (netloc parsed))%bool.
  { intros [= <-]. split; [constructor|]. intros n Hn.
    by apply elem_of_nil in Hn. }
  destruct (robots _) as [text|] eqn:Hr.
  2:{ intros [= <-]. split; [constructor|]. intros n Hn.
      by apply elem_of_nil in Hn. }
  intros H. apply normalize_and_dedup_spec in H as (ns & Hns & ->).
  2:{ intros n. split; intros Hn; [set_solver|by apply elem_of_nil in Hn]. }
  split; [apply first_occurrences_after_NoDup; constructor|].
  intros n Hn. apply first_occurrences_after_elem in Hn as [Hn|Hn];
    [by apply elem_of_nil in Hn|].
  assert (Hsm : exists sm, sm ∈ declared_sitemaps text /\
                           normalize_url sm true true false = Ok n).
  { clear -Hns Hn. induction Hns as [|sm m sms ms Hm _ IH].
    - by apply elem_of_nil in Hn.
    - apply elem_of_cons in Hn as [->|Hn].
      + exists sm. split; [apply list_elem_of_here|exact Hm].
      + destruct (IH Hn) as (sm' & H1 & H2). exists sm'.
        split; [now apply list_elem_of_further|exact H2]. }
  destruct Hsm as (sm & Hsm & Hnorm). split.
  - exact (normalize_no_hash _ _ _ _ Hnorm).
  - exists parsed, text, sm. now repeat split.
Qed.

End RobotsFacts.

(** X26. The sitemaps that [robots.txt] declares.  What
    [_discover_sitemaps_from_robots] returns has no URL twice, and each of
    its URLs is the normal form (https preferred, fragment dropped, final
    slash kept) of the value of a [Sitemap:] line of the [robots.txt] of
    the base URL's host, and so contains no [#]. *)
Theorem robots_sitemaps_are_declared_and_distinct
    (robots : string -> option string) (base_url : string)
    (out : list string) :
  Sitemap._discover_sitemaps_from_robots robots base_url = Ok out ->
  NoDup out /\
  forall n, n ∈ out ->
    has_char "#" n = false /\
    exists parsed text sm,
      urlparse base_url = Ok parsed /\
      robots (scheme parsed +:+ "://" +:+ netloc parsed +:+ "/robots.txt")
      = Some text /\
      sm ∈ Sitemap.declared_sitemaps text /\
      normalize_url sm true true false = Ok n.
Proof. apply discover_spec. Qed.

Lemma robots_sitemaps_are_declared_and_distinct_witness :
  Sitemap._discover_sitemaps_from_robots
    (fun url => if String.eqb url "https://a.com/robots.txt"
                then Some Examples.robots_txt else None)
    "https://a.com"
  = Ok ["https://a.com/sitemap.xml"] /\
  NoDup ["https://a.com/sitemap.xml"].
Proof.
  assert (H : Sitemap._discover_sitemaps_from_robots
                (fun url => if String.eqb url "https://a.com/robots.txt"
                            then Some Examples.robots_txt else None)
                "https://a.com"
              = Ok ["https://a.com/sitemap.xml"]) by (vm_compute; reflexivity).
  split; [exact H|].
  exact (proj1 (robots_sitemaps_are_declared_and_distinct _ _ _ H)).
Defined.

(** ** The source collector as a whole *)

Section CollectAllFacts.
Import SitemapSources.

Lemma collect_urls_spec (w : gmap string Sitemap.xml_doc)
    (fetch : Crawler.site) (robots : string -> option string)
    (base_url : string) (allowed_domains : list string) (global_max : Z)
    (enable_auto_subdomains polite_crawl : bool) (fuel : nat)
    (sources : list SourceConfig)
    (failed : option (list Crawler.FailedURLRecord))
    (out : list string) (failed' : option (list Crawler.FailedURLRecord)) :
  collect_urls_from_sources w fetch robots base_url allowed_domains global_max
    enable_auto_subdomains polite_crawl fuel sources failed
  = Some (Ok (out, failed')) ->
  NoDup out /\
  Z.of_nat (length out) <= Z.max global_max 1 /\
  forall n, n ∈ out ->
    has_char "#" n = false /\
    exists u, Sitemap._is_allowed_domain allowed_domains u = Ok true /\
              normalize_url u true true true = Ok n.
Proof.
  unfold collect_urls_from_sources.
  destruct sources as [|src0 sources'].
  { intros [= <- <-]. split; [constructor|]. split; [simpl; lia|].
    intros n Hn. by apply elem_of_nil in Hn. }
  destruct (urlparse base_url) as [parsed|]; [|discriminate].
  destruct (collect_loop _ _ _ _ _ _ _ _ _ _ _ _) as [[[[c1 s1] f1]|]|];
    try discriminate.
  match goal with
  | |- match ?a with _ => _ end = _ -> _ => destruct a as [[[c2 s2]|]|]
  end; try discriminate.
  destruct (Sitemap.dedup_and_truncate allowed_domains global_max c2)
    as [unique|] eqn:Hd; [|discriminate].
  intros [= <- <-].
  destruct (dedup_loop_invariant allowed_domains global_max c2 c2 [] ∅ unique)
    as (Hnd & Hcan & Hlen); try assumption.
  - auto.
  - constructor.
  - intros n. split; intros Hn; [by apply elem_of_nil in Hn|set_solver].
  - intros n Hn. by apply elem_of_nil in Hn.
  - simpl. lia.
  - split; [exact Hnd|]. split; [exact Hlen|].
    intros n Hn. destruct (Hcan n Hn) as (u & _ & Ha & Hnorm).
    split; [exact (normalize_no_hash _ _ _ _ Hnorm)|]. now exists u.
Qed.

End CollectAllFacts.

(** X27. What the source collector returns, whatever the sources are
    (sitemaps, crawls, static lists, the fall-back on [robots.txt]): a list
    without duplicates, of at most [max(max_urls, 1)] URLs, each of which is
    the canonical form of a URL on an allowed domain and contains no [#].
    Without sources it returns the empty list and contacts nothing. *)
Theorem collected_urls_are_canonical_distinct_and_capped
    (w : gmap string Sitemap.xml_doc) (fetch : Crawler.site)
    (robots : string -> option string) (base_url : string)
    (allowed_domains : list string) (global_max : Z)
    (enable_auto_subdomains polite_crawl : bool) (fuel : nat)
    (sources : list SitemapSources.SourceConfig)
    (failed : option (list Crawler.FailedURLRecord)) :
  (sources = [] ->
   SitemapSources.collect_urls_from_sources w fetch robots base_url
     allowed_domains global_max enable_auto_subdomains polite_crawl fuel
     sources failed = Some (Ok ([], failed))) /\
  forall out failed',
    SitemapSources.collect_urls_from_sources w fetch robots base_url
      allowed_domains global_max enable_auto_subdomains polite_crawl fuel
      sources failed = Some (Ok (out, failed')) ->
    NoDup out /\
    Z.of_nat (length out) <= Z.max global_max 1 /\
    forall n, n ∈ out ->
      has_char "#" n = false /\
      exists u, Sitemap._is_allowed_domain allowed_domains u = Ok true /\
                normalize_url u true true true = Ok n.
Proof.
  split; [now intros ->|]. intros out failed'. apply collect_urls_spec.
Qed.

Lemma collected_urls_are_canonical_distinct_and_capped_witness :
  exists out failed',
    SitemapSources.collect_urls_from_sources Examples.cyclic_web
      Examples.small_site (fun _ => None) "https://a.com" ["a.com"] 4 false
      true 7
      [SitemapSources.mkSource "static" "" 2 0
         ["https://a.com/page1#intro"; "https://other.org/x"];
       SitemapSources.mkSource "sitemap" "https://a.com/a.xml" 2 0 [];
       SitemapSources.mkSource "crawl" "https://a.com/" 2 0 []]
      None = Some (Ok (out, failed')) /\
    NoDup out /\ Z.of_nat (length out) <= Z.max 4 1.
Proof.
  assert (H : exists out failed',
             SitemapSources.collect_urls_from_sources Examples.cyclic_web
               Examples.small_site (fun _ => None) "https://a.com" ["a.com"]
               4 false true 7
               [SitemapSources.mkSource "static" "" 2 0
                  ["https://a.com/page1#intro"; "https://other.org/x"];
                SitemapSources.mkSource "sitemap" "https://a.com/a.xml" 2 0 [];
                SitemapSources.mkSource "crawl" "https://a.com/" 2 0 []]
               None = Some (Ok (out, failed')))
    by (vm_compute; do 2 eexists; reflexivity).
  destruct H as (out & failed' & H). exists out, failed'.
  split; [exact H|].
  destruct (proj2 (collected_urls_are_canonical_distinct_and_capped _ _ _ _ _
                     _ _ _ _ _ _) out failed' H) as (Hnd & Hlen & _).
  now split.
Defined.
